(** * share_ai_cr: the rule catalog, the classifier adapter and the parser

    A shallow embedding of [ai_cr_tools/code_smell_detector.py],
    [ai_cr_tools/php_parser.py] and [ai_cr_tools/feature_extractor.py],
    and the properties of the specification that were checked on it.

    - Python [str] values are Rocq [string]s; a character is a code point
      below 256, with Python's classes for these code points.  Lines are
      the elements of [f.readlines()], so every line of a file but
      possibly the last one ends with a newline character.
    - The patterns are terms of a small regular-expression language, run
      by a backtracking matcher with the priorities of Python's [re].
    - A [float] is a rational number ([Q]).  The ratios and means of a
      feature profile are kept exact and only compared with constants;
      the scores of [_predict_with_rules] are computed as the code
      computes them, every operation rounded to the nearest binary64
      number ([nearest]).
    - What the code gets from outside is a parameter: the iteration
      order of sets ([SetOrder]), the installed classifier, the file
      system, the PHP interpreter and [json.loads] ([world]).
    - A loop that may run for ever takes fuel and gives [None] when the
      fuel is used up.
    - The text of a file is what Python reads in text mode: its lines
      end with a newline character, and a file is the same for every
      [open] of one call. *)

From Stdlib Require Import List String Ascii Bool Arith ZArith QArith Lia.
From Stdlib Require Import DecimalString Lqa Qround Qabs Qpower SpecFloat.
Import ListNotations.

Local Open Scope string_scope.
Local Open Scope nat_scope.

(** ** Python string operations *)

Module PyStr.

Definition nl : string := String "010" EmptyString.

(** [str.isspace] on one code point below 256 (also the class [\s]). *)
Definition is_space (c : ascii) : bool :=
  let n := nat_of_ascii c in
  ((9 <=? n) && (n <=? 13)) || ((28 <=? n) && (n <=? 32))
  || (n =? 133) || (n =? 160).

Definition is_digit (c : ascii) : bool :=
  let n := nat_of_ascii c in (48 <=? n) && (n <=? 57).

Definition is_upper (c : ascii) : bool :=
  let n := nat_of_ascii c in (65 <=? n) && (n <=? 90).

Definition is_lower (c : ascii) : bool :=
  let n := nat_of_ascii c in (97 <=? n) && (n <=? 122).

(** The class [\w] of a [str] pattern: [str.isalnum] or an underscore. *)
Definition is_word (c : ascii) : bool :=
  let n := nat_of_ascii c in
  is_digit c || is_upper c || is_lower c || (n =? 95)
  || (n =? 170) || (n =? 178) || (n =? 179) || (n =? 181)
  || (n =? 185) || (n =? 186) || ((188 <=? n) && (n <=? 190))
  || ((192 <=? n) && (n <=? 214)) || ((216 <=? n) && (n <=? 246))
  || ((248 <=? n) && (n <=? 255)).

Definition to_lower (c : ascii) : ascii :=
  if is_upper c then ascii_of_nat (nat_of_ascii c + 32) else c.

Definition to_upper (c : ascii) : ascii :=
  if is_lower c then ascii_of_nat (nat_of_ascii c - 32) else c.

Fixpoint lstrip (s : string) : string :=
  match s with
  | EmptyString => EmptyString
  | String c t => if is_space c then lstrip t else s
  end.

Fixpoint rstrip (s : string) : string :=
  match s with
  | EmptyString => EmptyString
  | String c t =>
      match rstrip t with
      | EmptyString => if is_space c then EmptyString else String c EmptyString
      | t' => String c t'
      end
  end.

Definition strip (s : string) : string := rstrip (lstrip s).

(** [s.startswith(p)] *)
Definition startswith (p s : string) : bool := String.prefix p s.

(** [sub in s] *)
Fixpoint contains (sub s : string) : bool :=
  String.prefix sub s
  || match s with
     | EmptyString => false
     | String _ t => contains sub t
     end.

(** [s.count(c)] for a one-character [c]. *)
Fixpoint count (c : ascii) (s : string) : nat :=
  match s with
  | EmptyString => 0
  | String x t => (if Ascii.eqb x c then 1 else 0) + count c t
  end.

(** [s.split(c)] for a one-character separator [c]. *)
Fixpoint split (c : ascii) (s : string) : list string :=
  match s with
  | EmptyString => [EmptyString]
  | String x t =>
      if Ascii.eqb x c then EmptyString :: split c t
      else match split c t with
           | [] => [String x EmptyString]
           | p :: ps => String x p :: ps
           end
  end.

(** [s[i:j]] *)
Definition slice (s : string) (i j : nat) : string :=
  String.substring i (j - i) s.

(** [str(n)] for a natural number. *)
Definition str_nat (n : nat) : string :=
  NilZero.string_of_uint (Nat.to_uint n).

(** [len(s.split())]: the number of maximal runs of non-blank
    characters. *)
Fixpoint count_words (in_word : bool) (s : string) : nat :=
  match s with
  | EmptyString => 0
  | String c t =>
      if is_space c then count_words false t
      else (if in_word then 0 else 1) + count_words true t
  end.

(** [list(set(l))].  The iteration order of a set of strings depends
    on the hash seed of the process; a [SetOrder] is one such order: a
    function that lists the distinct elements of [l], each once. *)
Record SetOrder : Type := mkSetOrder {
  set_list : list string -> list string;
  set_list_NoDup : forall l, NoDup (set_list l);
  set_list_In : forall l x, In x (set_list l) <-> In x l
}.

(** [sep.join(l)] *)
Fixpoint join (sep : string) (l : list string) : string :=
  match l with
  | [] => EmptyString
  | [x] => x
  | x :: t => x ++ sep ++ join sep t
  end.

End PyStr.

(** ** The fragment of Python's [re] that the detectors use

    A backtracking matcher in continuation-passing style, with Python's
    priorities: alternatives left to right, greedy repetition.  A match
    state records the character before the cursor (for [\b]), the rest of
    the subject, the cursor position and the groups captured so far. *)

Module Re.
Import PyStr.

Inductive item : Type :=
| IChar (c : ascii)
| IRange (lo hi : ascii)
| ISpace
| IWord
| IDigit.

Inductive regex : Type :=
| Eps
| Chr (c : ascii)
| Dot
| Cls (neg : bool) (items : list item)
| Bol
| Eol
| WordB
| Seq (r1 r2 : regex)
| Alt (r1 r2 : regex)
| Star (r : regex)
| Opt (r : regex)
| Grp (n : nat) (r : regex).

Definition Plus (r : regex) : regex := Seq r (Star r).

(** A literal: the characters of [s] in sequence. *)
Fixpoint Lit (s : string) : regex :=
  match s with
  | EmptyString => Eps
  | String c EmptyString => Chr c
  | String c t => Seq (Chr c) (Lit t)
  end.

(** [(a|b|...)] over literals. *)
Fixpoint AltLits (l : list string) : regex :=
  match l with
  | [] => Cls false []
  | [s] => Lit s
  | s :: t => Alt (Lit s) (AltLits t)
  end.

Fixpoint Seqs (l : list regex) : regex :=
  match l with
  | [] => Eps
  | [r] => r
  | r :: t => Seq r (Seqs t)
  end.

Definition s_ : regex := Cls false [ISpace].    (* \s *)
Definition w_ : regex := Cls false [IWord].     (* \w *)
Definition d_ : regex := Cls false [IDigit].    (* \d *)

Record mstate : Type := MState {
  prev : option ascii;
  rest : list ascii;
  pos : nat;
  caps : list (nat * string)
}.

Definition item_has (i : item) (c : ascii) : bool :=
  match i with
  | IChar x => Ascii.eqb x c
  | IRange lo hi =>
      (nat_of_ascii lo <=? nat_of_ascii c) && (nat_of_ascii c <=? nat_of_ascii hi)
  | ISpace => is_space c
  | IWord => is_word c
  | IDigit => is_digit c
  end.

(** With [re.IGNORECASE] a set holds a character when it holds one of
    its case variants. *)
Definition in_set (ic : bool) (items : list item) (c : ascii) : bool :=
  existsb (fun i => item_has i c
                    || (ic && (item_has i (to_lower c) || item_has i (to_upper c))))
          items.

Definition chr_eq (ic : bool) (p c : ascii) : bool :=
  if ic then Ascii.eqb (to_lower p) (to_lower c) else Ascii.eqb p c.

Definition newline : ascii := "010"%char.

Definition advance (s : mstate) (c : ascii) (t : list ascii) : mstate :=
  MState (Some c) t (S (pos s)) (caps s).

Definition one (ok : ascii -> bool) (s : mstate)
           (k : mstate -> option mstate) : option mstate :=
  match rest s with
  | c :: t => if ok c then k (advance s c t) else None
  | [] => None
  end.

Definition is_word_opt (o : option ascii) : bool :=
  match o with Some c => is_word c | None => false end.

Definition at_boundary (s : mstate) : bool :=
  xorb (is_word_opt (prev s)) (is_word_opt (hd_error (rest s))).

Definition at_eol (s : mstate) : bool :=
  match rest s with
  | [] => true
  | [c] => Ascii.eqb c newline
  | _ => false
  end.

Definition capture (n : nat) (s0 s1 : mstate) : mstate :=
  MState (prev s1) (rest s1) (pos s1)
         ((n, string_of_list_ascii (firstn (pos s1 - pos s0) (rest s0)))
            :: caps s1).

(** Greedy repetition of [step], then [k]: at most [fuel] rounds, each
    of which must move the cursor. *)
Fixpoint star_loop (step : mstate -> (mstate -> option mstate) -> option mstate)
         (k : mstate -> option mstate) (fuel : nat) (s0 : mstate)
  : option mstate :=
  match fuel with
  | O => k s0
  | S fuel' =>
      match step s0 (fun s1 => if pos s0 <? pos s1
                               then star_loop step k fuel' s1 else None)
      with
      | Some m => Some m
      | None => k s0
      end
  end.

Fixpoint run (ic : bool) (r : regex) (s : mstate)
         (k : mstate -> option mstate) {struct r} : option mstate :=
  match r with
  | Eps => k s
  | Chr c => one (chr_eq ic c) s k
  | Dot => one (fun c => negb (Ascii.eqb c newline)) s k
  | Cls neg items => one (fun c => xorb neg (in_set ic items c)) s k
  | Bol => if pos s =? 0 then k s else None
  | Eol => if at_eol s then k s else None
  | WordB => if at_boundary s then k s else None
  | Seq r1 r2 => run ic r1 s (fun s1 => run ic r2 s1 k)
  | Alt r1 r2 =>
      match run ic r1 s k with
      | Some m => Some m
      | None => run ic r2 s k
      end
  | Star r1 => star_loop (run ic r1) k (S (List.length (rest s))) s
  | Opt r1 =>
      match run ic r1 s k with
      | Some m => Some m
      | None => k s
      end
  | Grp n r1 => run ic r1 s (fun s1 => k (capture n s s1))
  end.

(** A match object: span and captured groups. *)
Record mobj : Type := MObj {
  m_start : nat;
  m_end : nat;
  m_caps : list (nat * string)
}.

(** [m.group(n)]; [None] when the group did not take part. *)
Definition group (n : nat) (m : mobj) : option string :=
  option_map snd (find (fun p => fst p =? n) (m_caps m)).

Definition match_at (ic : bool) (r : regex) (p : option ascii)
           (l : list ascii) (i : nat) : option mobj :=
  option_map (fun s => MObj i (pos s) (caps s))
             (run ic r (MState p l i []) Some).

(** Leftmost match at or after the cursor. *)
Fixpoint scan (ic : bool) (r : regex) (p : option ascii)
         (l : list ascii) (i : nat) : option mobj :=
  match match_at ic r p l i with
  | Some m => Some m
  | None =>
      match l with
      | [] => None
      | c :: t => scan ic r (Some c) t (S i)
      end
  end.

(** [re.search(r, s)], with [ic] for [re.IGNORECASE]. *)
Definition search (ic : bool) (r : regex) (s : string) : option mobj :=
  scan ic r None (list_ascii_of_string s) 0.

Definition matches (ic : bool) (r : regex) (s : string) : bool :=
  match search ic r s with Some _ => true | None => false end.

(** [re.match(r, s)] *)
Definition match_ (ic : bool) (r : regex) (s : string) : option mobj :=
  match_at ic r None (list_ascii_of_string s) 0.

Fixpoint drop_prev (p : option ascii) (l : list ascii) (n : nat)
  : option ascii * list ascii :=
  match n, l with
  | S n', c :: t => drop_prev (Some c) t n'
  | _, _ => (p, l)
  end.

(** All non-overlapping matches, left to right; after an empty match
    the cursor moves one character on. *)
Fixpoint finditer_from (fuel : nat) (ic : bool) (r : regex)
         (p : option ascii) (l : list ascii) (i : nat) : list mobj :=
  match fuel with
  | O => []
  | S fuel' =>
      match scan ic r p l i with
      | None => []
      | Some m =>
          let '(p1, l1) := drop_prev p l (m_end m - i) in
          if m_start m <? m_end m
          then m :: finditer_from fuel' ic r p1 l1 (m_end m)
          else match l1 with
               | [] => [m]
               | c :: t => m :: finditer_from fuel' ic r (Some c) t (S (m_end m))
               end
      end
  end.

Definition finditer (ic : bool) (r : regex) (s : string) : list mobj :=
  let l := list_ascii_of_string s in
  finditer_from (S (List.length l)) ic r None l 0.

(** [re.findall(r, s)] for a pattern with exactly one group. *)
Definition findall1 (ic : bool) (r : regex) (s : string) : list string :=
  map (fun m => match group 1 m with Some g => g | None => EmptyString end)
      (finditer ic r s).

(** [re.sub(r, '', s)]: the subject without its matches. *)
Fixpoint pieces (s : string) (i : nat) (ms : list mobj) : string :=
  match ms with
  | [] => String.substring i (String.length s - i) s
  | m :: t => String.substring i (m_start m - i) s ++ pieces s (m_end m) t
  end.

Definition sub_del (ic : bool) (r : regex) (s : string) : string :=
  pieces s 0 (finditer ic r s).

End Re.

(** ** The rule catalog: [CodeSmellDetector._detect_detailed_issues]

    [CodeIssue] is the dataclass without its [suggestion] field, a fixed
    remediation text that no code path inspects.  The Chinese texts of
    the messages stand as their UTF-8 bytes; they are only concatenated,
    never scanned. *)

Module Detector.
Import PyStr Re.

Record CodeIssue : Type := mkIssue {
  type : string;
  severity : string;
  message : string;
  line_number : nat;
  line_content : string;
  code_snippet : list string
}.

(** [enumerate(lines)] *)
Fixpoint enumerate_from {A : Type} (i : nat) (l : list A) : list (nat * A) :=
  match l with
  | [] => []
  | x :: t => (i, x) :: enumerate_from (S i) t
  end.

Definition enumerate {A : Type} (l : list A) : list (nat * A) :=
  enumerate_from 0 l.

(** [lines[j]] for an index in range. *)
Definition at_ (lines : list string) (j : nat) : string :=
  nth j lines EmptyString.

(** [range(lo, hi)] *)
Definition range (lo hi : nat) : list nat := seq lo (hi - lo).

(** [lines[lo:hi]] *)
Definition slice_lines (lines : list string) (lo hi : nat) : list string :=
  firstn (hi - lo) (skipn lo lines).

Definition nonempty (s : string) : bool :=
  negb (String.eqb s EmptyString).

Definition grp (n : nat) (m : mobj) : string :=
  match group n m with Some g => g | None => EmptyString end.

Definition zcount (c : ascii) (s : string) : Z := Z.of_nat (count c s).

(** *** Patterns

    Each pattern is preceded by its source text.  Where the source
    has a star directly before a closing parenthesis, the comment puts
    a blank between the two. *)

Definition ident_start : regex :=
  Cls false [IRange "a" "z"; IRange "A" "Z"; IChar "_"].
Definition ident_char : regex :=
  Cls false [IRange "a" "z"; IRange "A" "Z"; IRange "0" "9"; IChar "_"].
Definition not_rparen : regex := Cls true [IChar ")"].

(** function\s+([a-zA-Z_][a-zA-Z0-9_]* )\s*\(([^)]* )\) *)
Definition re_method_sig : regex :=
  Seqs [Lit "function"; Plus s_; Grp 1 (Seq ident_start (Star ident_char));
        Star s_; Chr "("; Grp 2 (Star not_rparen); Chr ")"].

(** \).*$ *)
Definition re_after_paren : regex := Seqs [Chr ")"; Star Dot; Eol].

(** function\s+(\w+)\s*\( *)
Definition re_method_open : regex :=
  Seqs [Lit "function"; Plus s_; Grp 1 (Plus w_); Star s_; Chr "("].

(** \b(if|for|foreach|while|switch)\b *)
Definition re_branch : regex :=
  Seqs [WordB; Grp 1 (AltLits ["if"; "for"; "foreach"; "while"; "switch"]); WordB].

(** function\s+(\w+)\s*\(([^)]* )\) *)
Definition re_function_params : regex :=
  Seqs [Lit "function"; Plus s_; Grp 1 (Plus w_); Star s_; Chr "(";
        Grp 2 (Star not_rparen); Chr ")"].

(** *** 1. [_find_long_methods] *)

(** The brace-matching loop [for j in range(i, len(lines))]; [ls] is
    [lines[j:]] and [dflt] the initial [method_end]. *)
Fixpoint find_method_end (ls : list string) (j : nat) (brace_count : Z)
         (found_start_brace : bool) (dflt : nat) : nat :=
  match ls with
  | [] => dflt
  | current_line :: t =>
      let bc := (brace_count + zcount "{" current_line
                 - zcount "}" current_line)%Z in
      let found := found_start_brace || (0 <? bc)%Z in
      if found && (bc =? 0)%Z then j
      else find_method_end t (S j) bc found dflt
  end.

(** The loop [for k in range(i + 1, min(i + 10, len(lines)))] that
    joins a parameter list continued on the next lines. *)
Fixpoint join_params (lines : list string) (ks : list nat)
         (full_params : string) : string :=
  match ks with
  | [] => full_params
  | k :: t =>
      let fp := full_params ++ " " ++ strip (at_ lines k) in
      if contains ")" (at_ lines k) then fp else join_params lines t fp
  end.

(** [[p.strip() for p in s.split(',') if p.strip()]] *)
Definition param_list_of (s : string) : list string :=
  map strip (filter (fun p => nonempty (strip p)) (split "," s)).

Definition long_methods_at (lines : list string) (i : nat) (line : string)
  : list CodeIssue :=
  let stripped := strip line in
  match search true re_method_sig stripped with
  | None => []
  | Some method_match =>
      let method_name := grp 1 method_match in
      let params_str := grp 2 method_match in
      let method_start := i in
      let method_end :=
        find_method_end (skipn i lines) i 0%Z false i in
      let method_length := method_end - method_start + 1 in
      let method_signature :=
        if negb (contains ")" stripped) && (i + 1 <? List.length lines)
        then stripped ++ " " ++ strip (at_ lines (i + 1))
        else stripped in
      (if 20 <? method_length
       then [mkIssue "long_method" "warning"
                     ("长方法 '" ++ method_name ++ "' ("
                      ++ str_nat method_length ++ " 行，第"
                      ++ str_nat (method_start + 1) ++ "-"
                      ++ str_nat (method_end + 1) ++ "行)")
                     (method_start + 1)
                     method_signature
                     (map rstrip
                          (slice_lines lines method_start
                             (Nat.min (method_start + 10) (List.length lines))))]
       else [])
      ++
      (if nonempty (strip params_str)
       then
         let full_params :=
           if negb (contains ")" line) && (i + 1 <? List.length lines)
           then join_params lines
                  (range (i + 1) (Nat.min (i + 10) (List.length lines)))
                  params_str
           else params_str in
         let full_params := sub_del false re_after_paren full_params in
         let param_list := param_list_of full_params in
         if 4 <? List.length param_list
         then [mkIssue "long_parameter_list" "warning"
                       ("方法 '" ++ method_name ++ "' 参数过多 ("
                        ++ str_nat (List.length param_list) ++ " 个参数)")
                       (method_start + 1)
                       method_signature [method_signature]]
         else []
       else [])
  end.

Definition _find_long_methods (lines : list string) : list CodeIssue :=
  flat_map (fun il => long_methods_at lines (fst il) (snd il))
           (enumerate lines).

(** *** 2. [_find_complex_methods] *)

Record cm_state : Type := CM {
  in_method : bool;
  cm_method_start : nat;
  cm_method_name : string;
  max_nesting : nat;
  current_nesting : nat;
  cm_issues : list CodeIssue
}.

Definition cm_init : cm_state := CM false 0 EmptyString 0 0 [].

(** One iteration of the loop body. *)
Definition cm_step (lines : list string) (st : cm_state)
           (il : nat * string) : cm_state :=
  let '(i, line) := il in
  let stripped := strip line in
  let method_match := search true re_method_open stripped in
  let st1 :=
    match method_match with
    | Some m =>
        if negb (in_method st)
        then CM true i (grp 1 m) 0 0 (cm_issues st)
        else st
    | None => st
    end in
  if in_method st1 then
    let st2 :=
      if matches true re_branch stripped
      then CM true (cm_method_start st1) (cm_method_name st1)
              (Nat.max (max_nesting st1) (current_nesting st1 + 1))
              (current_nesting st1 + 1) (cm_issues st1)
      else st1 in
    let st3 :=
      if startswith "}" stripped
      then CM true (cm_method_start st2) (cm_method_name st2)
              (max_nesting st2)
              (Nat.max 0 (current_nesting st2 - 1)) (cm_issues st2)
      else st2 in
    if startswith "}" stripped && (current_nesting st3 =? 0)
    then
      let method_start := cm_method_start st3 in
      CM false method_start (cm_method_name st3) (max_nesting st3)
         (current_nesting st3)
         (cm_issues st3 ++
          (if 4 <? max_nesting st3
           then [mkIssue "complex_method" "error"
                         ("方法 '" ++ cm_method_name st3
                          ++ "' 嵌套过深 (最大嵌套层次: "
                          ++ str_nat (max_nesting st3) ++ ")")
                         (method_start + 1)
                         (strip (at_ lines method_start))
                         (map rstrip
                              (slice_lines lines method_start
                                 (Nat.min (method_start + 10)
                                          (List.length lines))))]
           else []))
    else st3
  else st1.

Definition _find_complex_methods (lines : list string) : list CodeIssue :=
  cm_issues (fold_left (cm_step lines) (enumerate lines) cm_init).

(** *** 3. [_find_long_parameter_lists] *)

Definition long_parameter_lists_at (i : nat) (line : string)
  : list CodeIssue :=
  match search true re_function_params line with
  | None => []
  | Some method_match =>
      let method_name := grp 1 method_match in
      let params_str := grp 2 method_match in
      if nonempty (strip params_str)
      then
        let params := param_list_of params_str in
        let param_count := List.length params in
        if 5 <? param_count
        then [mkIssue "long_parameter_list" "warning"
                      ("方法 '" ++ method_name ++ "' 参数过多 ("
                       ++ str_nat param_count ++ " 个参数)")
                      (i + 1) (strip line) [strip line]]
        else []
      else []
  end.

Definition _find_long_parameter_lists (lines : list string)
  : list CodeIssue :=
  flat_map (fun il => long_parameter_lists_at (fst il) (snd il))
           (enumerate lines).

(** *** 4. [_find_naming_issues] *)

Definition alnum : regex :=
  Cls false [IRange "a" "z"; IRange "A" "Z"; IRange "0" "9"].

(** class\s+(\w+) *)
Definition re_class_name : regex :=
  Seqs [Lit "class"; Plus s_; Grp 1 (Plus w_)].

(** ^[A-Z][a-zA-Z0-9]*$ *)
Definition re_pascal : regex :=
  Seqs [Bol; Cls false [IRange "A" "Z"]; Star alnum; Eol].

(** function\s+([a-zA-Z_][a-zA-Z0-9_]* ) *)
Definition re_method_name : regex :=
  Seqs [Lit "function"; Plus s_; Grp 1 (Seq ident_start (Star ident_char))].

(** ^[a-z][a-zA-Z0-9]*$ *)
Definition re_camel : regex :=
  Seqs [Bol; Cls false [IRange "a" "z"]; Star alnum; Eol].

(** \$([A-Z_][A-Z0-9_]* ) *)
Definition re_upper_var : regex :=
  Seq (Chr "$")
      (Grp 1 (Seq (Cls false [IRange "A" "Z"; IChar "_"])
                  (Star (Cls false [IRange "A" "Z"; IRange "0" "9"; IChar "_"])))).

(** The list in [if var_name not in [...]]. *)
Definition superglobals : list string :=
  ["GLOBALS"; "POST"; "GET"; "SESSION"; "COOKIE"; "SERVER"; "FILES"; "ENV"].

Definition mem (x : string) (l : list string) : bool :=
  existsb (String.eqb x) l.

Definition is_match (o : option mobj) : bool :=
  match o with Some _ => true | None => false end.

Definition naming_class_at (i : nat) (stripped : string) : list CodeIssue :=
  match search true re_class_name stripped with
  | Some class_match =>
      let class_name := grp 1 class_match in
      if negb (is_match (match_ false re_pascal class_name))
      then [mkIssue "naming_violation" "info"
                    ("类名违反PSR-1规范: '" ++ class_name ++ "'")
                    (i + 1) stripped [stripped]]
      else []
  | None => []
  end.

Definition naming_method_at (i : nat) (stripped : string) : list CodeIssue :=
  match search true re_method_name stripped with
  | Some method_match =>
      let method_name := grp 1 method_match in
      if negb (startswith "__" method_name)
         && negb (is_match (match_ false re_camel method_name))
      then [mkIssue "naming_violation" "info"
                    ("方法名违反PSR-1规范: '" ++ method_name ++ "'")
                    (i + 1) stripped [stripped]]
      else []
  | None => []
  end.

Definition naming_vars_at (i : nat) (line stripped : string)
  : list CodeIssue :=
  let var_matches := findall1 false re_upper_var line in
  flat_map (fun var_name =>
              if negb (mem var_name superglobals)
              then [mkIssue "naming_violation" "info"
                            ("变量名违反约定: '\$" ++ var_name ++ "'")
                            (i + 1) stripped [stripped]]
              else [])
           var_matches.

Definition naming_issues_at (i : nat) (line : string) : list CodeIssue :=
  let stripped := strip line in
  naming_class_at i stripped ++ naming_method_at i stripped
  ++ naming_vars_at i line stripped.

Definition _find_naming_issues (lines : list string) : list CodeIssue :=
  flat_map (fun il => naming_issues_at (fst il) (snd il)) (enumerate lines).

(** *** 5. [_find_uncommented_methods] *)

Definition visibility : regex := AltLits ["public"; "private"; "protected"].

(** (public|private|protected)\s+function\s+(\w+) *)
Definition re_visible_method : regex :=
  Seqs [Grp 1 visibility; Plus s_; Lit "function"; Plus s_; Grp 2 (Plus w_)].

Definition uncommented_at (lines : list string) (i : nat) (line : string)
  : list CodeIssue :=
  match search true re_visible_method line with
  | Some method_match =>
    let method_name := grp 2 method_match in
    let has_comment :=
      existsb (fun j => contains "//" (at_ lines j)
                        || contains "/*" (at_ lines j)
                        || contains "*" (at_ lines j))
              (range (Nat.max 0 (i - 3)) i) in
    if negb has_comment
    then [mkIssue "missing_documentation" "info"
                  ("方法 '" ++ method_name ++ "' 缺少文档注释")
                  (i + 1) (strip line) [strip line]]
    else []
  | None => []
  end.

Definition _find_uncommented_methods (lines : list string)
  : list CodeIssue :=
  flat_map (fun il => uncommented_at lines (fst il) (snd il))
           (enumerate lines).

(** *** 6. [_find_sql_injection_risks] *)

Definition dquote : ascii := "034"%char.
Definition squote : ascii := "039"%char.

Definition sql_verb : regex :=
  Grp 1 (AltLits ["SELECT"; "INSERT"; "UPDATE"; "DELETE"]).

(** The list [sql_patterns], in order:
    - (SELECT|INSERT|UPDATE|DELETE).*\$\w+
    - (SELECT|INSERT|UPDATE|DELETE).*\.\s*\$
    - (SELECT|INSERT|UPDATE|DELETE).*D.*\$.*D, with D the double quote
    - (SELECT|INSERT|UPDATE|DELETE).*\'.*\$.*\' *)
Definition sql_patterns : list regex :=
  [ Seqs [sql_verb; Star Dot; Chr "$"; Plus w_];
    Seqs [sql_verb; Star Dot; Chr "."; Star s_; Chr "$"];
    Seqs [sql_verb; Star Dot; Chr dquote; Star Dot; Chr "$"; Star Dot;
          Chr dquote];
    Seqs [sql_verb; Star Dot; Chr squote; Star Dot; Chr "$"; Star Dot;
          Chr squote] ].

(** (prepare|PDO::PARAM|bindParam|bindValue|\?) *)
Definition re_prepared : regex :=
  Grp 1 (AltLits ["prepare"; "PDO::PARAM"; "bindParam"; "bindValue"; "?"]).

(** [for pattern in sql_patterns: ...], with its [break] after the
    first report. *)
Fixpoint sql_loop (pats : list regex) (lines : list string) (i : nat)
         (stripped : string) : list CodeIssue :=
  match pats with
  | [] => []
  | pattern :: t =>
      if matches true pattern stripped then
        if negb (matches true re_prepared stripped) then
          let context_start := Nat.max 0 (i - 2) in
          let context_end := Nat.min (List.length lines) (i + 3) in
          [mkIssue "sql_injection_risk" "error"
                   ("第" ++ str_nat (i + 1)
                    ++ "行发现SQL注入风险: 直接拼接变量到SQL语句")
                   (i + 1) stripped
                   (map (fun j => rstrip (at_ lines j))
                        (range context_start context_end))]
        else sql_loop t lines i stripped
      else sql_loop t lines i stripped
  end.

Definition sql_injection_at (lines : list string) (i : nat) (line : string)
  : list CodeIssue :=
  sql_loop sql_patterns lines i (strip line).

Definition _find_sql_injection_risks (lines : list string)
  : list CodeIssue :=
  flat_map (fun il => sql_injection_at lines (fst il) (snd il))
           (enumerate lines).

(** *** 7. [_find_security_issues] *)

Definition line_no (i : nat) : string := "第" ++ str_nat (i + 1) ++ "行".

(** \$_(GET|POST|REQUEST|COOKIE)\[ *)
Definition re_user_input : regex :=
  Seqs [Lit "$_"; Grp 1 (AltLits ["GET"; "POST"; "REQUEST"; "COOKIE"]); Chr "["].

(** (filter_|htmlspecialchars|strip_tags|mysqli_real_escape_string) *)
Definition re_sanitized : regex :=
  Grp 1 (AltLits ["filter_"; "htmlspecialchars"; "strip_tags";
                  "mysqli_real_escape_string"]).

(** \$.*password.*=.*\$.*password *)
Definition re_password_assign : regex :=
  Seqs [Chr "$"; Star Dot; Lit "password"; Star Dot; Chr "="; Star Dot;
        Chr "$"; Star Dot; Lit "password"].

(** (password_hash|hash|crypt|bcrypt) *)
Definition re_hashed : regex :=
  Grp 1 (AltLits ["password_hash"; "hash"; "crypt"; "bcrypt"]).

Definition quote_char : regex := Cls false [IChar squote; IChar dquote].

(** new\s+PDO\(.*localhost.*root.*[\'D][0-9]+[\'D], with D the double
    quote *)
Definition re_hardcoded_pdo : regex :=
  Seqs [Lit "new"; Plus s_; Lit "PDO("; Star Dot; Lit "localhost"; Star Dot;
        Lit "root"; Star Dot; quote_char; Plus (Cls false [IRange "0" "9"]);
        quote_char].

(** (->query\(|->exec\(|mail\() *)
Definition re_fallible_call : regex :=
  Grp 1 (AltLits ["->query("; "->exec("; "mail("]).

(** (try|catch|if.*false|error) *)
Definition re_error_handling : regex :=
  Grp 1 (Alt (Lit "try")
             (Alt (Lit "catch")
                  (Alt (Seqs [Lit "if"; Star Dot; Lit "false"]) (Lit "error")))).

Definition security_at (lines : list string) (i : nat) (line : string)
  : list CodeIssue :=
  let stripped := strip line in
  (if matches false re_user_input stripped
      && negb (matches false re_sanitized stripped)
   then [mkIssue "xss_risk" "error"
                 (line_no i ++ "XSS风险: 直接使用用户输入")
                 (i + 1) stripped [stripped]]
   else [])
  ++
  (if matches true re_password_assign stripped
      && negb (matches true re_hashed stripped)
   then [mkIssue "password_security" "error"
                 (line_no i ++ "密码安全: 密码可能以明文存储")
                 (i + 1) stripped [stripped]]
   else [])
  ++
  (if matches false re_hardcoded_pdo stripped
   then [mkIssue "hardcoded_credentials" "warning"
                 (line_no i ++ "安全风险: 硬编码的数据库连接信息")
                 (i + 1) stripped [stripped]]
   else [])
  ++
  (if matches false re_fallible_call stripped then
     let has_error_handling :=
       existsb (fun j => matches true re_error_handling (at_ lines j))
               (range i (Nat.min (i + 3) (List.length lines))) in
     if negb has_error_handling
     then [mkIssue "missing_error_handling" "warning"
                   (line_no i ++ "缺少错误处理")
                   (i + 1) stripped [stripped]]
     else []
   else []).

Definition _find_security_issues (lines : list string) : list CodeIssue :=
  flat_map (fun il => security_at lines (fst il) (snd il)) (enumerate lines).

(** *** 8. [_find_code_quality_issues] *)

(** ^class\s+\w+ *)
Definition re_class_decl : regex :=
  Seqs [Bol; Lit "class"; Plus s_; Plus w_].

(** (/\*|\*|//) *)
Definition re_comment_mark : regex :=
  Grp 1 (AltLits ["/*"; "*"; "//"]).

(** public\s+\$\w+ *)
Definition re_public_property : regex :=
  Seqs [Lit "public"; Plus s_; Chr "$"; Plus w_].

(** function\s+\w+\([^)]*\$\w+[^)]*\) *)
Definition re_untyped_sig : regex :=
  Seqs [Lit "function"; Plus s_; Plus w_; Chr "("; Star not_rparen; Chr "$";
        Plus w_; Star not_rparen; Chr ")"].

(** (int|string|bool|array|object|\w+\s+\$) *)
Definition re_type_hint : regex :=
  Grp 1 (Alt (Lit "int")
             (Alt (Lit "string")
                  (Alt (Lit "bool")
                       (Alt (Lit "array")
                            (Alt (Lit "object")
                                 (Seqs [Plus w_; Plus s_; Chr "$"])))))).

(** ^\s*function\s+\w+ *)
Definition re_bare_function : regex :=
  Seqs [Bol; Star s_; Lit "function"; Plus s_; Plus w_].

(** ^\$\w+\s*= *)
Definition re_global_assign : regex :=
  Seqs [Bol; Chr "$"; Plus w_; Star s_; Chr "="].

Definition code_quality_at (lines : list string) (i : nat) (line : string)
  : list CodeIssue :=
  let stripped := strip line in
  (if matches false re_class_decl stripped then
     let has_comment :=
       existsb (fun j => matches false re_comment_mark (at_ lines j))
               (range (Nat.max 0 (i - 3)) i) in
     if negb has_comment
     then [mkIssue "missing_class_comment" "info"
                   (line_no i ++ "缺少类注释") (i + 1) stripped [stripped]]
     else []
   else [])
  ++
  (if matches false re_public_property stripped
   then [mkIssue "public_property" "warning"
                 (line_no i ++ "违反封装原则: public属性")
                 (i + 1) stripped [stripped]]
   else [])
  ++
  (if matches false re_untyped_sig stripped
      && negb (matches false re_type_hint stripped)
   then [mkIssue "missing_type_declaration" "info"
                 (line_no i ++ "缺少参数类型声明")
                 (i + 1) stripped [stripped]]
   else [])
  ++
  (if matches false re_bare_function stripped
      && negb (matches false visibility stripped)
   then [mkIssue "missing_access_modifier" "warning"
                 (line_no i ++ "缺少访问修饰符")
                 (i + 1) stripped [stripped]]
   else [])
  ++
  (if matches false re_global_assign stripped
   then [mkIssue "global_variable" "warning"
                 (line_no i ++ "使用全局变量") (i + 1) stripped [stripped]]
   else []).

Definition _find_code_quality_issues (lines : list string)
  : list CodeIssue :=
  flat_map (fun il => code_quality_at lines (fst il) (snd il))
           (enumerate lines).

(** *** 9. [_find_logic_errors] *)

(** while\s*\(\s*(true|1|TRUE)\s*\) *)
Definition re_while_true : regex :=
  Seqs [Lit "while"; Star s_; Chr "("; Star s_;
        Grp 1 (AltLits ["true"; "1"; "TRUE"]); Star s_; Chr ")"].

Definition not_semi : regex := Cls true [IChar ";"].

(** for\s*\(\s*[^;]*;\s*[^;]*;\s*[^)]*\) *)
Definition re_for_header : regex :=
  Seqs [Lit "for"; Star s_; Chr "("; Star s_; Star not_semi; Chr ";";
        Star s_; Star not_semi; Chr ";"; Star s_; Star not_rparen; Chr ")"].

(** for\s*\(\s*\$\w+\s*=\s*\d+\s*;\s*\$\w+\s*[<>]=?\s*\d+\s*;\s*\) *)
Definition re_for_no_step : regex :=
  Seqs [Lit "for"; Star s_; Chr "("; Star s_; Chr "$"; Plus w_; Star s_;
        Chr "="; Star s_; Plus d_; Star s_; Chr ";"; Star s_; Chr "$";
        Plus w_; Star s_; Cls false [IChar "<"; IChar ">"]; Opt (Chr "=");
        Star s_; Plus d_; Star s_; Chr ";"; Star s_; Chr ")"].

(** function\s+(\w+) *)
Definition re_function_name : regex :=
  Seqs [Lit "function"; Plus s_; Grp 1 (Plus w_)].

(** (if|return|break|\$\w+\s*[<>]=?) *)
Definition re_termination : regex :=
  Grp 1 (Alt (Lit "if")
             (Alt (Lit "return")
                  (Alt (Lit "break")
                       (Seqs [Chr "$"; Plus w_; Star s_;
                              Cls false [IChar "<"; IChar ">"];
                              Opt (Chr "=")])))).

(** catch\s*\([^)]*\)\s*\{?\s*\}? *)
Definition re_catch : regex :=
  Seqs [Lit "catch"; Star s_; Chr "("; Star not_rparen; Chr ")"; Star s_;
        Opt (Chr "{"); Star s_; Opt (Chr "}")].

(** while\s*\([^)]*\) *)
Definition re_while_header : regex :=
  Seqs [Lit "while"; Star s_; Chr "("; Star not_rparen; Chr ")"].

(** /\s*\$\w+ *)
Definition re_divide_by_var : regex :=
  Seqs [Chr "/"; Star s_; Chr "$"; Plus w_].

(** \$\w+\[\$\w+\] *)
Definition re_index_by_var : regex :=
  Seqs [Chr "$"; Plus w_; Lit "[$"; Plus w_; Chr "]"].

(** (fopen|file_get_contents|include|require)\( *)
Definition re_file_call : regex :=
  Seqs [Grp 1 (AltLits ["fopen"; "file_get_contents"; "include"; "require"]);
        Chr "("].

(** (file_exists|is_readable|@) *)
Definition re_file_guard : regex :=
  Grp 1 (AltLits ["file_exists"; "is_readable"; "@"]).

(** The brace bookkeeping shared by the two look-ahead loops:
    [if '{' in l: ... elif found_opening_brace: ...]. *)
Definition brace_update (l : string) (found_opening_brace : bool)
           (brace_count : Z) : bool * Z :=
  if contains "{" l
  then (true, (brace_count + zcount "{" l - zcount "}" l)%Z)
  else if found_opening_brace
       then (found_opening_brace,
             (brace_count + zcount "{" l - zcount "}" l)%Z)
       else (found_opening_brace, brace_count).

(** [for j in range(i, min(i + 50, len(lines)))] of the endless-loop
    check; the result is [has_break]. *)
Fixpoint loop_has_break (window : list string) (brace_count : Z)
         (found_opening_brace has_break : bool) : bool :=
  match window with
  | [] => has_break
  | l :: t =>
      let loop_line := strip l in
      let '(found, bc) := brace_update loop_line found_opening_brace
                                       brace_count in
      let hb := has_break
                || (contains "break" loop_line || contains "return" loop_line
                    || contains "exit" loop_line) in
      if found && (bc =? 0)%Z then hb
      else loop_has_break t bc found hb
  end.

(** [for j in range(i, min(i + 100, len(lines)))] of the recursion
    check; the result is [(has_self_call, has_termination)]. *)
Fixpoint recursion_scan (function_name : string) (window : list string)
         (brace_count : Z) (found_opening_brace has_termination
                            has_self_call : bool) : bool * bool :=
  match window with
  | [] => (has_self_call, has_termination)
  | l :: t =>
      let func_line := strip l in
      let '(found, bc) := brace_update func_line found_opening_brace
                                       brace_count in
      let sc := has_self_call
                || (found && contains (function_name ++ "(") func_line) in
      let ht := has_termination || matches false re_termination func_line in
      if found && (bc =? 0)%Z then (sc, ht)
      else recursion_scan function_name t bc found ht sc
  end.

(** The first index of [js] at which [f] holds. *)
Definition first_where (f : nat -> bool) (js : list nat) : option nat :=
  find f js.

(** The eight checks of the loop body, in source order. *)

Definition endless_while_at (lines : list string) (i : nat)
           (stripped : string) : list CodeIssue :=
  if matches false re_while_true stripped then
    let has_break :=
      loop_has_break
        (slice_lines lines i (Nat.min (i + 50) (List.length lines)))
        0%Z false false in
    if negb has_break
    then [mkIssue "infinite_loop_risk" "error"
                  (line_no i ++ "发现潜在的死循环: while(true)无exit条件")
                  (i + 1) stripped [stripped]]
    else []
  else [].

Definition for_without_step_at (i : nat) (stripped : string)
  : list CodeIssue :=
  if matches false re_for_header stripped
     && matches false re_for_no_step stripped
  then [mkIssue "infinite_loop_risk" "error"
                (line_no i ++ "for循环缺少递增/递减语句")
                (i + 1) stripped [stripped]]
  else [].

Definition recursion_at (lines : list string) (i : nat) (stripped : string)
  : list CodeIssue :=
  match search false re_function_name stripped with
  | Some m =>
      let function_name := grp 1 m in
      let '(has_self_call, has_termination) :=
        recursion_scan function_name
          (slice_lines lines i (Nat.min (i + 100) (List.length lines)))
          0%Z false false false in
      if has_self_call && negb has_termination
      then [mkIssue "infinite_recursion_risk" "error"
                    (line_no i ++ "函数'" ++ function_name
                     ++ "'可能存在无限递归")
                    (i + 1) stripped [stripped]]
      else []
  | None => []
  end.

Definition empty_catch_at (lines : list string) (i : nat)
           (stripped : string) : list CodeIssue :=
  if matches false re_catch stripped
     && ((i + 1 <? List.length lines)
         && String.eqb (strip (at_ lines (i + 1))) "}")
  then [mkIssue "empty_catch_block" "error"
                (line_no i ++ "空的catch块: 忽略异常是危险的")
                (i + 1) stripped [stripped]]
  else [].

Definition memory_leak_at (lines : list string) (i : nat)
           (stripped : string) : list CodeIssue :=
  if matches false re_while_header stripped then
    match first_where (fun j => contains "new " (at_ lines j)
                                && negb (contains "unset" (at_ lines j)))
                      (range (i + 1) (Nat.min (i + 20) (List.length lines)))
    with
    | Some j =>
        [mkIssue "memory_leak_risk" "warning"
                 (line_no j ++ "循环内创建对象可能导致内存泄漏")
                 (j + 1) (strip (at_ lines j)) [strip (at_ lines j)]]
    | None => []
    end
  else [].

Definition division_at (i : nat) (stripped : string) : list CodeIssue :=
  if matches false re_divide_by_var stripped
     && negb (contains "if" stripped)
  then [mkIssue "division_by_zero_risk" "warning"
                (line_no i ++ "可能的除零错误") (i + 1) stripped [stripped]]
  else [].

Definition array_bounds_at (i : nat) (stripped : string) : list CodeIssue :=
  if matches false re_index_by_var stripped
     && negb (contains "isset" stripped)
     && negb (contains "array_key_exists" stripped)
  then [mkIssue "array_bounds_risk" "warning"
                (line_no i ++ "可能的数组越界访问")
                (i + 1) stripped [stripped]]
  else [].

Definition file_operation_at (i : nat) (stripped : string)
  : list CodeIssue :=
  if matches false re_file_call stripped
     && negb (matches false re_file_guard stripped)
  then [mkIssue "file_operation_risk" "warning"
                (line_no i ++ "文件操作缺少存在性检查")
                (i + 1) stripped [stripped]]
  else [].

Definition logic_errors_at (lines : list string) (i : nat) (line : string)
  : list CodeIssue :=
  let stripped := strip line in
  endless_while_at lines i stripped
  ++ for_without_step_at i stripped
  ++ recursion_at lines i stripped
  ++ empty_catch_at lines i stripped
  ++ memory_leak_at lines i stripped
  ++ division_at i stripped
  ++ array_bounds_at i stripped
  ++ file_operation_at i stripped.

Definition _find_logic_errors (lines : list string) : list CodeIssue :=
  flat_map (fun il => logic_errors_at lines (fst il) (snd il))
           (enumerate lines).

(** *** 10. [_find_performance_issues] *)

(** (for|while|foreach)\s*\( *)
Definition re_loop_header : regex :=
  Seqs [Grp 1 (AltLits ["for"; "while"; "foreach"]); Star s_; Chr "("].

(** (->query\(|->prepare\(|mysql_|mysqli_) *)
Definition re_db_call : regex :=
  Grp 1 (AltLits ["->query("; "->prepare("; "mysql_"; "mysqli_"]).

(** file_get_contents\( *)
Definition re_file_get_contents : regex := Lit "file_get_contents(".

(** \$\w+\s*\.= *)
Definition re_concat_assign : regex :=
  Seqs [Chr "$"; Plus w_; Star s_; Lit ".="].

(** preg_(match|replace)\( *)
Definition re_preg : regex :=
  Seqs [Lit "preg_"; Grp 1 (AltLits ["match"; "replace"]); Chr "("].

(** count\(\$\w+\) *)
Definition re_count_call : regex :=
  Seqs [Lit "count($"; Plus w_; Chr ")"].

(** A look-ahead loop that reports the first line of [range(i + 1,
    min(i + n, len(lines)))] matching [r], then breaks. *)
Definition first_in_loop (lines : list string) (i n : nat) (r : regex)
           (ty sev msg : string) : list CodeIssue :=
  match first_where (fun j => matches false r (at_ lines j))
                    (range (i + 1) (Nat.min (i + n) (List.length lines))) with
  | Some j => [mkIssue ty sev (line_no j ++ msg) (j + 1)
                       (strip (at_ lines j)) [strip (at_ lines j)]]
  | None => []
  end.

Definition performance_at (lines : list string) (i : nat) (line : string)
  : list CodeIssue :=
  let stripped := strip line in
  (if matches false re_loop_header stripped
   then first_in_loop lines i 30 re_db_call "query_in_loop" "error"
                      "在循环内执行数据库查询 (N+1问题)"
   else [])
  ++
  (if matches false re_file_get_contents stripped
   then [mkIssue "large_file_read_risk" "warning"
                 (line_no i ++ "使用file_get_contents可能导致内存问题")
                 (i + 1) stripped [stripped]]
   else [])
  ++
  (if matches false re_loop_header stripped
   then first_in_loop lines i 20 re_concat_assign "string_concat_in_loop"
                      "warning" "循环内字符串连接影响性能"
   else [])
  ++
  (if matches false re_loop_header stripped
   then first_in_loop lines i 20 re_preg "regex_compile_in_loop" "info"
                      "循环内编译正则表达式"
   else [])
  ++
  (if matches false re_count_call stripped && contains "for" stripped
   then [mkIssue "redundant_function_call" "info"
                 (line_no i ++ "循环条件中调用count()影响性能")
                 (i + 1) stripped [stripped]]
   else []).

Definition _find_performance_issues (lines : list string)
  : list CodeIssue :=
  flat_map (fun il => performance_at lines (fst il) (snd il))
           (enumerate lines).

(** *** The scan

    [_detect_detailed_issues] after [f.readlines()]: the ten passes in
    their fixed order.  No pass raises, so the [except] branch is only
    reached when the file cannot be read. *)
Definition scan_lines (lines : list string) : list CodeIssue :=
  _find_long_methods lines
  ++ _find_complex_methods lines
  ++ _find_long_parameter_lists lines
  ++ _find_naming_issues lines
  ++ _find_uncommented_methods lines
  ++ _find_sql_injection_risks lines
  ++ _find_security_issues lines
  ++ _find_code_quality_issues lines
  ++ _find_logic_errors lines
  ++ _find_performance_issues lines.

(** [readable] is [None] when opening or reading the file raises. *)
Definition _detect_detailed_issues (readable : option (list string))
  : list CodeIssue :=
  match readable with
  | Some lines => scan_lines lines
  | None => []
  end.

End Detector.

(** ** [php_parser.py] *)

Module Parser.
Import PyStr Re.

(** The dictionaries of a parse result. *)
Record FunctionInfo : Type := mkFunction {
  fn_name : string;
  parameters : nat;
  fn_complexity : nat
}.

Record ClassInfo : Type := mkClass {
  name : string;
  extends : option string;
  implements : list string;
  methods : list FunctionInfo;
  properties : nat
}.

Record ParseResult : Type := mkParse {
  classes : list ClassInfo;
  functions : list FunctionInfo;
  complexity : nat;
  lines : nat;
  tokens_count : nat;
  variables : list string;
  includes : list string
}.

(** *** [_simple_parse] on the text of the file *)

(** class\s+(\w+)(?:\s+extends\s+(\w+))?(?:\s+implements\s+([^{]+))? *)
Definition class_pattern : regex :=
  Seqs [Lit "class"; Plus s_; Grp 1 (Plus w_);
        Opt (Seqs [Plus s_; Lit "extends"; Plus s_; Grp 2 (Plus w_)]);
        Opt (Seqs [Plus s_; Lit "implements"; Plus s_;
                   Grp 3 (Plus (Cls true [IChar "{"]))])].

(** function\s+(\w+)\s*\([^)]* \) *)
Definition function_pattern : regex :=
  Seqs [Lit "function"; Plus s_; Grp 1 (Plus w_); Star s_; Chr "(";
        Star (Cls true [IChar ")"]); Chr ")"].

Definition complexity_keywords : list string :=
  ["if"; "elseif"; "else"; "while"; "for"; "foreach"; "switch"; "case";
   "catch"].

(** \$\w+ *)
Definition variable_pattern : regex := Seq (Chr "$") (Plus w_).

Definition class_of_match (m : mobj) : ClassInfo :=
  mkClass (match group 1 m with Some g => g | None => EmptyString end)
          (group 2 m)
          (match group 3 m with
           | Some g => if String.eqb g EmptyString then [] else split "," g
           | None => []
           end)
          [] 0.

Definition function_of_match (content : string) (m : mobj) : FunctionInfo :=
  let text := slice content (m_start m) (m_end m) in
  mkFunction (match group 1 m with Some g => g | None => EmptyString end)
             (count "," text
              + (if contains "(" text && contains ")" text then 1 else 0))
             1.

Definition simple_parse_text (O : SetOrder) (content : string)
  : ParseResult :=
  mkParse
    (map class_of_match (finditer true class_pattern content))
    (map (function_of_match content) (finditer true function_pattern content))
    (fold_left
       (fun complexity keyword =>
          complexity
          + List.length (finditer true (Seqs [WordB; Lit keyword; WordB]) content))
       complexity_keywords 1)
    (count newline content + 1)
    (count_words false content)
    (set_list O
       (map (fun m => slice content (m_start m) (m_end m))
            (finditer false variable_pattern content)))
    [].

(** *** The world around [parse_file] *)

(** The exceptions by class.  [OtherError c] is an exception of a class
    [c] that is none of the six named here and that the handler of
    [parse_file] does not list: another [OSError], a
    [UnicodeDecodeError], a [ValueError]. *)
Inductive exn : Type :=
| FileNotFoundError
| PermissionError
| IsADirectoryError
| TimeoutExpired
| CalledProcessError
| JSONDecodeError
| OtherError (class_name : string).

Inductive result (A : Type) : Type :=
| Return (a : A)
| Raise (e : exn).
Arguments Return {A} a.
Arguments Raise {A} e.

(** What [open(path)] meets: no such file; a path that exists and on
    which [open] raises [e] ([PermissionError] without the right to read
    it, [IsADirectoryError] on a directory, another [OSError]); a file
    with its text. *)
Inductive file_state : Type :=
| Missing
| Unreadable (e : exn)
| Readable (content : string).

(** What [subprocess.run(['php', ...], timeout=30)] meets: no [php] on
    the path ([FileNotFoundError]); a run that passes its 30 seconds
    ([TimeoutExpired]); any other exception [e] raised by the call
    ([PermissionError] when [php] is found and cannot be executed,
    another [OSError], a [UnicodeDecodeError] for output that is not
    text); a run that completes. *)
Inductive php_status : Type :=
| NotInstalled
| TimesOut
| Fails (e : exn)
| Completes.

(** [tokenizer] is the tokenizer script on an existing file (its text,
    or [None] when the script cannot read it): a return code and the
    standard output.  [json_loads] is [json.loads], [None] for a
    [JSONDecodeError]. *)
Record world : Type := mkWorld {
  file : string -> file_state;
  php : string -> php_status;
  tokenizer : option string -> Z * string;
  json_loads : string -> option ParseResult
}.

(** The script leaves with code 1 when [file_exists] fails. *)
Definition subprocess_run (w : world) (file_path : string)
  : result (Z * string) :=
  match php w file_path with
  | NotInstalled => Raise FileNotFoundError
  | TimesOut => Raise TimeoutExpired
  | Fails e => Raise e
  | Completes =>
      match file w file_path with
      | Missing => Return (1%Z, "{error: File not found}")
      | Unreadable _ => Return (tokenizer w None)
      | Readable content => Return (tokenizer w (Some content))
      end
  end.

(** [open(file_path, 'r', encoding='utf-8', errors='ignore').read()] *)
Definition read_file (w : world) (file_path : string) : result string :=
  match file w file_path with
  | Missing => Raise FileNotFoundError
  | Unreadable e => Raise e
  | Readable content => Return content
  end.

Definition _simple_parse (O : SetOrder) (w : world) (file_path : string)
  : result ParseResult :=
  match read_file w file_path with
  | Return content => Return (simple_parse_text O content)
  | Raise e => Raise e
  end.

(** The handler [except (subprocess.TimeoutExpired,
    subprocess.CalledProcessError, json.JSONDecodeError,
    FileNotFoundError)]. *)
Definition caught (e : exn) : bool :=
  match e with
  | TimeoutExpired | CalledProcessError | JSONDecodeError
  | FileNotFoundError => true
  | PermissionError | IsADirectoryError | OtherError _ => false
  end.

(** The [try] block of [parse_file]. *)
Definition parse_file_try (O : SetOrder) (w : world) (file_path : string)
  : result ParseResult :=
  match subprocess_run w file_path with
  | Raise e => Raise e
  | Return (returncode, stdout) =>
      if negb (returncode =? 0)%Z
      then _simple_parse O w file_path
      else match json_loads w stdout with
           | Some r => Return r
           | None => Raise JSONDecodeError
           end
  end.

Definition parse_file (O : SetOrder) (w : world) (file_path : string)
  : result ParseResult :=
  match parse_file_try O w file_path with
  | Return r => Return r
  | Raise e =>
      if caught e then _simple_parse O w file_path else Raise e
  end.

End Parser.

(** ** [feature_extractor.py] *)

Module Extractor.
Import PyStr Parser.

Record CodeFeatures : Type := mkFeatures {
  lines_of_code : Z;
  cyclomatic_complexity : Z;
  number_of_classes : Z;
  number_of_functions : Z;
  number_of_methods : Z;
  number_of_variables : Z;
  avg_method_complexity : Q;
  max_method_complexity : Z;
  avg_method_parameters : Q;
  max_method_parameters : Z;
  avg_method_length : Q;
  max_method_length : Z;
  avg_class_methods : Q;
  max_class_methods : Z;
  avg_class_properties : Q;
  max_class_properties : Z;
  inheritance_depth : Z;
  long_method_count : Z;
  long_class_count : Z;
  large_parameter_list_count : Z;
  complex_method_count : Z;
  naming_convention_violations : Z;
  comment_ratio : Q
}.

(** *** [_calculate_inheritance_depth] *)

(** [while current_extends:] holds for a non-empty string. *)
Definition truthy (current_extends : option string) : option string :=
  match current_extends with
  | Some e => if String.eqb e EmptyString then None else Some e
  | None => None
  end.

(** [for other_cls in classes: if other_cls.get('name') ==
    current_extends: ... break] *)
Definition lookup_class (classes : list ClassInfo) (e : string)
  : option ClassInfo :=
  find (fun other_cls => String.eqb (name other_cls) e) classes.

(** The state of the [while] loop: still looping with [depth] and
    [current_extends], or left with the final [depth]. *)
Inductive loop_state : Type :=
| Looping (depth : nat) (current_extends : option string)
| Left (depth : nat).

(** The loop test and one run of the body. *)
Definition while_step (classes : list ClassInfo) (st : loop_state)
  : loop_state :=
  match st with
  | Left depth => Left depth
  | Looping depth current_extends =>
      match truthy current_extends with
      | None => Left depth
      | Some e =>
          match lookup_class classes e with
          | Some other_cls => Looping (depth + 1) (extends other_cls)
          | None => Left (depth + 1)
          end
      end
  end.

(** At most [fuel] steps of the loop; [None] when it is still looping
    after them. *)
Fixpoint while_loop (fuel : nat) (classes : list ClassInfo)
         (st : loop_state) : option nat :=
  match st with
  | Left depth => Some depth
  | Looping _ _ =>
      match fuel with
      | O => None
      | S fuel' => while_loop fuel' classes (while_step classes st)
      end
  end.

(** The outer [for cls in classes] over [todo], with [fuel] steps for
    each inner loop. *)
Fixpoint depth_loop (fuel : nat) (classes todo : list ClassInfo)
         (max_depth : nat) : option nat :=
  match todo with
  | [] => Some max_depth
  | cls :: t =>
      match while_loop fuel classes (Looping 1 (extends cls)) with
      | Some depth => depth_loop fuel classes t (Nat.max max_depth depth)
      | None => None
      end
  end.

Definition _calculate_inheritance_depth (fuel : nat)
           (classes : list ClassInfo) : option nat :=
  depth_loop fuel classes classes 0.

Import Re.

(** *** [_estimate_method_length] and [_estimate_class_length] *)

(** The case partner of a letter between 192 and 254, for
    [re.IGNORECASE]; the other code points from 128 on have none below
    256. *)
Definition case_partner (c : ascii) : ascii :=
  let n := nat_of_ascii c in
  if (192 <=? n) && (n <=? 222) && negb (n =? 215) then ascii_of_nat (n + 32)
  else if (224 <=? n) && (n <=? 254) && negb (n =? 247)
       then ascii_of_nat (n - 32)
       else c.

(** [re.escape(name)] as a pattern: the characters of [name], each for
    itself. *)
Definition escaped_char (c : ascii) : regex :=
  if nat_of_ascii c <? 128 then Chr c
  else Cls false [IChar c; IChar (case_partner c)].

Fixpoint escape (name : string) : regex :=
  match name with
  | EmptyString => Eps
  | String c EmptyString => escaped_char c
  | String c t => Seq (escaped_char c) (escape t)
  end.

(** function\s+NAME\s*\([^)]* \)\s*\{ *)
Definition method_decl (method_name : string) : regex :=
  Seqs [Lit "function"; Plus s_; escape method_name; Star s_; Chr "(";
        Star (Cls true [IChar ")"]); Chr ")"; Star s_; Chr "{"].

(** class\s+NAME(?:\s+extends\s+\w+)?(?:\s+implements\s+[^{]+)?\s*\{ *)
Definition class_decl (class_name : string) : regex :=
  Seqs [Lit "class"; Plus s_; escape class_name;
        Opt (Seqs [Plus s_; Lit "extends"; Plus s_; Plus w_]);
        Opt (Seqs [Plus s_; Lit "implements"; Plus s_;
                   Plus (Cls true [IChar "{"])]);
        Star s_; Chr "{"].

(** [while current_pos < len(content) and brace_count > 0], on
    [content[current_pos:]]; the result is [(current_pos, brace_count)]
    after the loop. *)
Fixpoint brace_walk (ahead : list ascii) (current_pos : nat) (brace_count : Z)
  : nat * Z :=
  match ahead with
  | [] => (current_pos, brace_count)
  | c :: t =>
      if (0 <? brace_count)%Z
      then brace_walk t (S current_pos)
             (if Ascii.eqb c "{" then brace_count + 1
              else if Ascii.eqb c "}" then brace_count - 1
                   else brace_count)%Z
      else (current_pos, brace_count)
  end.

(** What the two functions do once the pattern is built: the number of
    lines between the brace that ends the first match and the brace
    that closes it. *)
Definition block_length (pattern : regex) (content : string) : nat :=
  match search true pattern content with
  | None => 0
  | Some m =>
      let start_pos := m_end m in
      let '(current_pos, brace_count) :=
        brace_walk (skipn start_pos (list_ascii_of_string content))
                   start_pos 1%Z in
      if (brace_count =? 0)%Z
      then count newline (slice content start_pos (current_pos - 1)) + 1
      else 0
  end.

Definition _estimate_method_length (content method_name : string) : nat :=
  if String.eqb method_name EmptyString then 0
  else block_length (method_decl method_name) content.

Definition _estimate_class_length (content class_name : string) : nat :=
  if String.eqb class_name EmptyString then 0
  else block_length (class_decl class_name) content.

(** *** [_check_naming_conventions] *)

(** ^\$[a-z][a-zA-Z0-9_]*$ *)
Definition re_variable_name : regex :=
  Seqs [Bol; Chr "$"; Cls false [IRange "a" "z"];
        Star (Cls false [IRange "a" "z"; IRange "A" "Z"; IRange "0" "9";
                         IChar "_"]);
        Eol].

(** [all_methods]: the methods of every class, then the functions. *)
Definition all_methods (parse_result : ParseResult) : list FunctionInfo :=
  (flat_map methods (classes parse_result) ++ functions parse_result)%list.

Definition conforms (r : regex) (s : string) : bool :=
  match match_ false r s with Some _ => true | None => false end.

Definition _check_naming_conventions (parse_result : ParseResult) : nat :=
  List.length
    (filter (fun cls => negb (conforms Detector.re_pascal (name cls)))
            (classes parse_result))
  + List.length
      (filter (fun method =>
                 negb (startswith "__" (fn_name method))
                 && negb (conforms Detector.re_camel (fn_name method)))
              (all_methods parse_result))
  + List.length
      (filter (fun var => negb (conforms re_variable_name var))
              (variables parse_result)).

(** *** [_calculate_comment_ratio] *)

(** The loop over the lines; the result is [comment_lines]. *)
Fixpoint comment_loop (lines : list string) (in_block_comment : bool)
         (comment_lines : nat) : nat :=
  match lines with
  | [] => comment_lines
  | line :: t =>
      let stripped := strip line in
      let in_block := in_block_comment || contains "/*" stripped in
      if contains "*/" stripped
      then comment_loop t false (comment_lines + 1)
      else if in_block
           then comment_loop t in_block (comment_lines + 1)
           else if startswith "//" stripped || startswith "#" stripped
                then comment_loop t in_block (comment_lines + 1)
                else comment_loop t in_block comment_lines
  end.

Definition _calculate_comment_ratio (content : string) : Q :=
  let lines := split newline content in
  let total_lines := List.length lines in
  if 0 <? total_lines
  then Z.of_nat (comment_loop lines false 0) # Pos.of_nat total_lines
  else 0.

(** *** [extract_features] *)

(** [np.mean(l) if l else 0] *)
Definition mean (l : list nat) : Q :=
  match l with
  | [] => 0
  | _ :: _ => Z.of_nat (list_sum l) # Pos.of_nat (List.length l)
  end.

(** [max(l) if l else 0] *)
Definition maximum (l : list nat) : nat := fold_right Nat.max 0 l.

(** [sum(1 for x in l if p(x))] *)
Definition count_if {A : Type} (p : A -> bool) (l : list A) : Z :=
  Z.of_nat (List.length (filter p l)).

(** The thresholds [long_method_lines], [long_class_lines],
    [large_parameter_count] and [complex_method_complexity]. *)
Definition long_method_lines : nat := 50.
Definition long_class_lines : nat := 500.
Definition large_parameter_count : nat := 5.
Definition complex_method_complexity : nat := 10.

(** The record that [extract_features] builds from the parse result,
    the text of the file and the inheritance depth. *)
Definition features_of (parse_result : ParseResult) (content : string)
           (depth : nat) : CodeFeatures :=
  let methods_ := all_methods parse_result in
  let method_complexities := map fn_complexity methods_ in
  let method_parameters := map parameters methods_ in
  let method_lengths :=
    map (fun m => _estimate_method_length content (fn_name m)) methods_ in
  let class_method_counts :=
    map (fun cls => List.length (methods cls)) (classes parse_result) in
  let class_property_counts := map properties (classes parse_result) in
  mkFeatures
    (Z.of_nat (lines parse_result))
    (Z.of_nat (complexity parse_result))
    (Z.of_nat (List.length (classes parse_result)))
    (Z.of_nat (List.length (functions parse_result)))
    (Z.of_nat (List.length methods_))
    (Z.of_nat (List.length (variables parse_result)))
    (mean method_complexities)
    (Z.of_nat (maximum method_complexities))
    (mean method_parameters)
    (Z.of_nat (maximum method_parameters))
    (mean method_lengths)
    (Z.of_nat (maximum method_lengths))
    (mean class_method_counts)
    (Z.of_nat (maximum class_method_counts))
    (mean class_property_counts)
    (Z.of_nat (maximum class_property_counts))
    (Z.of_nat depth)
    (count_if (fun length => long_method_lines <? length) method_lengths)
    (count_if (fun cls => long_class_lines
                          <? _estimate_class_length content (name cls))
              (classes parse_result))
    (count_if (fun params => large_parameter_count <? params)
              method_parameters)
    (count_if (fun complexity => complex_method_complexity <? complexity)
              method_complexities)
    (Z.of_nat (_check_naming_conventions parse_result))
    (_calculate_comment_ratio content).

(** [None] when the loop of [_calculate_inheritance_depth] is still
    running after [fuel] steps. *)
Definition extract_features (fuel : nat) (O : SetOrder) (w : world)
           (file_path : string) : option (result CodeFeatures) :=
  match parse_file O w file_path with
  | Raise e => Some (Raise e)
  | Return parse_result =>
      match read_file w file_path with
      | Raise e => Some (Raise e)
      | Return content =>
          match _calculate_inheritance_depth fuel (classes parse_result) with
          | None => None
          | Some depth =>
              Some (Return (features_of parse_result content depth))
          end
      end
  end.

End Extractor.

(** ** The classifier adapter: [CodeSmellDetector.detect_smells] *)

Module Adapter.
Import PyStr Detector Extractor.

(** The dictionaries built by [_detect_specific_issues]: their [type]
    and [severity] keys.  The other keys hold formatted texts and the
    metric; nothing reads them. *)
Record IssueDict : Type := mkDict {
  d_type : string;
  d_severity : string
}.

Record SmellDetectionResult : Type := mkResult {
  file_path : string;
  smell_type : string;
  confidence : Q;
  features : CodeFeatures;
  issues : list IssueDict;
  suggestions : list string;
  detailed_issues : list CodeIssue
}.

(** [self.smell_rules]: the suggestion of each rule. *)
Definition smell_rules : list (string * string) :=
  [ ("long_method", "考虑将长方法分解为多个小方法");
    ("large_class", "考虑将大类分解为多个小类");
    ("long_parameter_list", "考虑使用参数对象或配置类");
    ("complex_method", "简化方法逻辑，减少嵌套层次");
    ("naming_issues", "遵循PSR-1/PSR-12命名规范");
    ("low_comment_ratio", "添加必要的代码注释和文档") ].

Definition general_suggestions : list (string * list string) :=
  [ ("long_method",
     [ "使用Extract Method重构技术分解长方法";
       "确保每个方法只做一件事（单一职责原则）";
       "考虑使用Template Method模式处理重复逻辑" ]);
    ("complex_method",
     [ "减少嵌套层次，使用早期返回";
       "将复杂条件提取为有意义的方法";
       "考虑使用策略模式替换复杂的条件逻辑" ]);
    ("long_parameter_list",
     [ "使用参数对象(Parameter Object)重构";
       "考虑使用Builder模式构造复杂对象";
       "检查是否违反了单一职责原则" ]);
    ("large_class",
     [ "使用Extract Class重构分解大类";
       "识别类的不同职责并分离";
       "考虑使用组合代替继承" ]);
    ("naming_issues",
     [ "遵循PSR-1和PSR-12编码规范";
       "使用有意义的名称描述变量和方法的用途";
       "保持命名风格的一致性" ]) ].

(** [d.get(k)] on a dictionary written as a list of items. *)
Fixpoint lookup {A : Type} (k : string) (d : list (string * A)) : option A :=
  match d with
  | [] => None
  | (k', v) :: t => if String.eqb k k' then Some v else lookup k t
  end.

Definition any_type (p : string -> bool) (l : list CodeIssue) : bool :=
  existsb p (map type l).

Definition _determine_critical_smell_type (critical_issues : list CodeIssue)
  : string :=
  if any_type (fun t => contains "sql_injection" t || contains "xss" t
                        || contains "security" t) critical_issues
  then "security_issues"
  else if any_type (fun t => contains "infinite" t || contains "loop" t)
                   critical_issues
  then "logic_errors"
  else if any_type (fun t => contains "empty_catch" t) critical_issues
  then "error_handling_issues"
  else if any_type (fun t => contains "performance" t
                             || contains "query_in_loop" t) critical_issues
  then "performance_issues"
  else "critical_issues".

Definition _determine_warning_smell_type (warning_issues : list CodeIssue)
  : string :=
  if any_type (fun t => contains "long_method" t) warning_issues
  then "long_method"
  else if any_type (fun t => contains "long_parameter" t) warning_issues
  then "long_parameter_list"
  else if any_type (fun t => contains "naming" t) warning_issues
  then "naming_issues"
  else if any_type (fun t => contains "missing_comment" t) warning_issues
  then "low_cohesion"
  else "code_quality_issues".

Definition _detect_specific_issues (f : CodeFeatures) : list IssueDict :=
  (if (0 <? long_method_count f)%Z
   then [mkDict "long_method" "warning"] else [])
  ++ (if (0 <? complex_method_count f)%Z
      then [mkDict "complex_method" "warning"] else [])
  ++ (if (0 <? large_parameter_list_count f)%Z
      then [mkDict "long_parameter_list" "warning"] else [])
  ++ (if (0 <? naming_convention_violations f)%Z
      then [mkDict "naming_issues" "info"] else [])
  ++ (if (0 <? long_class_count f)%Z
      then [mkDict "large_class" "warning"] else [])
  ++ (if Qlt_le_dec (comment_ratio f) 0.1
      then [mkDict "low_comment_ratio" "info"] else [])
  ++ (if (20 <? cyclomatic_complexity f)%Z
      then [mkDict "high_complexity" "error"] else []).

(** The list [suggestions] before [list(set(suggestions))[:5]]. *)
Definition collected_suggestions (issues : list IssueDict)
           (smell_type : string) : list string :=
  flat_map (fun issue =>
              match lookup (d_type issue) smell_rules with
              | Some suggestion => [suggestion]
              | None => []
              end) issues
  ++ match lookup smell_type general_suggestions with
     | Some l => l
     | None => []
     end.

Definition _generate_suggestions (O : SetOrder) (issues : list IssueDict)
           (smell_type : string) : list string :=
  firstn 5 (set_list O (collected_suggestions issues smell_type)).

Definition with_severity (sev : string) (l : list CodeIssue)
  : list CodeIssue :=
  filter (fun issue => String.eqb (severity issue) sev) l.

(** [max(0.75, confidence)] *)
Definition at_least_075 (confidence : Q) : Q :=
  if Qlt_le_dec 0.75 confidence then confidence else 0.75.

Section Classifier.

(** The iteration order of sets in this process. *)
Variable O : SetOrder.

(** The installed classifier: [_predict_with_model] when a model, a
    scaler and a label encoder are loaded, else
    [_predict_with_rules]. *)
Variable predict : CodeFeatures -> string * Q.

(** [detect_smells] once the path exists and [extract_features] has
    returned [feats]; [readable] is what reading the lines gives. *)
Definition detect_smells (path : string) (feats : CodeFeatures)
           (readable : option (list string)) : SmellDetectionResult :=
  let detailed := _detect_detailed_issues readable in
  let found := _detect_specific_issues feats in
  let critical_issues := with_severity "error" detailed in
  let '(label, conf) :=
    match critical_issues with
    | _ :: _ => (_determine_critical_smell_type critical_issues, 0.95%Q)
    | [] =>
        let '(label, conf) := predict feats in
        let warning_issues := with_severity "warning" detailed in
        match warning_issues with
        | _ :: _ =>
            if String.eqb label "clean"
            then (_determine_warning_smell_type warning_issues,
                  at_least_075 conf)
            else (label, conf)
        | [] => (label, conf)
        end
    end in
  mkResult path label conf feats found
           (_generate_suggestions O found label) detailed.

End Classifier.

Import Re Parser.

(** *** The arithmetic of [float]

    A [float] is a binary64 number, here the rational number that it
    is: [n * 2^e] with [|n| <= 2^53] and [e >= -1074].  An operation
    gives the exact result rounded to the nearest such number, ties to
    the even [n]; a decimal literal is rounded in the same way.  A value
    of [2^1024] or more stands for [inf], which is above every finite
    float. *)

Definition pow2 (k : Z) : Q := (2 ^ k)%Q.

(** The [k] with [2^k <= q < 2^(k+1)], for a positive [q]. *)
Definition binade (q : Q) : Z :=
  let k := (Z.log2 (Qnum q) - Z.log2 (Zpos (Qden q)))%Z in
  if Qle_bool (pow2 k) q then k else (k - 1)%Z.

(** The nearest integer, ties to the even one. *)
Definition round_half_even (x : Q) : Z :=
  let n := Qfloor x in
  match Qcompare (x - inject_Z n) (1 # 2) with
  | Lt => n
  | Gt => (n + 1)%Z
  | Eq => if Z.even n then n else (n + 1)%Z
  end.

(** The exponent of the last of the 53 binary digits of [q]; for the
    subnormal numbers it stays at -1074. *)
Definition last_place (q : Q) : Z := Z.max (-1074) (binade (Qabs q) - 52).

Definition nearest (q : Q) : Q :=
  match Qnum q with
  | Z0 => 0
  | _ => (inject_Z (round_half_even (q / pow2 (last_place q)))
          * pow2 (last_place q))%Q
  end.

(** [float(z)] for an [int], as in [z / 5.0]: an [int] that rounds to
    [2^1024] raises [OverflowError]. *)
Definition OverflowError : exn := OtherError "OverflowError".

Definition float_of_int (z : Z) : result Q :=
  if Qle_bool (pow2 1024) (nearest (inject_Z z))
  then Raise OverflowError
  else Return (nearest (inject_Z z)).

(** [a < b] *)
Definition float_lt (a b : Q) : bool := negb (Qle_bool b a).

(** [min(a, b)]: the first argument unless the second is smaller. *)
Definition qmin (a b : Q) : Q := if float_lt b a then b else a.

(** *** [_predict_with_rules] *)

Definition bind {A B : Type} (x : result A) (f : A -> result B) : result B :=
  match x with
  | Return a => f a
  | Raise e => Raise e
  end.

(** [min(count / k, 1.0)] *)
Definition count_score (count : Z) (k : Q) : result Q :=
  bind (float_of_int count)
       (fun x => Return (qmin (nearest (x / k)) 1)).

(** [(0.1 - comment_ratio) / 0.1], on the float that the profile
    holds. *)
Definition comment_score (comment_ratio : Q) : Q :=
  nearest (nearest (nearest 0.1 - nearest comment_ratio) / nearest 0.1).

(** [if applies: smell_scores[name] = score] *)
Definition assign (name : string) (applies : bool) (score : result Q)
           (smell_scores : list (string * Q))
  : result (list (string * Q)) :=
  if applies
  then bind score (fun x => Return (smell_scores ++ [(name, x)])%list)
  else Return smell_scores.

(** The dictionary [smell_scores], in insertion order. *)
Definition smell_scores (f : CodeFeatures) : result (list (string * Q)) :=
  bind (assign "long_method" (0 <? long_method_count f)%Z
               (count_score (long_method_count f) 5) [])
  (fun scores =>
  bind (assign "complex_method" (0 <? complex_method_count f)%Z
               (count_score (complex_method_count f) 3) scores)
  (fun scores =>
  bind (assign "long_parameter_list" (0 <? large_parameter_list_count f)%Z
               (count_score (large_parameter_list_count f) 3) scores)
  (fun scores =>
  bind (assign "naming_issues" (0 <? naming_convention_violations f)%Z
               (count_score (naming_convention_violations f) 10) scores)
  (fun scores =>
  bind (assign "large_class" (0 <? long_class_count f)%Z
               (count_score (long_class_count f) 2) scores)
  (fun scores =>
  assign "low_comment_ratio"
         (float_lt (nearest (comment_ratio f)) (nearest 0.1))
         (Return (comment_score (comment_ratio f))) scores))))).

(** [max(items, key=lambda x: x[1])]: the first item with the largest
    score. *)
Fixpoint best_of (best : string * Q) (items : list (string * Q))
  : string * Q :=
  match items with
  | [] => best
  | x :: t => if float_lt (snd best) (snd x) then best_of x t
              else best_of best t
  end.

Definition _predict_with_rules (f : CodeFeatures) : result (string * Q) :=
  bind (smell_scores f)
       (fun scores =>
          match scores with
          | [] => Return ("clean", nearest 0.8)
          | x :: t => Return (best_of x t)
          end).

(** *** [detect_smells] on a path, and [detect_batch] *)

(** [f.readlines()] on the text of the file: the lines with their
    newline characters. *)
Fixpoint readlines (content : string) : list string :=
  match content with
  | EmptyString => []
  | String c t =>
      if Ascii.eqb c newline then String c EmptyString :: readlines t
      else match readlines t with
           | [] => [String c EmptyString]
           | l :: ls => String c l :: ls
           end
  end.

Section OnPath.

Variable O : SetOrder.
Variable predict : CodeFeatures -> string * Q.
Variable w : world.

(** The whole of [detect_smells]; [None] when [extract_features] does
    not return within [fuel] steps. *)
Definition detect_smells_on (fuel : nat) (file_path : string)
  : option (result SmellDetectionResult) :=
  match file w file_path with
  | Missing => Some (Raise FileNotFoundError)
  | _ =>
      match extract_features fuel O w file_path with
      | None => None
      | Some (Raise e) => Some (Raise e)
      | Some (Return feats) =>
          let readable :=
            match read_file w file_path with
            | Return content => Some (readlines content)
            | Raise _ => None
            end in
          Some (Return (detect_smells O predict file_path feats readable))
      end
  end.

(** [for file_path in file_paths: try: ... except Exception:
    continue] *)
Fixpoint detect_batch (fuel : nat) (file_paths : list string)
  : option (list SmellDetectionResult) :=
  match file_paths with
  | [] => Some []
  | file_path :: t =>
      match detect_smells_on fuel file_path with
      | None => None
      | Some outcome =>
          match detect_batch fuel t with
          | None => None
          | Some results =>
              Some (match outcome with
                    | Return result => result :: results
                    | Raise _ => results
                    end)
          end
      end
  end.

End OnPath.

(** *** Readings of the specification, for comparison *)


End Adapter.

(** ** [model_trainer.py]: [ModelTrainer.prepare_training_data] *)

Module Trainer.
Import PyStr Parser Extractor.

(** [CodeFeatures.to_vector]: the 23 fields in their order, as
    numbers of one array. *)
Definition to_vector (f : CodeFeatures) : list Q :=
  [ inject_Z (lines_of_code f);
    inject_Z (cyclomatic_complexity f);
    inject_Z (number_of_classes f);
    inject_Z (number_of_functions f);
    inject_Z (number_of_methods f);
    inject_Z (number_of_variables f);
    avg_method_complexity f;
    inject_Z (max_method_complexity f);
    avg_method_parameters f;
    inject_Z (max_method_parameters f);
    avg_method_length f;
    inject_Z (max_method_length f);
    avg_class_methods f;
    inject_Z (max_class_methods f);
    avg_class_properties f;
    inject_Z (max_class_properties f);
    inject_Z (inheritance_depth f);
    inject_Z (long_method_count f);
    inject_Z (long_class_count f);
    inject_Z (large_parameter_list_count f);
    inject_Z (complex_method_count f);
    inject_Z (naming_convention_violations f);
    comment_ratio f ].

(** [CodeFeatures.get_feature_names] *)
Definition get_feature_names : list string :=
  [ "lines_of_code"; "cyclomatic_complexity"; "number_of_classes";
    "number_of_functions"; "number_of_methods"; "number_of_variables";
    "avg_method_complexity"; "max_method_complexity";
    "avg_method_parameters"; "max_method_parameters"; "avg_method_length";
    "max_method_length"; "avg_class_methods"; "max_class_methods";
    "avg_class_properties"; "max_class_properties"; "inheritance_depth";
    "long_method_count"; "long_class_count"; "large_parameter_list_count";
    "complex_method_count"; "naming_convention_violations";
    "comment_ratio" ].

(** What [prepare_training_data] gives: the matrix and the labels, or
    the [ValueError] raised when no file was processed. *)
Inductive prepared : Type :=
| Prepared (X : list (list Q)) (y : list string)
| NoFileProcessed.

(** The loop over [zip(php_files, labels)]; the result is
    [(features_list, valid_labels)], and [None] when
    [extract_features] does not return within [fuel] steps for one of
    the files. *)
Fixpoint collect_rows (fuel : nat) (O : SetOrder) (w : world)
         (pairs : list (string * string))
  : option (list (list Q) * list string) :=
  match pairs with
  | [] => Some ([], [])
  | (file_path, label) :: t =>
      match file w file_path with
      | Missing => collect_rows fuel O w t
      | _ =>
          match extract_features fuel O w file_path with
          | None => None
          | Some (Raise _) => collect_rows fuel O w t
          | Some (Return features) =>
              match collect_rows fuel O w t with
              | None => None
              | Some (features_list, valid_labels) =>
                  Some (to_vector features :: features_list,
                        label :: valid_labels)
              end
          end
      end
  end.

Definition prepare_training_data (fuel : nat) (O : SetOrder) (w : world)
           (php_files labels : list string) : option prepared :=
  match collect_rows fuel O w (combine php_files labels) with
  | None => None
  | Some ([], _) => Some NoFileProcessed
  | Some (features_list, valid_labels) =>
      Some (Prepared features_list valid_labels)
  end.

End Trainer.

(** ** [main.py]: the statistics of [detect_command] *)

Module Main.
Import PyStr Adapter.

(** The dictionary [issue_counts], with its three keys. *)
Record IssueCounts : Type := mkCounts {
  n_error : nat;
  n_warning : nat;
  n_info : nat
}.

(** [issue_counts[severity] += 1]; [None] for the [KeyError] of a
    severity that is not a key. *)
Definition count_severity (issue_counts : IssueCounts) (severity : string)
  : option IssueCounts :=
  if String.eqb severity "error"
  then Some (mkCounts (n_error issue_counts + 1) (n_warning issue_counts)
                      (n_info issue_counts))
  else if String.eqb severity "warning"
  then Some (mkCounts (n_error issue_counts) (n_warning issue_counts + 1)
                      (n_info issue_counts))
  else if String.eqb severity "info"
  then Some (mkCounts (n_error issue_counts) (n_warning issue_counts)
                      (n_info issue_counts + 1))
  else None.

(** [smell_counts[smell_type] = smell_counts.get(smell_type, 0) + 1] on
    the dictionary written as the list of its items, in insertion
    order. *)
Fixpoint count_smell (smell_type : string) (smell_counts : list (string * nat))
  : list (string * nat) :=
  match smell_counts with
  | [] => [(smell_type, 0 + 1)]
  | (k, v) :: t =>
      if String.eqb k smell_type then (k, v + 1) :: t
      else (k, v) :: count_smell smell_type t
  end.

(** [for issue in result.issues: ...] *)
Fixpoint count_issues (issue_counts : IssueCounts) (issues : list IssueDict)
  : option IssueCounts :=
  match issues with
  | [] => Some issue_counts
  | issue :: t =>
      match count_severity issue_counts (d_severity issue) with
      | Some c => count_issues c t
      | None => None
      end
  end.

(** [for result in results: ...]; the result is
    [(smell_counts, issue_counts)]. *)
Fixpoint count_results (smell_counts : list (string * nat))
         (issue_counts : IssueCounts) (results : list SmellDetectionResult)
  : option (list (string * nat) * IssueCounts) :=
  match results with
  | [] => Some (smell_counts, issue_counts)
  | result :: t =>
      match count_issues issue_counts (issues result) with
      | Some c =>
          count_results (count_smell (smell_type result) smell_counts) c t
      | None => None
      end
  end.

Definition statistics (results : list SmellDetectionResult)
  : option (list (string * nat) * IssueCounts) :=
  count_results [] (mkCounts 0 0 0) results.

End Main.

(** * Properties *)

Import PyStr Re Parser Extractor Detector Adapter.

(** The issues of one type, in scan order. *)
Definition of_type (t : string) (l : list CodeIssue) : list CodeIssue :=
  filter (fun i => String.eqb (type i) t) l.

(** The issues reported at one line. *)
Definition at_line (n : nat) (l : list CodeIssue) : list CodeIssue :=
  filter (fun i => line_number i =? n) l.

(** Every issue of [l] carries one of the type tags [ts]. *)
Definition types_in (ts : list string) (l : list CodeIssue) : Prop :=
  forall i, In i l -> In (type i) ts.

(** A line of a file: text and its newline. *)
Definition L (s : string) : string := s ++ nl.

(** The report of the SQL pass at line [i + 1]. *)
Definition sql_report (lines : list string) (i : nat) (stripped : string)
  : CodeIssue :=
  mkIssue "sql_injection_risk" "error"
          ("第" ++ str_nat (i + 1) ++ "行发现SQL注入风险: 直接拼接变量到SQL语句")
          (i + 1) stripped
          (map (fun j => rstrip (at_ lines j))
               (range (Nat.max 0 (i - 2)) (Nat.min (List.length lines) (i + 3)))).

(** The match state after the characters [v], with [r] left to read. *)
Definition after (s : mstate) (v r : list ascii) : mstate :=
  MState (fold_left (fun _ c => Some c) v (prev s)) r
         (pos s + List.length v) (caps s).

(** A statement that concatenates a variable into a query, as the
    specification words it: a SQL verb in any letter case, then any text
    of the line, then a dollar sign and a name. *)
Definition sql_verbs : list string := ["SELECT"; "INSERT"; "UPDATE"; "DELETE"].

Definition concatenates_variable (s : string) : Prop :=
  exists (a : list ascii) (verb : string) (v b : list ascii) (w : ascii)
         (c : list ascii),
    list_ascii_of_string s = (a ++ v ++ b ++ "$"%char :: w :: c)%list
    /\ In verb sql_verbs
    /\ map to_lower v = map to_lower (list_ascii_of_string verb)
    /\ is_word w = true
    /\ ~ In newline b.

(** The nesting of branching constructs, as the specification words
    it: the largest number of blocks open at once among the blocks whose
    brace stands on a line with a branching keyword. *)
Fixpoint walk_braces (branchy : bool) (s : string) (opened : list bool)
         (deepest : nat) : list bool * nat :=
  match s with
  | EmptyString => (opened, deepest)
  | String c t =>
      if Ascii.eqb c "{" then
        walk_braces branchy t (branchy :: opened)
                    (Nat.max deepest
                             (List.length (filter id (branchy :: opened))))
      else if Ascii.eqb c "}" then walk_braces branchy t (tl opened) deepest
      else walk_braces branchy t opened deepest
  end.

Definition walk_line (st : list bool * nat) (l : string) : list bool * nat :=
  walk_braces (matches true re_branch (strip l)) l (fst st) (snd st).

Definition branch_nesting (lines : list string) : nat :=
  snd (fold_left walk_line lines ([], 0)).

(** ** Sample inputs *)

Definition dq : string := String dquote EmptyString.

(** A statement that concatenates a variable into a query, and its
    rewriting with a placeholder and [bindParam]. *)
Definition concatenated_query : string :=
  L ("$sql = " ++ dq ++ "SELECT * FROM t WHERE id = " ++ dq ++ " . $id;").

Definition bound_query : string :=
  L ("$stmt = $pdo->prepare(" ++ dq ++ "SELECT * FROM t WHERE id = ?" ++ dq
     ++ "); $stmt->bindParam(1, $id);").

Definition catch_line : string := L "catch (Exception $e) {".
Definition closing_brace : string := L "}".
Definition logging_call : string := L "    error_log($e->getMessage());".

(** One unsafe query among lines that only draw warnings. *)
Definition unsafe_file : list string :=
  [ L "<?php";
    L "$limit = 10;";
    L "$offset = 20;";
    concatenated_query;
    L "$rows = $db->query($sql);" ].

(** The report that the SQL pass makes of [unsafe_file]. *)
Definition unsafe_report : CodeIssue :=
  sql_report unsafe_file 3 (strip concatenated_query).

(** A query inside a loop, and nothing else of severity error. *)
Definition query_loop_file : list string :=
  [ L "<?php";
    L "foreach ($ids as $id) {";
    L "    $db->query('UPDATE counters SET n = n + 1');";
    L "}" ].

(** Declarations with five and with six parameters. *)
Definition five_parameters : list string :=
  [ L "<?php";
    L "function create($name, $email, $phone, $city, $zip) {";
    L "    return true;";
    L "}" ].

Definition six_parameters : list string :=
  [ L "<?php";
    L "function create($name, $email, $phone, $city, $zip, $country) {";
    L "    return true;";
    L "}" ].

(** A read of the reserved variable [$v]. *)
Definition reads_reserved (v : string) : string :=
  L ("$value = $" ++ v ++ "['key'];").

(** Two set orders: the distinct elements by last occurrence, and the
    same list reversed. *)
Definition last_seen_order : SetOrder :=
  mkSetOrder (nodup string_dec) (NoDup_nodup string_dec)
             (nodup_In string_dec).


(** A feature profile without findings, and a classifier that answers
    [clean] for every profile. *)
Definition quiet_profile : CodeFeatures :=
  mkFeatures 5 1 0 0 0 3 0 0 0 0 0 0 0 0 0 0 0 0 0 0 0 0 0.5.

Definition says_clean (f : CodeFeatures) : string * Q := ("clean", 0.8%Q).

(** Every type tag that a pass can give. *)
Definition all_types : list string :=
  [ "long_method"; "long_parameter_list"; "complex_method";
    "naming_violation"; "missing_documentation"; "sql_injection_risk";
    "xss_risk"; "password_security"; "hardcoded_credentials";
    "missing_error_handling"; "missing_class_comment"; "public_property";
    "missing_type_declaration"; "missing_access_modifier"; "global_variable";
    "infinite_loop_risk"; "infinite_recursion_risk"; "empty_catch_block";
    "memory_leak_risk"; "division_by_zero_risk"; "array_bounds_risk";
    "file_operation_risk"; "query_in_loop"; "large_file_read_risk";
    "string_concat_in_loop"; "regex_compile_in_loop";
    "redundant_function_call" ].

(** The three tests that [_find_complex_methods] makes of a line: the
    declaration of a method, a branching keyword, a closing brace at the
    start. *)
Definition declares (l : string) : option mobj :=
  search true re_method_open (strip l).

Definition branches (l : string) : bool :=
  matches true re_branch (strip l).

Definition closes (l : string) : bool := startswith "}" (strip l).

(** A file with one method: the line of the declaration, then lines
    with a branching keyword, then the lines of the body, then closing
    lines; [before] and [after] are the other lines of the file. *)
Definition method_file (before : list string) (decl : string)
           (ifs body closing after : list string) : list string :=
  (before ++ decl :: ifs ++ body ++ closing ++ after)%list.

(** The report of [_find_complex_methods] for the method [name]
    declared at index [start], with the counter at [n]. *)
Definition complexity_report (lines : list string) (start : nat)
           (name : string) (n : nat) : CodeIssue :=
  mkIssue "complex_method" "error"
          ("方法 '" ++ name ++ "' 嵌套过深 (最大嵌套层次: " ++ str_nat n ++ ")")
          (start + 1) (strip (at_ lines start))
          (map rstrip
               (slice_lines lines start
                            (Nat.min (start + 10) (List.length lines)))).

(** A method of a class, after the opening tag and the line of the
    class: five blocks of five kinds, a body of two statements, one of
    them with a nested function, and the closing lines. *)
Definition handler_before : list string := [ L "<?php"; L "class Handler {" ].

Definition handler_decl : string :=
  L "    public function handle($request, $log) {".

Definition handler_ifs : list string :=
  [ L "        if ($request) {";
    L "            foreach ($request as $key => $item) {";
    L "                while ($item) {";
    L "                    switch ($key) {";
    L "                        case 1: for ($i = 0; $i < 3; $i++) {" ].

Definition handler_body : list string :=
  [ L "                            $log->write($item);";
    L "                            $done = function () { return 1; };" ].

Definition handler_closing : list string :=
  [ L "                        }"; L "                    }";
    L "                }"; L "            }"; L "        }"; L "    }" ].

Definition handler_after : list string := [ L "}" ].

(** A method of [n] nested [if] blocks, every [if] on a line of its own
    and every block closed by a line that holds only a brace, each line
    indented by four blanks for every block around it. *)
Fixpoint indent (k : nat) (s : string) : string :=
  match k with
  | O => s
  | S k' => String " " (indent k' s)
  end.

Definition open_text : string := "function f($x) {".
Definition if_text : string := "if ($x) {".
Definition body_text : string := "echo 1;".
Definition close_text : string := "}".

Definition at_depth (text : string) (d : nat) : string :=
  L (indent (4 * d) text).

Definition nested_ifs (n : nat) : list string :=
  (at_depth open_text 0
   :: map (at_depth if_text) (seq 1 n)
   ++ at_depth body_text (S n)
   :: map (at_depth close_text) (rev (seq 1 n))
   ++ [at_depth close_text 0])%list.

(** The report that [_find_complex_methods] makes of it. *)
Definition nesting_report (n : nat) : CodeIssue :=
  mkIssue "complex_method" "error"
          ("方法 'f' 嵌套过深 (最大嵌套层次: " ++ str_nat n ++ ")")
          1 open_text
          (map rstrip
               (slice_lines (nested_ifs n) 0
                            (Nat.min 10 (List.length (nested_ifs n))))).

(** A method whose branches are five [if] statements side by side,
    followed by two [try] blocks. *)
Definition shallow_method : list string :=
  [ L "function report($x) {";
    L "    if ($x > 1) { echo 1; }";
    L "    if ($x > 2) { echo 2; }";
    L "    if ($x > 3) { echo 3; }";
    L "    if ($x > 4) { echo 4; }";
    L "    if ($x > 5) { echo 5; }";
    L "    try {";
    L "        first();";
    L "    } catch (Exception $e) {";
    L "        error_log('first');";
    L "    }";
    L "    try {";
    L "        second();";
    L "    } catch (Exception $e) {";
    L "        error_log('second');";
    L "    }";
    L "}" ].



(** A machine without the PHP interpreter: one readable file, one file
    that cannot be opened, nothing else. *)
Definition bare_world : world :=
  mkWorld (fun path =>
             if String.eqb path "a.php"
             then Readable ("<?php" ++ nl ++ "class A {}" ++ nl)
             else if String.eqb path "locked.php"
                  then Unreadable PermissionError
                  else Missing)
          (fun _ => NotInstalled)
          (fun _ => (1%Z, EmptyString))
          (fun _ => None).

(** Two classes that name each other as parent, and a text that the
    fallback parser reads as these two classes. *)
Definition cyclic_classes : list ClassInfo :=
  [ mkClass "A" (Some "B") [] [] 0; mkClass "B" (Some "A") [] [] 0 ].

Definition cyclic_source : string :=
  "<?php" ++ nl ++ "class A extends B {}" ++ nl ++ "class B extends A {}"
  ++ nl.

(** ** Further vocabulary and samples *)

Import Trainer Main.

(** The matcher gets from [s0] to [s1] by reading the characters [v]. *)
Definition reads (s0 s1 : mstate) (v : list ascii) : Prop :=
  rest s0 = (v ++ rest s1)%list /\ pos s1 = pos s0 + List.length v.

(** A successful run calls its continuation, on a state ahead. *)
Definition calls_ahead
  (step : mstate -> (mstate -> option mstate) -> option mstate) : Prop :=
  forall s k m, step s k = Some m ->
                exists s1 v, reads s s1 v /\ k s1 = Some m.

(** The match object [m] is a match of [r] in [chars] that starts at or
    after [i]: the run from [m_start m] reads [v] and stops at
    [m_end m]. *)
Definition match_in (ic : bool) (r : regex) (chars : list ascii) (i : nat)
           (m : mobj) : Prop :=
  exists p v s,
    i <= m_start m /\ m_start m <= List.length chars
    /\ run ic r (MState p (skipn (m_start m) chars) (m_start m) []) Some
       = Some s
    /\ skipn (m_start m) chars = (v ++ rest s)%list
    /\ m_end m = m_start m + List.length v
    /\ m_caps m = caps s.

(** The severity that the rule catalog gives to each type tag. *)
Definition catalog : list (string * string) :=
  [ ("long_method", "warning"); ("long_parameter_list", "warning");
    ("complex_method", "error"); ("naming_violation", "info");
    ("missing_documentation", "info"); ("sql_injection_risk", "error");
    ("xss_risk", "error"); ("password_security", "error");
    ("hardcoded_credentials", "warning");
    ("missing_error_handling", "warning"); ("missing_class_comment", "info");
    ("public_property", "warning"); ("missing_type_declaration", "info");
    ("missing_access_modifier", "warning"); ("global_variable", "warning");
    ("infinite_loop_risk", "error"); ("infinite_recursion_risk", "error");
    ("empty_catch_block", "error"); ("memory_leak_risk", "warning");
    ("division_by_zero_risk", "warning"); ("array_bounds_risk", "warning");
    ("file_operation_risk", "warning"); ("query_in_loop", "error");
    ("large_file_read_risk", "warning"); ("string_concat_in_loop", "warning");
    ("regex_compile_in_loop", "info"); ("redundant_function_call", "info") ].

(** An issue of a file: its line number is a line of the file, its
    severity the one of its type, and its line content the text of that
    line without the blanks around it. *)
Definition well_formed (lines : list string) (x : CodeIssue) : Prop :=
  (1 <= line_number x <= List.length lines)
  /\ In (type x, severity x) catalog
  /\ line_content x = strip (at_ lines (line_number x - 1)).

(** The invariant of the loop of [_find_complex_methods]: inside a
    method, [method_start] is a line already read. *)
Definition cm_inv (lines : list string) (st : cm_state) : Prop :=
  (in_method st = true -> cm_method_start st < List.length lines)
  /\ forall x, In x (cm_issues st) -> well_formed lines x.

(** Whether a list of issues holds one of type [t]. *)
Definition has_type (t : string) (l : list CodeIssue) : bool :=
  existsb (fun x => String.eqb (type x) t) l.

(** A file that draws no report. *)
Definition quiet_file : list string := [ L "<?php"; L "echo 1;" ].

(** A line of text: no newline character inside. *)
Definition one_line (l : string) : Prop := count newline l = 0.

(** Ten lines, two of them comments. *)
Definition ten_lines : list string :=
  [ "<?php"; "// configuration"; "$a = 1;"; "$b = 2;"; "# totals";
    "$c = $a + $b;"; "echo $c;"; "echo $a;"; "echo $b;"; "?>" ].

(** A text whose braces match: with [opened] blocks open before it,
    none is closed that was not opened and none is left open. *)
Fixpoint braces_match (l : list ascii) (opened : Z) : bool :=
  match l with
  | [] => (opened =? 0)%Z
  | c :: t =>
      let o := (if Ascii.eqb c "{" then opened + 1
                else if Ascii.eqb c "}" then opened - 1 else opened)%Z in
      (0 <=? o)%Z && braces_match t o
  end.

Definition balanced (body : string) : bool :=
  braces_match (list_ascii_of_string body) 0.

(** A method declared once, with a body whose braces match. *)
Definition sample_method : string :=
  "<?php" ++ nl ++ "function f($a) {" ++ nl ++ "  if ($a) {" ++ nl
  ++ "    return 1;" ++ nl ++ "  }" ++ nl ++ "  return 0;" ++ nl ++ "}" ++ nl.

(** Every parent that the loop can step to has a smaller rank than the
    name it was reached from. *)
Definition ranked (classes : list ClassInfo) (rank : string -> nat) : Prop :=
  forall e c p, lookup_class classes e = Some c ->
                truthy (extends c) = Some p -> rank p < rank e.

(** A chain: [A] extends [B], [B] extends [C], which is not in the
    file. *)
Definition chain_classes : list ClassInfo :=
  [ mkClass "A" (Some "B") [] [] 0; mkClass "B" (Some "C") [] [] 0;
    mkClass "D" None [] [] 0 ].

Definition chain_rank (e : string) : nat :=
  if String.eqb e "A" then 2 else if String.eqb e "B" then 1 else 0.

(** The readable file of [bare_world], and what [detect_smells] makes
    of it with a classifier that answers [clean]. *)
Definition a_php_text : string := "<?php" ++ nl ++ "class A {}" ++ nl.

Definition a_php_result : SmellDetectionResult :=
  detect_smells last_seen_order says_clean "a.php"
    (features_of (simple_parse_text last_seen_order a_php_text) a_php_text 1)
    (Some (readlines a_php_text)).

(** What [parse_file] is given.  [launches]: [subprocess.run] raises
    nothing that the handler of [parse_file] does not list.
    [backend_facts]: the facts read from the output of the PHP backend,
    when the run completes with code 0 and prints what [json.loads]
    reads. *)
Definition launches (w : world) (file_path : string) : bool :=
  match php w file_path with
  | Fails e => caught e
  | _ => true
  end.

Definition backend_facts (w : world) (file_path : string)
  : option ParseResult :=
  match subprocess_run w file_path with
  | Return (returncode, stdout) =>
      if (returncode =? 0)%Z then json_loads w stdout else None
  | Raise _ => None
  end.

(** Whether [open] succeeds on a path. *)
Definition can_read (w : world) (file_path : string) : bool :=
  match file w file_path with
  | Readable _ => true
  | _ => false
  end.

(** The parent links of a class list have a rank below [n]. *)
Definition acyclic_within (n : nat) (classes : list ClassInfo) : Prop :=
  exists rank, ranked classes rank /\ forall e, rank e < n.

(** A machine without the PHP interpreter and with two readable files,
    one of them with the two classes that name each other as parent. *)
Definition cyclic_world : world :=
  mkWorld (fun path =>
             if String.eqb path "a.php" then Readable a_php_text
             else if String.eqb path "loop.php" then Readable cyclic_source
                  else Missing)
          (fun _ => NotInstalled)
          (fun _ => (1%Z, EmptyString))
          (fun _ => None).

(** A machine on which [php] is found and cannot be executed, with two
    readable files and one directory. *)
Definition guarded_world : world :=
  mkWorld (fun path =>
             if String.eqb path "a.php" then Readable a_php_text
             else if String.eqb path "unsafe.php"
                  then Readable (String.concat EmptyString unsafe_file)
                  else if String.eqb path "src"
                       then Unreadable IsADirectoryError
                       else Missing)
          (fun _ => Fails PermissionError)
          (fun _ => (1%Z, EmptyString))
          (fun _ => None).



(** A path from which a profile can be made: [open] succeeds on it and
    the launch of the interpreter raises nothing that leaves
    [parse_file]. *)
Definition analysable (w : world) (file_path : string) : bool :=
  can_read w file_path && launches w file_path.

(** The pairs of [zip(php_files, labels)] whose file is analysable. *)
Definition usable (w : world) (pairs : list (string * string))
  : list (string * string) :=
  filter (fun pl => analysable w (fst pl)) pairs.

(** The number of dictionaries that [_detect_specific_issues] gives
    with each severity. *)
Definition with_d_severity (sev : string) (issues : list IssueDict) : nat :=
  List.length (filter (fun d => String.eqb (d_severity d) sev) issues).

(** The profiles with a cyclomatic complexity above 20. *)
Definition too_complex (results : list SmellDetectionResult) : nat :=
  List.length
    (filter (fun res => (20 <? cyclomatic_complexity (features res))%Z)
            results).

Definition total (smell_counts : list (string * nat)) : nat :=
  list_sum (map snd smell_counts).

(** A file that the scan labels [security_issues], on a machine
    without the PHP interpreter. *)
Definition unsafe_world : world :=
  mkWorld (fun path =>
             if String.eqb path "unsafe.php"
             then Readable (String.concat EmptyString unsafe_file)
             else Missing)
          (fun _ => NotInstalled)
          (fun _ => (1%Z, EmptyString))
          (fun _ => None).

Definition unsafe_result : SmellDetectionResult :=
  detect_smells last_seen_order says_clean "unsafe.php"
    (features_of
       (simple_parse_text last_seen_order
                          (String.concat EmptyString unsafe_file))
       (String.concat EmptyString unsafe_file) 0)
    (Some unsafe_file).

(** The rational number that a finite binary64 number of the Standard
    Library is, and the comparison of a rational number with it. *)
Definition binary64_value (x : spec_float) : option Q :=
  match x with
  | S754_zero _ => Some 0%Q
  | S754_finite s m e =>
      Some (inject_Z (if s then Z.neg m else Z.pos m) * pow2 e)%Q
  | _ => None
  end.

Definition same_value (q : Q) (x : spec_float) : bool :=
  match binary64_value x with
  | Some v => Qeq_bool q v
  | None => false
  end.

Definition binary64_of_int (z : Z) : spec_float :=
  binary_normalize 53 1024 z 0 false.

(** The profile of a file of 25 lines, two of them comments, with two
    names against the conventions. *)
Definition sparse_profile : CodeFeatures :=
  mkFeatures 25 1 0 2 2 3 1 1 1 1 4 5 0 0 0 0 0 0 0 0 0 2 (2 # 25).

(** The counts of a profile convert to floats. *)
Definition counts_convert (f : CodeFeatures) : Prop :=
  Forall (fun count => (count < 2 ^ 1023)%Z)
         [ long_method_count f; complex_method_count f;
           large_parameter_list_count f; naming_convention_violations f;
           long_class_count f ].

(** An entry of the dictionary is a rule whose test holds, with the
    score of the rule. *)
Definition scored_by (f : CodeFeatures) (entry : string * Q) : Prop :=
  (exists count k,
      In (fst entry, count, k)
         [ ("long_method", long_method_count f, 5%Q);
           ("complex_method", complex_method_count f, 3%Q);
           ("long_parameter_list", large_parameter_list_count f, 3%Q);
           ("naming_issues", naming_convention_violations f, 10%Q);
           ("large_class", long_class_count f, 2%Q) ]
      /\ (0 < count)%Z
      /\ count_score count k = Return (snd entry))
  \/ (fst entry = "low_comment_ratio"
      /\ float_lt (nearest (comment_ratio f)) (nearest 0.1%Q) = true
      /\ snd entry = comment_score (comment_ratio f)).

(** ** Type tags of the passes *)

Lemma of_type_app t l1 l2 :
  of_type t (l1 ++ l2) = (of_type t l1 ++ of_type t l2)%list.
Proof. apply filter_app. Qed.

Lemma types_in_app ts l1 l2 :
  types_in ts l1 -> types_in ts l2 -> types_in ts (l1 ++ l2).
Proof.
  intros H1 H2 i Hi. apply in_app_or in Hi. destruct Hi; auto.
Qed.

Lemma types_in_nil ts : types_in ts [].
Proof. intros i []. Qed.

Lemma types_in_flat_map {A : Type} ts (f : A -> list CodeIssue) (l : list A) :
  (forall a, types_in ts (f a)) -> types_in ts (flat_map f l).
Proof.
  intros H i Hi. apply in_flat_map in Hi. destruct Hi as [a [_ Ha]].
  exact (H a i Ha).
Qed.

Lemma of_type_none t ts l :
  types_in ts l -> ~ In t ts -> of_type t l = [].
Proof.
  intros H Hn. unfold of_type. induction l as [|x l IH]; [reflexivity|].
  simpl. destruct (String.eqb (type x) t) eqn:E.
  - apply String.eqb_eq in E. exfalso. apply Hn. rewrite <- E.
    apply H. now left.
  - apply IH. intros i Hi. apply H. now right.
Qed.

Lemma of_type_all t l : types_in [t] l -> of_type t l = l.
Proof.
  intros H. unfold of_type. induction l as [|x l IH]; [reflexivity|].
  simpl. assert (Hx : type x = t).
  { destruct (H x (or_introl eq_refl)) as [E|[]]. now symmetry. }
  rewrite Hx, String.eqb_refl. f_equal. apply IH.
  intros i Hi. apply H. now right.
Qed.

(** Splits a membership in a concatenation of conditional reports and
    reads off the type tag of the report it lands in. *)
Ltac split_reports H :=
  repeat (apply in_app_or in H; destruct H as [H|H]).

Ltac read_report H :=
  repeat match type of H with
         | In _ (if ?c then _ else _) => destruct c
         | In _ (match ?o with Some _ => _ | None => _ end) => destruct o
         | In _ (let '(_, _) := ?p in _) => destruct p
         | In _ (first_in_loop _ _ _ _ _ _ _) => unfold first_in_loop in H
         end;
  try (destruct H as [<-|[]]; cbn [type]; simpl; tauto);
  try (destruct H).

Lemma long_methods_types lines :
  types_in ["long_method"; "long_parameter_list"] (_find_long_methods lines).
Proof.
  apply types_in_flat_map. intros [i line] x H.
  unfold long_methods_at in H. cbn [fst snd] in H.
  destruct (search true re_method_sig (strip line)); [|destruct H].
  cbv zeta in H. split_reports H; read_report H.
Qed.

Lemma long_parameter_lists_types lines :
  types_in ["long_parameter_list"] (_find_long_parameter_lists lines).
Proof.
  apply types_in_flat_map. intros [i line] x H.
  unfold long_parameter_lists_at in H. cbn [fst snd] in H.
  destruct (search true re_function_params line); [|destruct H].
  cbv zeta in H. read_report H.
Qed.

Lemma naming_types lines :
  types_in ["naming_violation"] (_find_naming_issues lines).
Proof.
  apply types_in_flat_map. intros [i line] x H.
  unfold naming_issues_at in H. cbn [fst snd] in H. cbv zeta in H.
  split_reports H.
  - unfold naming_class_at in H. read_report H.
  - unfold naming_method_at in H. read_report H.
  - unfold naming_vars_at in H. cbv zeta in H.
    apply in_flat_map in H. destruct H as [v [_ H]]. read_report H.
Qed.

Lemma uncommented_types lines :
  types_in ["missing_documentation"] (_find_uncommented_methods lines).
Proof.
  apply types_in_flat_map. intros [i line] x H.
  unfold uncommented_at in H. cbn [fst snd] in H. read_report H.
Qed.

Lemma sql_loop_types pats lines i stripped :
  types_in ["sql_injection_risk"] (sql_loop pats lines i stripped).
Proof.
  induction pats as [|p pats IH]; intros x H; [destruct H|].
  simpl in H.
  destruct (matches true p stripped); [|exact (IH x H)].
  destruct (negb (matches true re_prepared stripped)); [|exact (IH x H)].
  destruct H as [<-|[]]. cbn [type]. simpl. tauto.
Qed.

Lemma sql_types lines :
  types_in ["sql_injection_risk"] (_find_sql_injection_risks lines).
Proof.
  apply types_in_flat_map. intros [i line]. apply sql_loop_types.
Qed.

Lemma security_types lines :
  types_in ["xss_risk"; "password_security"; "hardcoded_credentials";
            "missing_error_handling"] (_find_security_issues lines).
Proof.
  apply types_in_flat_map. intros [i line] x H.
  unfold security_at in H. cbn [fst snd] in H. cbv zeta in H.
  split_reports H; read_report H.
Qed.

Lemma code_quality_types lines :
  types_in ["missing_class_comment"; "public_property";
            "missing_type_declaration"; "missing_access_modifier";
            "global_variable"] (_find_code_quality_issues lines).
Proof.
  apply types_in_flat_map. intros [i line] x H.
  unfold code_quality_at in H. cbn [fst snd] in H. cbv zeta in H.
  split_reports H; read_report H.
Qed.

Lemma logic_errors_types lines :
  types_in ["infinite_loop_risk"; "infinite_recursion_risk";
            "empty_catch_block"; "memory_leak_risk"; "division_by_zero_risk";
            "array_bounds_risk"; "file_operation_risk"]
           (_find_logic_errors lines).
Proof.
  apply types_in_flat_map. intros [i line] x H.
  unfold logic_errors_at in H. cbn [fst snd] in H. cbv zeta in H.
  unfold endless_while_at, for_without_step_at, recursion_at, empty_catch_at,
    memory_leak_at, division_at, array_bounds_at, file_operation_at in H.
  split_reports H; read_report H.
Qed.

Lemma performance_types lines :
  types_in ["query_in_loop"; "large_file_read_risk"; "string_concat_in_loop";
            "regex_compile_in_loop"; "redundant_function_call"]
           (_find_performance_issues lines).
Proof.
  apply types_in_flat_map. intros [i line] x H.
  unfold performance_at in H. cbn [fst snd] in H. cbv zeta in H.
  split_reports H; read_report H.
Qed.

Lemma cm_step_types lines st il :
  types_in ["complex_method"] (cm_issues st) ->
  types_in ["complex_method"] (cm_issues (cm_step lines st il)).
Proof.
  intros H. destruct il as [i line]. unfold cm_step. cbv zeta.
  match goal with
  | |- context [if in_method ?s then _ else _] => set (st1 := s)
  end.
  assert (H1 : cm_issues st1 = cm_issues st).
  { subst st1. destruct (search true re_method_open (strip line));
      [destruct (negb (in_method st))|]; reflexivity. }
  destruct (in_method st1); [|rewrite H1; exact H].
  match goal with
  | |- context [startswith "}" _ && (current_nesting ?s =? 0)] => set (st3 := s)
  end.
  assert (H3 : cm_issues st3 = cm_issues st).
  { subst st3. rewrite <- H1.
    destruct (startswith "}" (strip line));
      destruct (matches true re_branch (strip line)); reflexivity. }
  destruct (startswith "}" (strip line) && (current_nesting st3 =? 0));
    [|rewrite H3; exact H].
  cbn [cm_issues]. rewrite H3. apply types_in_app; [exact H|].
  destruct (4 <? max_nesting st3); [|apply types_in_nil].
  intros x [<-|[]]. simpl. tauto.
Qed.

Lemma complex_types lines :
  types_in ["complex_method"] (_find_complex_methods lines).
Proof.
  unfold _find_complex_methods.
  assert (G : forall els st, types_in ["complex_method"] (cm_issues st) ->
              types_in ["complex_method"]
                       (cm_issues (fold_left (cm_step lines) els st))).
  { induction els as [|il els IH]; intros st H; [exact H|].
    simpl. apply IH. now apply cm_step_types. }
  apply G. apply types_in_nil.
Qed.

(** ** Which pass reports which type *)

Ltac absent := simpl; intuition discriminate.

(** Keeps the reports of a pass whose only tag is the one asked for and
    drops those of a pass that cannot give it. *)
Ltac sift_pass H :=
  first [ rewrite (of_type_all _ _ H)
        | rewrite (of_type_none _ _ _ H) by absent
        | idtac ].

Ltac sift lines :=
  unfold scan_lines; rewrite !of_type_app;
  sift_pass (long_methods_types lines);
  sift_pass (complex_types lines);
  sift_pass (long_parameter_lists_types lines);
  sift_pass (naming_types lines);
  sift_pass (uncommented_types lines);
  sift_pass (sql_types lines);
  sift_pass (security_types lines);
  sift_pass (code_quality_types lines);
  sift_pass (logic_errors_types lines);
  sift_pass (performance_types lines);
  simpl; rewrite ?app_nil_r.

Lemma scan_complex_method lines :
  of_type "complex_method" (scan_lines lines) = _find_complex_methods lines.
Proof. sift lines. reflexivity. Qed.

Lemma scan_sql_injection lines :
  of_type "sql_injection_risk" (scan_lines lines)
  = _find_sql_injection_risks lines.
Proof. sift lines. reflexivity. Qed.

Lemma scan_empty_catch lines :
  of_type "empty_catch_block" (scan_lines lines)
  = of_type "empty_catch_block" (_find_logic_errors lines).
Proof. sift lines. reflexivity. Qed.

Lemma scan_long_parameter_list lines :
  of_type "long_parameter_list" (scan_lines lines)
  = (of_type "long_parameter_list" (_find_long_methods lines)
     ++ _find_long_parameter_lists lines)%list.
Proof. sift lines. reflexivity. Qed.

Lemma scan_naming_violation lines :
  of_type "naming_violation" (scan_lines lines) = _find_naming_issues lines.
Proof. sift lines. reflexivity. Qed.

(** ** Line-local passes

    A pass that maps each line to its reports, each at that line, can
    be read off one line at a time. *)

Lemma enumerate_from_app {A : Type} k (l1 l2 : list A) :
  enumerate_from k (l1 ++ l2)
  = (enumerate_from k l1 ++ enumerate_from (k + List.length l1) l2)%list.
Proof.
  revert k. induction l1 as [|x l1 IH]; intros k; simpl.
  - now rewrite Nat.add_0_r.
  - rewrite IH. now rewrite Nat.add_succ_r.
Qed.

Lemma at_line_app n l1 l2 :
  at_line n (l1 ++ l2) = (at_line n l1 ++ at_line n l2)%list.
Proof. apply filter_app. Qed.

Lemma at_line_all n l :
  (forall x, In x l -> line_number x = n) -> at_line n l = l.
Proof.
  intros H. unfold at_line. induction l as [|x l IH]; [reflexivity|].
  simpl. rewrite (H x (or_introl eq_refl)), Nat.eqb_refl. f_equal.
  apply IH. intros y Hy. apply H. now right.
Qed.

Lemma at_line_none n l :
  (forall x, In x l -> line_number x <> n) -> at_line n l = [].
Proof.
  intros H. unfold at_line. induction l as [|x l IH]; [reflexivity|].
  simpl. destruct (line_number x =? n) eqn:E.
  - apply Nat.eqb_eq in E. exfalso. exact (H x (or_introl eq_refl) E).
  - apply IH. intros y Hy. apply H. now right.
Qed.

Section LineLocal.

Variable f : nat -> string -> list CodeIssue.
Hypothesis f_local : forall i line x, In x (f i line) -> line_number x = i + 1.

Let pass (els : list (nat * string)) : list CodeIssue :=
  flat_map (fun il => f (fst il) (snd il)) els.

Lemma other_lines_silent n k l :
  (n < k \/ k + List.length l <= n) ->
  at_line (n + 1) (pass (enumerate_from k l)) = [].
Proof.
  revert k. induction l as [|x l IH]; intros k Hk; [reflexivity|].
  unfold pass. simpl. rewrite at_line_app. fold (pass (enumerate_from (S k) l)).
  rewrite IH by (simpl in Hk; lia).
  rewrite at_line_none; [reflexivity|].
  intros y Hy. apply f_local in Hy. simpl in Hk. lia.
Qed.

Lemma line_local pre l post :
  at_line (List.length pre + 1) (pass (enumerate (pre ++ l :: post)))
  = f (List.length pre) l.
Proof.
  unfold enumerate. rewrite enumerate_from_app. unfold pass.
  rewrite flat_map_app, at_line_app. simpl. rewrite at_line_app.
  fold (pass (enumerate_from 0 pre)).
  fold (pass (enumerate_from (S (List.length pre)) post)).
  rewrite (other_lines_silent (List.length pre) 0 pre) by lia.
  rewrite (other_lines_silent (List.length pre) (S (List.length pre)) post)
    by lia.
  simpl. rewrite app_nil_r. apply at_line_all.
  intros x Hx. now apply f_local in Hx.
Qed.

End LineLocal.

Lemma of_type_flat_map {A : Type} t (f : A -> list CodeIssue) l :
  of_type t (flat_map f l) = flat_map (fun a => of_type t (f a)) l.
Proof.
  induction l as [|a l IH]; [reflexivity|].
  simpl. now rewrite of_type_app, IH.
Qed.

(** ** The SQL pass on one line *)

Lemma sql_loop_report pats lines i s :
  existsb (fun p => matches true p s) pats = true ->
  matches true re_prepared s = false ->
  sql_loop pats lines i s = [sql_report lines i s].
Proof.
  intros Hp Hq. induction pats as [|p pats IH]; [discriminate|].
  simpl in *. rewrite Hq. simpl.
  destruct (matches true p s); [reflexivity|]. now apply IH.
Qed.

Lemma sql_loop_silent pats lines i s :
  matches true re_prepared s = true -> sql_loop pats lines i s = [].
Proof.
  intros Hq. induction pats as [|p pats IH]; [reflexivity|].
  simpl. rewrite Hq. simpl. now destruct (matches true p s).
Qed.

Lemma sql_loop_line pats lines i s x :
  In x (sql_loop pats lines i s) -> line_number x = i + 1.
Proof.
  induction pats as [|p pats IH]; intros H; [destruct H|].
  simpl in H. destruct (matches true p s); [|now apply IH].
  destruct (negb (matches true re_prepared s)); [|now apply IH].
  destruct H as [<-|[]]. reflexivity.
Qed.

Lemma sql_at_line pre l post :
  at_line (List.length pre + 1)
          (of_type "sql_injection_risk" (scan_lines (pre ++ l :: post)))
  = sql_injection_at (pre ++ l :: post) (List.length pre) l.
Proof.
  rewrite scan_sql_injection. unfold _find_sql_injection_risks.
  apply (line_local (sql_injection_at (pre ++ l :: post))).
  intros i line x. apply sql_loop_line.
Qed.

(** A question mark anywhere in the subject is a prepared-statement
    marker for [re_prepared]. *)
Lemma scan_prepared_question p a b i :
  scan true re_prepared p (a ++ "?"%char :: b) i <> None.
Proof.
  revert p i. induction a as [|c a IH]; intros p i.
  - simpl. unfold match_at. cbn. discriminate.
  - simpl. destruct (match_at true re_prepared p (c :: a ++ "?"%char :: b) i);
      [discriminate|]. apply IH.
Qed.

Lemma contains_char c s :
  contains (String c EmptyString) s = true <-> In c (list_ascii_of_string s).
Proof.
  induction s as [|x t IH]; simpl.
  - split; [discriminate|tauto].
  - destruct (ascii_dec c x) as [->|Hne].
    + replace (String.prefix EmptyString t) with true by now destruct t.
      simpl. split; auto.
    + simpl. rewrite IH. split; [tauto|]. intros [E|H]; [congruence|exact H].
Qed.

Lemma lstrip_keeps c s :
  is_space c = false -> In c (list_ascii_of_string s) ->
  In c (list_ascii_of_string (lstrip s)).
Proof.
  intros Hc. induction s as [|x t IH]; simpl; [tauto|].
  destruct (is_space x) eqn:Ex; [|simpl; tauto].
  intros [E|H]; [congruence|now apply IH].
Qed.

Lemma rstrip_keeps c s :
  is_space c = false -> In c (list_ascii_of_string s) ->
  In c (list_ascii_of_string (rstrip s)).
Proof.
  intros Hc. induction s as [|x t IH]; simpl; [tauto|].
  intros [E|H].
  - subst x. destruct (rstrip t); [rewrite Hc|]; simpl; auto.
  - specialize (IH H). destruct (rstrip t); [destruct IH|]. now right.
Qed.

Lemma strip_keeps c s :
  is_space c = false ->
  contains (String c EmptyString) s = true ->
  contains (String c EmptyString) (strip s) = true.
Proof.
  intros Hc H. apply contains_char. apply contains_char in H.
  unfold strip. now apply rstrip_keeps, lstrip_keeps.
Qed.

Lemma question_mark_is_prepared s :
  contains "?" s = true -> matches true re_prepared s = true.
Proof.
  intros H. apply contains_char in H. apply in_split in H.
  destruct H as [a [b E]]. unfold matches, search. rewrite E.
  destruct (scan true re_prepared None (a ++ "?"%char :: b) 0) eqn:S;
    [reflexivity|]. now apply scan_prepared_question in S.
Qed.

(** ** The empty-catch check on one line *)

Lemma endless_while_types lines i s :
  types_in ["infinite_loop_risk"] (endless_while_at lines i s).
Proof. intros x H. unfold endless_while_at in H. read_report H. Qed.

Lemma for_without_step_types i s :
  types_in ["infinite_loop_risk"] (for_without_step_at i s).
Proof. intros x H. unfold for_without_step_at in H. read_report H. Qed.

Lemma recursion_types lines i s :
  types_in ["infinite_recursion_risk"] (recursion_at lines i s).
Proof. intros x H. unfold recursion_at in H. read_report H. Qed.

Lemma empty_catch_types lines i s :
  types_in ["empty_catch_block"] (empty_catch_at lines i s).
Proof. intros x H. unfold empty_catch_at in H. read_report H. Qed.

Lemma memory_leak_types lines i s :
  types_in ["memory_leak_risk"] (memory_leak_at lines i s).
Proof. intros x H. unfold memory_leak_at in H. read_report H. Qed.

Lemma division_types i s :
  types_in ["division_by_zero_risk"] (division_at i s).
Proof. intros x H. unfold division_at in H. read_report H. Qed.

Lemma array_bounds_types i s :
  types_in ["array_bounds_risk"] (array_bounds_at i s).
Proof. intros x H. unfold array_bounds_at in H. read_report H. Qed.

Lemma file_operation_types i s :
  types_in ["file_operation_risk"] (file_operation_at i s).
Proof. intros x H. unfold file_operation_at in H. read_report H. Qed.

Lemma logic_errors_empty_catch lines i line :
  of_type "empty_catch_block" (logic_errors_at lines i line)
  = empty_catch_at lines i (strip line).
Proof.
  unfold logic_errors_at. cbv zeta. rewrite !of_type_app.
  rewrite (of_type_none _ _ _ (endless_while_types lines i _)) by absent.
  rewrite (of_type_none _ _ _ (for_without_step_types i _)) by absent.
  rewrite (of_type_none _ _ _ (recursion_types lines i _)) by absent.
  rewrite (of_type_all _ _ (empty_catch_types lines i _)).
  rewrite (of_type_none _ _ _ (memory_leak_types lines i _)) by absent.
  rewrite (of_type_none _ _ _ (division_types i _)) by absent.
  rewrite (of_type_none _ _ _ (array_bounds_types i _)) by absent.
  rewrite (of_type_none _ _ _ (file_operation_types i _)) by absent.
  simpl. now rewrite app_nil_r.
Qed.

Lemma empty_catch_at_line pre l post :
  at_line (List.length pre + 1)
          (of_type "empty_catch_block" (scan_lines (pre ++ l :: post)))
  = empty_catch_at (pre ++ l :: post) (List.length pre) (strip l).
Proof.
  rewrite scan_empty_catch. unfold _find_logic_errors.
  rewrite of_type_flat_map.
  rewrite (flat_map_ext _
             (fun il => empty_catch_at (pre ++ l :: post) (fst il)
                                       (strip (snd il))))
    by (intros il; apply logic_errors_empty_catch).
  apply (line_local (fun i line => empty_catch_at (pre ++ l :: post) i
                                                  (strip line))).
  intros i line x H. unfold empty_catch_at in H.
  destruct (_ && _) in H; [|destruct H]. destruct H as [<-|[]]. reflexivity.
Qed.

Lemma next_line (pre : list string) l next post :
  at_ (pre ++ l :: next :: post) (List.length pre + 1) = next
  /\ (List.length pre + 1 <? List.length (pre ++ l :: next :: post)) = true.
Proof.
  split.
  - unfold at_. rewrite app_nth2 by lia.
    replace (List.length pre + 1 - List.length pre) with 1 by lia.
    reflexivity.
  - apply Nat.ltb_lt. rewrite length_app. simpl. lia.
Qed.

(** ** How the matcher reads a literal, a repetition and the first SQL
    pattern *)

Lemma after_nil s r : rest s = r -> after s [] r = s.
Proof.
  intros <-. destruct s as [p l n cs]. unfold after. simpl.
  now rewrite Nat.add_0_r.
Qed.

Lemma after_cons s c v r :
  after s (c :: v) r = after (advance s c (v ++ r)) v r.
Proof.
  unfold after, advance. simpl. f_equal. lia.
Qed.

Lemma one_head ok s k c t :
  rest s = c :: t -> ok c = true -> one ok s k = k (advance s c t).
Proof. intros E H. unfold one. now rewrite E, H. Qed.

Lemma lit_run x : forall s k v r,
  rest s = (v ++ r)%list ->
  map to_lower v = map to_lower (list_ascii_of_string x) ->
  run true (Lit x) s k = k (after s v r).
Proof.
  induction x as [|c t IH]; intros s k v r Hr Hv.
  - destruct v; [|discriminate]. simpl. now rewrite after_nil.
  - destruct v as [|c' v]; [discriminate|].
    cbn [map list_ascii_of_string] in Hv.
    injection Hv as Hc Hv. rewrite after_cons.
    assert (Hok : chr_eq true c c' = true).
    { unfold chr_eq. rewrite Hc. apply Ascii.eqb_refl. }
    destruct t as [|c2 t2].
    + destruct v; [|discriminate]. simpl in Hr. cbn [Lit run].
      rewrite (one_head _ _ _ _ _ Hr Hok). now rewrite after_nil.
    + change (Lit (String c (String c2 t2)))
        with (Seq (Chr c) (Lit (String c2 t2))).
      cbn [run]. rewrite (one_head _ _ _ c' (v ++ r)%list Hr Hok).
      apply IH; [reflexivity|exact Hv].
Qed.

Lemma star_loop_total step k fuel s :
  (forall s', k s' <> None) -> star_loop step k fuel s <> None.
Proof.
  intros Hk. revert s. induction fuel as [|fuel IH]; intros s; simpl.
  - apply Hk.
  - destruct (step s _); [discriminate|apply Hk].
Qed.

Lemma star_one_reaches step ok b :
  (forall s k, step s k = one ok s k) ->
  forall s k r fuel,
    rest s = (b ++ r)%list -> Forall (fun c => ok c = true) b ->
    List.length b < fuel ->
    k (after s b r) <> None ->
    star_loop step k fuel s <> None.
Proof.
  intros Hstep. induction b as [|x b IH]; intros s k r fuel Hr Hok Hf Hk.
  - rewrite after_nil in Hk by exact Hr.
    destruct fuel as [|fuel]; [exact Hk|]. cbn [star_loop].
    destruct (step s _); [discriminate|exact Hk].
  - destruct fuel as [|fuel]; [simpl in Hf; lia|].
    cbn [star_loop]. rewrite Hstep.
    inversion Hok as [|? ? Hx Hb]; subst.
    rewrite (one_head _ _ _ x (b ++ r)%list Hr Hx). cbv beta.
    replace (pos s <? pos (advance s x (b ++ r)%list)) with true
      by (symmetry; apply Nat.ltb_lt; simpl; lia).
    rewrite after_cons in Hk.
    assert (G : star_loop step k fuel (advance s x (b ++ r)%list) <> None).
    { apply (IH _ k r); [reflexivity|exact Hb|simpl in Hf; lia|exact Hk]. }
    destruct (star_loop step k fuel (advance s x (b ++ r)%list));
      [discriminate|congruence].
Qed.

Lemma scan_reaches ic re a r : forall p i,
  (forall p' i', match_at ic re p' r i' <> None) ->
  scan ic re p (a ++ r) i <> None.
Proof.
  induction a as [|c a IH]; intros p i H.
  - simpl. destruct r; simpl.
    + specialize (H p i). destruct (match_at ic re p [] i); congruence.
    + specialize (H p i). destruct (match_at ic re p (a :: r) i); [discriminate|congruence].
  - simpl. destruct (match_at ic re p (c :: a ++ r) i); [discriminate|].
    now apply IH.
Qed.

Lemma not_newline_ok b :
  ~ In newline b ->
  Forall (fun c => negb (Ascii.eqb c newline) = true) b.
Proof.
  intros H. apply Forall_forall. intros c Hc.
  destruct (Ascii.eqb c newline) eqn:E; [|reflexivity].
  apply Ascii.eqb_eq in E. subst. contradiction.
Qed.

(** After the verb: any text, a dollar sign and a name. *)
Lemma variable_after_verb s0 s b w c :
  rest s = (b ++ "$"%char :: w :: c)%list -> ~ In newline b ->
  is_word w = true ->
  run true (Seqs [Star Dot; Chr "$"; Plus w_]) (capture 1 s0 s) Some <> None.
Proof.
  intros Hr Hn Hw. cbn [Seqs run].
  apply (star_one_reaches _ _ b (fun s k => eq_refl) _ _ ("$"%char :: w :: c));
    [exact Hr|now apply not_newline_ok|cbn [capture rest]; rewrite Hr, length_app; simpl; lia|].
  unfold Plus, w_. cbv beta. cbn [run].
  rewrite (one_head _ _ _ "$"%char (w :: c)) by reflexivity.
  cbv beta.
  rewrite (one_head _ _ _ w c);
    [|reflexivity|unfold in_set; cbn; rewrite Hw; reflexivity].
  apply star_loop_total. discriminate.
Qed.

Lemma first_sql_pattern_at p verb v b w c i :
  In verb sql_verbs ->
  map to_lower v = map to_lower (list_ascii_of_string verb) ->
  is_word w = true -> ~ In newline b ->
  match_at true (nth 0 sql_patterns Eps) p (v ++ b ++ "$"%char :: w :: c) i
  <> None.
Proof.
  intros Hverb Hv Hw Hn. unfold match_at.
  set (s0 := MState p (v ++ b ++ "$"%char :: w :: c)%list i []).
  assert (G : run true (nth 0 sql_patterns Eps) s0 Some <> None).
  { change (nth 0 sql_patterns Eps)
      with (Seq sql_verb (Seqs [Star Dot; Chr "$"; Plus w_])).
    cbn [run sql_verb].
    set (K := fun s1 : mstate =>
                run true (Seqs [Star Dot; Chr "$"; Plus w_])
                    (capture 1 s0 s1) Some).
    assert (HK : K (after s0 v (b ++ "$"%char :: w :: c)%list) <> None).
    { apply (variable_after_verb s0 _ b w c); [reflexivity|exact Hn|exact Hw]. }
    assert (Hl : forall x, x = verb -> run true (Lit x) s0 K <> None).
    { intros x ->. rewrite (lit_run verb s0 K v _ eq_refl Hv). exact HK. }
    cbn [AltLits run].
    destruct Hverb as [E|[E|[E|[E|[]]]]];
      repeat match goal with
             | |- match run true (Lit ?x) s0 K with _ => _ end <> None =>
                 let H := fresh in
                 destruct (run true (Lit x) s0 K) eqn:H;
                 [discriminate|
                  try (exfalso; exact (Hl x E H))]
             end;
      try (apply Hl; exact E). }
  destruct (run true (nth 0 sql_patterns Eps) s0 Some); [discriminate|congruence].
Qed.

Lemma concatenation_matches s :
  concatenates_variable s ->
  existsb (fun p => matches true p s) sql_patterns = true.
Proof.
  intros (a & verb & v & b & w & c & Hs & Hverb & Hv & Hw & Hn).
  assert (G : matches true (nth 0 sql_patterns Eps) s = true).
  { unfold matches, search. rewrite Hs.
    destruct (scan true (nth 0 sql_patterns Eps) None
                   (a ++ v ++ b ++ "$"%char :: w :: c) 0) eqn:E; [reflexivity|].
    exfalso. revert E. apply scan_reaches. intros p' i'.
    now apply (first_sql_pattern_at p' verb). }
  unfold sql_patterns in *. cbn [existsb nth] in *. rewrite G. reflexivity.
Qed.

(** ** The claims about single detectors *)

(** Claim C5.  A line that concatenates a variable into a SQL statement
    and holds no prepared-statement marker draws exactly one
    [sql_injection_risk] issue at its line, of severity [error], wherever
    it stands in a file; a line that holds a [?] placeholder, such as
    the rewriting with [bindParam], draws no such issue. *)
Theorem sql_injection_detector (pre post : list string)
        (line rewritten : string) :
  concatenates_variable (strip line) ->
  matches true re_prepared (strip line) = false ->
  contains "?" rewritten = true ->
  (exists issue,
      at_line (List.length pre + 1)
              (of_type "sql_injection_risk"
                       (scan_lines (pre ++ line :: post)))
      = [issue]
      /\ type issue = "sql_injection_risk"
      /\ severity issue = "error"
      /\ line_number issue = List.length pre + 1)
  /\ at_line (List.length pre + 1)
             (of_type "sql_injection_risk"
                      (scan_lines (pre ++ rewritten :: post)))
     = [].
Proof.
  intros Hc Hm Hq. split.
  - rewrite sql_at_line. unfold sql_injection_at.
    rewrite sql_loop_report by (auto using concatenation_matches).
    eexists. split; [reflexivity|]. repeat split.
  - rewrite sql_at_line. unfold sql_injection_at.
    apply sql_loop_silent, question_mark_is_prepared, strip_keeps;
      [reflexivity|exact Hq].
Qed.

Lemma sql_injection_detector_witness :
  (concatenates_variable (strip concatenated_query)
   /\ matches true re_prepared (strip concatenated_query) = false
   /\ contains "?" bound_query = true)
  /\ (exists issue,
         at_line 2 (of_type "sql_injection_risk"
                            (scan_lines [L "<?php"; concatenated_query]))
         = [issue]
         /\ type issue = "sql_injection_risk"
         /\ severity issue = "error"
         /\ line_number issue = 2)
  /\ at_line 2 (of_type "sql_injection_risk"
                        (scan_lines [L "<?php"; bound_query]))
     = [].
Proof.
  assert (H1 : concatenates_variable (strip concatenated_query)).
  { exists (list_ascii_of_string ("$sql = " ++ dq)), "SELECT",
      (list_ascii_of_string "SELECT"),
      (list_ascii_of_string (" * FROM t WHERE id = " ++ dq ++ " . ")),
      "i"%char, (list_ascii_of_string "d;").
    repeat split; try reflexivity; [now left|].
    vm_compute. intuition discriminate. }
  assert (H2 : matches true re_prepared (strip concatenated_query) = false)
    by reflexivity.
  assert (H3 : contains "?" bound_query = true) by reflexivity.
  split; [auto|].
  exact (sql_injection_detector [L "<?php"] [] concatenated_query bound_query
                                H1 H2 H3).
Defined.

(** The whole scan of the one-line file holds one such issue. *)
Example concatenated_query_alone :
  of_type "sql_injection_risk" (scan_lines [concatenated_query])
  = [sql_report [concatenated_query] 0 (strip concatenated_query)].
Proof. vm_compute. reflexivity. Qed.

(** Claim C6.  A line with a [catch] clause directly followed by a line
    that holds only a closing brace draws exactly one
    [empty_catch_block] issue of severity [error] at the line of the
    [catch]; when the line after the [catch] holds something else, such
    as a logging call, the [catch] draws none. *)
Theorem empty_catch_detector (pre post : list string)
        (catching closing body : string) :
  matches false re_catch (strip catching) = true ->
  strip closing = "}" ->
  strip body <> "}" ->
  (exists issue,
      at_line (List.length pre + 1)
              (of_type "empty_catch_block"
                       (scan_lines (pre ++ catching :: closing :: post)))
      = [issue]
      /\ type issue = "empty_catch_block"
      /\ severity issue = "error"
      /\ line_number issue = List.length pre + 1)
  /\ at_line (List.length pre + 1)
             (of_type "empty_catch_block"
                      (scan_lines (pre ++ catching :: body :: closing :: post)))
     = [].
Proof.
  intros Hc Hclose Hbody. split.
  - rewrite empty_catch_at_line. unfold empty_catch_at.
    destruct (next_line pre catching closing post) as [-> ->].
    rewrite Hc, Hclose. simpl.
    eexists. split; [reflexivity|]. repeat split.
  - rewrite empty_catch_at_line. unfold empty_catch_at.
    destruct (next_line pre catching body (closing :: post)) as [-> ->].
    rewrite Hc. apply String.eqb_neq in Hbody. rewrite Hbody. reflexivity.
Qed.

Lemma empty_catch_detector_witness :
  (matches false re_catch (strip catch_line) = true
   /\ strip closing_brace = "}"
   /\ strip logging_call <> "}")
  /\ (exists issue,
         at_line 1 (of_type "empty_catch_block"
                            (scan_lines [catch_line; closing_brace]))
         = [issue]
         /\ type issue = "empty_catch_block"
         /\ severity issue = "error"
         /\ line_number issue = 1)
  /\ at_line 1 (of_type "empty_catch_block"
                        (scan_lines [catch_line; logging_call; closing_brace]))
     = [].
Proof.
  assert (H1 : matches false re_catch (strip catch_line) = true)
    by reflexivity.
  assert (H2 : strip closing_brace = "}") by reflexivity.
  assert (H3 : strip logging_call <> "}") by (vm_compute; discriminate).
  split; [auto|].
  exact (empty_catch_detector [] [] catch_line closing_brace logging_call
                              H1 H2 H3).
Defined.

(** The whole scans of the two blocks: one report, and none. *)
Example empty_catch_alone :
  List.length (of_type "empty_catch_block"
                       (scan_lines [catch_line; closing_brace])) = 1
  /\ of_type "empty_catch_block"
             (scan_lines [catch_line; logging_call; closing_brace]) = [].
Proof. split; vm_compute; reflexivity. Qed.

(** Claim C9.  The exclusion list of [_find_naming_issues] holds the
    reserved names without their underscore, while the captured name
    keeps it: a read of [$_POST], [$_GET], [$_SESSION] or [$_SERVER] is
    reported as a naming violation of severity [info].  Only [$GLOBALS],
    which has no underscore, is spared. *)
Theorem reserved_names_reported :
  Forall (fun v =>
            exists issue,
              of_type "naming_violation" (scan_lines [reads_reserved v])
              = [issue]
              /\ severity issue = "info"
              /\ line_number issue = 1
              /\ message issue = "变量名违反约定: '\$" ++ v ++ "'")
         ["_POST"; "_GET"; "_SESSION"; "_SERVER"]
  /\ of_type "naming_violation" (scan_lines [reads_reserved "GLOBALS"]) = [].
Proof.
  split.
  - repeat constructor; eexists; (split; [vm_compute; reflexivity|]);
      repeat split.
  - vm_compute. reflexivity.
Qed.

(** Claim C2.  A declaration with five parameters draws one
    [long_parameter_list] issue, from the check inside
    [_find_long_methods] (more than 4), none from
    [_find_long_parameter_lists] (more than 5); with six parameters both
    report, so the scan holds two. *)
Theorem parameter_boundary :
  List.length (of_type "long_parameter_list" (scan_lines five_parameters)) = 1
  /\ List.length (of_type "long_parameter_list"
                          (_find_long_methods five_parameters)) = 1
  /\ _find_long_parameter_lists five_parameters = []
  /\ List.length (of_type "long_parameter_list" (scan_lines six_parameters)) = 2
  /\ List.length (of_type "long_parameter_list"
                          (_find_long_methods six_parameters)) = 1
  /\ List.length (_find_long_parameter_lists six_parameters) = 1.
Proof. repeat split; vm_compute; reflexivity. Qed.

(** ** The classifier adapter *)


Lemma any_type_intro p l i :
  In i l -> p (type i) = true -> any_type p l = true.
Proof.
  intros Hi Hp. unfold any_type. apply existsb_exists.
  exists (type i). split; [now apply in_map|exact Hp].
Qed.

Lemma any_type_all (p : string -> bool) l t :
  l <> [] -> (forall i, In i l -> type i = t) -> any_type p l = p t.
Proof.
  intros Hne Hall. unfold any_type.
  destruct l as [|x l]; [congruence|]. clear Hne.
  assert (G : forall l', (forall i, In i l' -> type i = t) ->
                         existsb p (map type l') = p t \/ l' = []).
  { induction l' as [|y l' IH]; intros H; [now right|]. left. simpl.
    rewrite (H y (or_introl eq_refl)).
    destruct (IH (fun i Hi => H i (or_intror Hi))) as [E| ->].
    - rewrite E. now destruct (p t).
    - simpl. apply orb_false_r. }
  destruct (G (x :: l) Hall) as [E|E]; [exact E|discriminate].
Qed.

(** The label and the confidence once an error-severity issue exists. *)
Lemma detect_smells_critical O predict path feats readable :
  with_severity "error" (_detect_detailed_issues readable) <> [] ->
  smell_type (detect_smells O predict path feats readable)
  = _determine_critical_smell_type
      (with_severity "error" (_detect_detailed_issues readable))
  /\ confidence (detect_smells O predict path feats readable) = 0.95%Q.
Proof.
  intros Hne. unfold detect_smells. cbv zeta.
  destruct (with_severity "error" (_detect_detailed_issues readable))
    as [|c l]; [congruence|]. split; reflexivity.
Qed.


(** The sample holds one error and five warnings. *)
Example unsafe_file_severities :
  map severity (scan_lines unsafe_file)
  = ["error"; "warning"; "warning"; "warning"; "warning"; "warning"].
Proof. vm_compute. reflexivity. Qed.

(** Claim C3.  When the error-severity issues of a scan all have the
    type [query_in_loop], the label is [logic_errors]: the test for
    [loop] in the second branch of [_determine_critical_smell_type] holds
    for [query_in_loop] and is met before the branch written for it. *)
Theorem query_in_loop_label
        (O : SetOrder) (predict : CodeFeatures -> string * Q) (path : string)
        (feats : CodeFeatures) (lines : list string) :
  with_severity "error" (scan_lines lines) <> [] ->
  (forall i, In i (with_severity "error" (scan_lines lines)) ->
             type i = "query_in_loop") ->
  smell_type (detect_smells O predict path feats (Some lines)) = "logic_errors".
Proof.
  intros Hne Hall.
  destruct (detect_smells_critical O predict path feats (Some lines) Hne)
    as [Hl _].
  rewrite Hl. unfold _determine_critical_smell_type. simpl _detect_detailed_issues.
  rewrite !(any_type_all _ _ "query_in_loop" Hne Hall). reflexivity.
Qed.

Lemma query_in_loop_label_witness :
  (with_severity "error" (scan_lines query_loop_file) <> []
   /\ forall i, In i (with_severity "error" (scan_lines query_loop_file)) ->
                type i = "query_in_loop")
  /\ smell_type (detect_smells last_seen_order says_clean "loop.php"
                               quiet_profile (Some query_loop_file))
     = "logic_errors".
Proof.
  assert (H1 : with_severity "error" (scan_lines query_loop_file) <> [])
    by (vm_compute; discriminate).
  assert (H2 : forall i,
             In i (with_severity "error" (scan_lines query_loop_file)) ->
             type i = "query_in_loop").
  { intros i Hi. vm_compute in Hi. destruct Hi as [<-|[]]. reflexivity. }
  split; [split; assumption|].
  exact (query_in_loop_label last_seen_order says_clean "loop.php"
                             quiet_profile query_loop_file H1 H2).
Defined.

Lemma scan_types lines : types_in all_types (scan_lines lines).
Proof.
  assert (W : forall ts l, types_in ts l -> incl ts all_types ->
                           types_in all_types l).
  { intros ts l H Hi i Hin. apply Hi, H, Hin. }
  unfold scan_lines.
  repeat apply types_in_app;
    [ apply (W _ _ (long_methods_types lines))
    | apply (W _ _ (complex_types lines))
    | apply (W _ _ (long_parameter_lists_types lines))
    | apply (W _ _ (naming_types lines))
    | apply (W _ _ (uncommented_types lines))
    | apply (W _ _ (sql_types lines))
    | apply (W _ _ (security_types lines))
    | apply (W _ _ (code_quality_types lines))
    | apply (W _ _ (logic_errors_types lines))
    | apply (W _ _ (performance_types lines)) ];
    intros t Ht; simpl in Ht; simpl; tauto.
Qed.

(** No scan leads to the label [performance_issues] through its
    error-severity issues: every tag that meets the fourth test of
    [_determine_critical_smell_type] meets the second one. *)
Lemma performance_label_unreachable lines :
  _determine_critical_smell_type (with_severity "error" (scan_lines lines))
  <> "performance_issues".
Proof.
  set (errs := with_severity "error" (scan_lines lines)).
  assert (Ht : types_in all_types errs).
  { intros i Hi. apply (scan_types lines). unfold errs, with_severity in Hi.
    apply filter_In in Hi. tauto. }
  unfold _determine_critical_smell_type.
  destruct (any_type _ errs); [discriminate|].
  destruct (any_type (fun t => contains "infinite" t || contains "loop" t) errs)
    eqn:E2; [discriminate|].
  destruct (any_type (fun t => contains "empty_catch" t) errs);
    [discriminate|].
  destruct (any_type (fun t => contains "performance" t
                               || contains "query_in_loop" t) errs) eqn:E4;
    [|discriminate].
  exfalso. unfold any_type in E4. apply existsb_exists in E4.
  destruct E4 as [t [Hin Hp]]. apply in_map_iff in Hin.
  destruct Hin as [i [<- Hi]].
  assert (Hl : (contains "infinite" (type i) || contains "loop" (type i))
               = true).
  { pose proof (Ht i Hi) as Hty. revert Hp. generalize (type i) Hty.
    intros t Hty'. simpl in Hty'.
    repeat (destruct Hty' as [<-|Hty'];
            [first [reflexivity | intros Hp; vm_compute in Hp; discriminate]|]).
    destruct Hty'. }
  rewrite (any_type_intro _ _ i Hi Hl) in E2. discriminate.
Qed.

(** ** The nesting detector on a method of nested blocks *)

Lemma indent_app k s t : (indent k s ++ t)%string = indent k (s ++ t)%string.
Proof. induction k as [|k IH]; simpl; [reflexivity|now rewrite IH]. Qed.

Lemma lstrip_indent k s : lstrip (indent k s) = lstrip s.
Proof. induction k as [|k IH]; [reflexivity|exact IH]. Qed.

Lemma strip_at_depth text d : strip (at_depth text d) = strip (L text).
Proof. unfold strip, at_depth, L. now rewrite indent_app, lstrip_indent. Qed.

(** What one line does to the counter depends on the three tests of
    its stripped text. *)
Ltac line_tests D B C :=
  unfold declares, branches, closes in *;
  cbv beta iota zeta delta [cm_step];
  try rewrite D; try rewrite B; try rewrite C.

(** Outside a method, a line that declares none changes nothing. *)
Lemma cm_outside lines i st l :
  declares l = None -> in_method st = false -> cm_step lines st (i, l) = st.
Proof. intros D H. line_tests D D D. now rewrite H. Qed.

(** The line of the declaration opens the method. *)
Lemma cm_declared lines i st l m :
  declares l = Some m -> branches l = false -> closes l = false ->
  in_method st = false ->
  cm_step lines st (i, l) = CM true i (grp 1 m) 0 0 (cm_issues st).
Proof. intros D B C H. line_tests D B C. rewrite H. reflexivity. Qed.

(** Inside a method, a declaration is not looked at: a line with a
    branching keyword adds one to the counter, a line without one and
    without a brace at its start changes nothing. *)
Lemma cm_branch lines i start name mx cur iss l :
  branches l = true -> closes l = false ->
  cm_step lines (CM true start name mx cur iss) (i, l)
  = CM true start name (Nat.max mx (cur + 1)) (cur + 1) iss.
Proof.
  intros B C. line_tests B B C.
  destruct (search true re_method_open (strip l)); reflexivity.
Qed.

Lemma cm_plain lines i start name mx cur iss l :
  branches l = false -> closes l = false ->
  cm_step lines (CM true start name mx cur iss) (i, l)
  = CM true start name mx cur iss.
Proof.
  intros B C. line_tests B B C.
  destruct (search true re_method_open (strip l)); reflexivity.
Qed.

(** A closing line inside a method, with [cur] blocks open. *)
Lemma cm_close_inner lines i start name mx cur iss l :
  closes l = true -> branches l = false -> 2 <= cur ->
  cm_step lines (CM true start name mx cur iss) (i, l)
  = CM true start name mx (cur - 1) iss.
Proof.
  intros C B H. line_tests B B C.
  destruct (search true re_method_open (strip l));
    cbn [in_method current_nesting cm_method_start cm_method_name max_nesting
         cm_issues andb negb Nat.max];
    (destruct (cur - 1 =? 0) eqn:E; [apply Nat.eqb_eq in E; lia|reflexivity]).
Qed.

(** The closing line that brings the counter back to zero ends the
    method and reports it when the counter had passed 4. *)
Lemma cm_close_last lines i start name mx cur iss l :
  closes l = true -> branches l = false -> cur <= 1 ->
  cm_issues (cm_step lines (CM true start name mx cur iss) (i, l))
  = (iss ++ if 4 <? mx then [complexity_report lines start name mx] else [])%list
  /\ in_method (cm_step lines (CM true start name mx cur iss) (i, l)) = false.
Proof.
  intros C B H. line_tests B B C.
  destruct (search true re_method_open (strip l));
    cbn [in_method current_nesting cm_method_start cm_method_name max_nesting
         cm_issues andb negb Nat.max];
    replace (cur - 1) with 0 by lia; cbn [Nat.eqb]; split; reflexivity.
Qed.

Lemma fold_outside lines ls k st :
  Forall (fun l => declares l = None) ls -> in_method st = false ->
  fold_left (cm_step lines) (enumerate_from k ls) st = st.
Proof.
  intros Hall H. revert k.
  induction Hall as [|l ls Hl _ IH]; intros k; [reflexivity|].
  cbn [enumerate_from fold_left]. rewrite (cm_outside _ _ _ _ Hl H). apply IH.
Qed.

Lemma fold_branches lines ifs k start name mx cur iss :
  Forall (fun l => branches l = true /\ closes l = false) ifs -> cur <= mx ->
  fold_left (cm_step lines) (enumerate_from k ifs)
            (CM true start name mx cur iss)
  = CM true start name (Nat.max mx (cur + List.length ifs))
       (cur + List.length ifs) iss.
Proof.
  intros Hall. revert k mx cur.
  induction Hall as [|l ifs [B C] _ IH]; intros k mx cur H;
    cbn [enumerate_from fold_left List.length].
  - f_equal; lia.
  - rewrite (cm_branch _ _ _ _ _ _ _ _ B C), IH by lia. f_equal; lia.
Qed.

Lemma fold_plain lines body k st :
  Forall (fun l => branches l = false /\ closes l = false) body ->
  in_method st = true ->
  fold_left (cm_step lines) (enumerate_from k body) st = st.
Proof.
  intros Hall H. revert k.
  induction Hall as [|l body [B C] _ IH]; intros k; [reflexivity|].
  cbn [enumerate_from fold_left]. destruct st as [inm start name mx cur iss].
  cbn [in_method] in H. subst inm.
  rewrite (cm_plain _ _ _ _ _ _ _ _ B C). apply IH.
Qed.

(** Closing lines take the counter down; the one that reaches zero
    ends the method, and the lines after it are outside. *)
Lemma fold_closing lines closing k start name mx cur iss :
  Forall (fun l => closes l = true /\ branches l = false
                   /\ declares l = None) closing ->
  Nat.max cur 1 <= List.length closing ->
  exists st,
    fold_left (cm_step lines) (enumerate_from k closing)
              (CM true start name mx cur iss) = st
    /\ in_method st = false
    /\ cm_issues st
       = (iss ++ if 4 <? mx then [complexity_report lines start name mx]
                 else [])%list.
Proof.
  intros Hall. revert k cur.
  induction Hall as [|l closing (C & B & D) Hall IH]; intros k cur H;
    cbn [List.length] in H; [lia|].
  cbn [enumerate_from fold_left].
  destruct (le_lt_dec cur 1) as [Hc|Hc].
  - destruct (cm_close_last lines k start name mx cur iss l C B Hc)
      as [Hi Hm].
    eexists. split; [reflexivity|].
    rewrite fold_outside;
      [auto
      |apply Forall_forall; intros x Hx; rewrite Forall_forall in Hall;
       apply (Hall x Hx)
      |exact Hm].
  - rewrite (cm_close_inner _ _ _ _ _ _ _ _ C B) by lia.
    apply IH. lia.
Qed.

(** The pass over a file with one method. *)
Lemma method_file_complex before decl ifs body closing after m :
  Forall (fun l => declares l = None) before ->
  declares decl = Some m -> branches decl = false -> closes decl = false ->
  Forall (fun l => branches l = true /\ closes l = false) ifs ->
  Forall (fun l => branches l = false /\ closes l = false) body ->
  Forall (fun l => closes l = true /\ branches l = false
                   /\ declares l = None) closing ->
  Nat.max (List.length ifs) 1 <= List.length closing ->
  Forall (fun l => declares l = None) after ->
  _find_complex_methods (method_file before decl ifs body closing after)
  = if 4 <? List.length ifs
    then [complexity_report
            (method_file before decl ifs body closing after)
            (List.length before) (grp 1 m) (List.length ifs)]
    else [].
Proof.
  intros Hb D B C Hi Hy Hc Hn Ha.
  unfold _find_complex_methods, enumerate.
  set (lines := method_file before decl ifs body closing after).
  unfold method_file in lines.
  unfold lines at 2.
  rewrite enumerate_from_app, fold_left_app.
  rewrite (fold_outside lines before 0 cm_init Hb eq_refl).
  cbn [enumerate_from fold_left Nat.add].
  rewrite (cm_declared lines _ cm_init decl m D B C eq_refl).
  cbn [cm_issues cm_init].
  rewrite enumerate_from_app, fold_left_app.
  rewrite (fold_branches lines ifs _ _ _ 0 0 [] Hi (Nat.le_refl 0)).
  cbn [Nat.add]. rewrite Nat.max_0_l.
  rewrite enumerate_from_app, fold_left_app.
  rewrite (fold_plain lines body) by first [exact Hy|reflexivity].
  rewrite enumerate_from_app, fold_left_app.
  match goal with
  | |- context [fold_left (cm_step lines) (enumerate_from ?k closing) _] =>
      destruct (fold_closing lines closing k (List.length before) (grp 1 m)
                             (List.length ifs) (List.length ifs) [] Hc Hn)
        as (st & E & Hm & Hs)
  end.
  rewrite E, (fold_outside lines after _ st Ha Hm). exact Hs.
Qed.

(** The nesting of [nested_ifs n] is [n]. *)

Lemma walk_indent br k s opened deepest :
  walk_braces br (indent k s) opened deepest = walk_braces br s opened deepest.
Proof. induction k as [|k IH]; [reflexivity|exact IH]. Qed.

Lemma walk_at_depth text d st :
  walk_line st (at_depth text d) = walk_line st (L text).
Proof.
  unfold walk_line. rewrite strip_at_depth. unfold at_depth, L.
  now rewrite indent_app, walk_indent.
Qed.

Lemma walk_ifs ds : forall k,
  fold_left walk_line (map (at_depth if_text) ds) (repeat true k ++ [false], k)%list
  = (repeat true (List.length ds + k) ++ [false], List.length ds + k)%list.
Proof.
  induction ds as [|d ds IH]; intros k; [reflexivity|].
  cbn [map fold_left List.length]. rewrite walk_at_depth.
  replace (walk_line (repeat true k ++ [false], k)%list (L if_text))
    with (repeat true (S k) ++ [false], S k)%list.
  - rewrite IH.
    replace (List.length ds + S k) with (S (List.length ds) + k) by lia.
    reflexivity.
  - unfold walk_line.
    replace (matches true re_branch (strip (L if_text))) with true
      by (vm_compute; reflexivity).
    cbn. f_equal.
    rewrite filter_app. cbn. rewrite length_app. cbn.
    assert (H : filter id (repeat true k) = repeat true k).
    { clear. induction k; simpl; congruence. }
    rewrite H, repeat_length. lia.
Qed.

Lemma walk_closes ds : forall k m,
  List.length ds <= k ->
  fold_left walk_line (map (at_depth close_text) ds)
            (repeat true k ++ [false], m)%list
  = (repeat true (k - List.length ds) ++ [false], m)%list.
Proof.
  induction ds as [|d ds IH]; intros k m H.
  - cbn. now rewrite Nat.sub_0_r.
  - cbn [map fold_left List.length] in *. rewrite walk_at_depth.
    destruct k as [|k]; [lia|].
    replace (walk_line (repeat true (S k) ++ [false], m)%list (L close_text))
      with (repeat true k ++ [false], m)%list by reflexivity.
    rewrite IH by lia. reflexivity.
Qed.

Lemma nested_ifs_nesting n : branch_nesting (nested_ifs n) = n.
Proof.
  unfold branch_nesting, nested_ifs. cbn [fold_left].
  rewrite walk_at_depth.
  replace (walk_line ([], 0) (L open_text)) with (repeat true 0 ++ [false], 0)%list
    by reflexivity.
  rewrite fold_left_app, walk_ifs. cbn [fold_left].
  rewrite walk_at_depth.
  replace (walk_line (repeat true (List.length (seq 1 n) + 0) ++ [false],
                      List.length (seq 1 n) + 0)%list (L body_text))
    with (repeat true (List.length (seq 1 n) + 0) ++ [false],
          List.length (seq 1 n) + 0)%list by reflexivity.
  rewrite fold_left_app, walk_closes by (rewrite length_rev; lia).
  cbn [fold_left]. rewrite walk_at_depth.
  rewrite length_rev, length_seq. replace (n + 0 - n) with 0 by lia.
  replace (n + 0) with n by lia. reflexivity.
Qed.

(** Claim C4, as amended.  In a file with one method, made of the line
    of its declaration, [n] lines with a branching keyword, body lines
    without one, and at least [max n 1] closing lines, where only the
    closing lines start with a brace and no other line of the file
    declares a method, the scan reports exactly one [complex_method]
    issue, of severity [error], at the line of the declaration and with
    the name of the method, when [n] is 5 or more, and none when [n] is
    4 or fewer. *)
Theorem nesting_detector
        (before : list string) (decl : string)
        (ifs body closing after : list string) (m : mobj) :
  Forall (fun l => declares l = None) before ->
  declares decl = Some m -> branches decl = false -> closes decl = false ->
  Forall (fun l => branches l = true /\ closes l = false) ifs ->
  Forall (fun l => branches l = false /\ closes l = false) body ->
  Forall (fun l => closes l = true /\ branches l = false
                   /\ declares l = None) closing ->
  Nat.max (List.length ifs) 1 <= List.length closing ->
  Forall (fun l => declares l = None) after ->
  of_type "complex_method"
          (scan_lines (method_file before decl ifs body closing after))
  = (if 4 <? List.length ifs
     then [complexity_report
             (method_file before decl ifs body closing after)
             (List.length before) (grp 1 m) (List.length ifs)]
     else [])
  /\ severity (complexity_report
                 (method_file before decl ifs body closing after)
                 (List.length before) (grp 1 m) (List.length ifs))
     = "error"
  /\ line_number (complexity_report
                    (method_file before decl ifs body closing after)
                    (List.length before) (grp 1 m) (List.length ifs))
     = List.length before + 1.
Proof.
  intros Hb D B C Hi Hy Hc Hn Ha.
  rewrite scan_complex_method.
  rewrite (method_file_complex before decl ifs body closing after m
             Hb D B C Hi Hy Hc Hn Ha).
  split; [reflexivity|split; reflexivity].
Qed.

Ltac tests_hold :=
  repeat (constructor; [vm_compute; auto|]); constructor.

Lemma nesting_detector_witness :
  (Forall (fun l => declares l = None) handler_before
   /\ declares handler_decl = Some (MObj 7 23 [(1, "handle")])
   /\ branches handler_decl = false /\ closes handler_decl = false
   /\ Forall (fun l => branches l = true /\ closes l = false) handler_ifs
   /\ Forall (fun l => branches l = false /\ closes l = false) handler_body
   /\ Forall (fun l => closes l = true /\ branches l = false
                       /\ declares l = None) handler_closing
   /\ Nat.max (List.length handler_ifs) 1 <= List.length handler_closing
   /\ Forall (fun l => declares l = None) handler_after)
  /\ of_type "complex_method"
             (scan_lines (method_file handler_before handler_decl handler_ifs
                                      handler_body handler_closing
                                      handler_after))
     = (if 4 <? List.length handler_ifs
        then [complexity_report
                (method_file handler_before handler_decl handler_ifs
                             handler_body handler_closing handler_after)
                (List.length handler_before)
                (grp 1 (MObj 7 23 [(1, "handle")]))
                (List.length handler_ifs)]
        else [])
  /\ severity (complexity_report
                 (method_file handler_before handler_decl handler_ifs
                              handler_body handler_closing handler_after)
                 (List.length handler_before)
                 (grp 1 (MObj 7 23 [(1, "handle")]))
                 (List.length handler_ifs))
     = "error"
  /\ line_number (complexity_report
                    (method_file handler_before handler_decl handler_ifs
                                 handler_body handler_closing handler_after)
                    (List.length handler_before)
                    (grp 1 (MObj 7 23 [(1, "handle")]))
                    (List.length handler_ifs))
     = List.length handler_before + 1.
Proof.
  assert (H1 : Forall (fun l => declares l = None) handler_before)
    by tests_hold.
  assert (H2 : declares handler_decl = Some (MObj 7 23 [(1, "handle")]))
    by (vm_compute; reflexivity).
  assert (H3 : branches handler_decl = false) by (vm_compute; reflexivity).
  assert (H4 : closes handler_decl = false) by (vm_compute; reflexivity).
  assert (H5 : Forall (fun l => branches l = true /\ closes l = false)
                      handler_ifs) by tests_hold.
  assert (H6 : Forall (fun l => branches l = false /\ closes l = false)
                      handler_body) by tests_hold.
  assert (H7 : Forall (fun l => closes l = true /\ branches l = false
                                /\ declares l = None) handler_closing)
    by tests_hold.
  assert (H8 : Nat.max (List.length handler_ifs) 1
               <= List.length handler_closing) by (simpl; lia).
  assert (H9 : Forall (fun l => declares l = None) handler_after)
    by tests_hold.
  split; [repeat (split; [assumption|]); assumption|].
  exact (nesting_detector handler_before handler_decl handler_ifs
           handler_body handler_closing handler_after
           (MObj 7 23 [(1, "handle")]) H1 H2 H3 H4 H5 H6 H7 H8 H9).
Defined.

(** The method of the sample is reported once, at line 3, with the
    counter at 5. *)
Example handler_reported :
  map (fun x => (line_number x, severity x, message x))
      (of_type "complex_method"
         (scan_lines (method_file handler_before handler_decl handler_ifs
                                  handler_body handler_closing
                                  handler_after)))
  = [(3, "error", "方法 'handle' 嵌套过深 (最大嵌套层次: 5)")].
Proof. vm_compute. reflexivity. Qed.

(** On the method of [n] nested [if] blocks, the counter of the
    detector is the nesting: it is reported from 5 blocks on. *)
Lemma nested_ifs_complex n :
  branch_nesting (nested_ifs n) = n
  /\ _find_complex_methods (nested_ifs n)
     = if 4 <? n then [nesting_report n] else [].
Proof.
  split; [apply nested_ifs_nesting|].
  assert (Hlen : List.length (map (at_depth if_text) (seq 1 n)) = n)
    by (now rewrite length_map, length_seq).
  assert (E : nested_ifs n
              = method_file [] (at_depth open_text 0)
                  (map (at_depth if_text) (seq 1 n))
                  [at_depth body_text (S n)]
                  (map (at_depth close_text) (rev (seq 1 n))
                   ++ [at_depth close_text 0])%list
                  []).
  { unfold nested_ifs, method_file. cbn [app].
    now rewrite app_nil_r. }
  rewrite E at 1.
  rewrite (method_file_complex [] (at_depth open_text 0) _ _ _ []
             (MObj 0 11 [(1, "f")])).
  - rewrite Hlen, <- E. reflexivity.
  - constructor.
  - unfold declares. rewrite strip_at_depth. vm_compute. reflexivity.
  - unfold branches. rewrite strip_at_depth. vm_compute. reflexivity.
  - unfold closes. rewrite strip_at_depth. vm_compute. reflexivity.
  - apply Forall_forall. intros l Hl. apply in_map_iff in Hl.
    destruct Hl as (d & <- & _). unfold branches, closes.
    rewrite strip_at_depth. split; vm_compute; reflexivity.
  - constructor; [|constructor]. unfold branches, closes.
    rewrite strip_at_depth. split; vm_compute; reflexivity.
  - assert (G : forall d, closes (at_depth close_text d) = true
                          /\ branches (at_depth close_text d) = false
                          /\ declares (at_depth close_text d) = None).
    { intros d. unfold closes, branches, declares. rewrite strip_at_depth.
      repeat split; vm_compute; reflexivity. }
    apply Forall_app. split; [|constructor; [apply G|constructor]].
    apply Forall_forall. intros l Hl. apply in_map_iff in Hl.
    destruct Hl as (d & <- & _). apply G.
  - rewrite Hlen, length_app, length_map, length_rev, length_seq. simpl. lia.
  - constructor.
Qed.

(** Claim C4, as stated, fails: [shallow_method] never has more than
    one branch open, and the scan reports it as a complex method. *)
Lemma shallow_method_reported :
  branch_nesting shallow_method = 1
  /\ exists issue,
       of_type "complex_method" (scan_lines shallow_method) = [issue]
       /\ severity issue = "error"
       /\ line_number issue = 1.
Proof.
  split; [vm_compute; reflexivity|].
  eexists. split; [vm_compute; reflexivity|]. split; reflexivity.
Qed.

(** So does a method of four nested [if] blocks whose body holds the
    word [if] in a text: the counter reaches 5. *)
Example keyword_in_text_counts :
  branch_nesting
    (firstn 5 (nested_ifs 4) ++ [L "echo 'what if';"] ++ skipn 6 (nested_ifs 4))
  = 4
  /\ List.length
       (of_type "complex_method"
          (scan_lines (firstn 5 (nested_ifs 4) ++ [L "echo 'what if';"]
                       ++ skipn 6 (nested_ifs 4))))
     = 1.
Proof. split; vm_compute; reflexivity. Qed.

(** ** Suggestions *)







(** ** [parse_file] *)

(** An exception of [subprocess.run] that the handler does not list
    leaves [parse_file], whatever the file. *)
Lemma parse_file_escapes O w file_path e :
  php w file_path = Fails e -> caught e = false ->
  parse_file O w file_path = Raise e.
Proof.
  intros P C. unfold parse_file, parse_file_try, subprocess_run.
  rewrite P, C. reflexivity.
Qed.

(** The second call of the fallback parser, in the handler, gives what
    the first gave. *)
Lemma simple_parse_again O w file_path :
  match _simple_parse O w file_path with
  | Return r => Return r
  | Raise e => if caught e then _simple_parse O w file_path else Raise e
  end = _simple_parse O w file_path.
Proof.
  destruct (_simple_parse O w file_path) as [r|e] eqn:E; [reflexivity|].
  destruct (caught e); reflexivity.
Qed.

(** With a launch that the handler covers, [parse_file] returns the
    facts of the backend when there are some, and otherwise does what
    the fallback parser does. *)
Lemma parse_file_answered O w file_path r :
  backend_facts w file_path = Some r -> parse_file O w file_path = Return r.
Proof.
  unfold backend_facts, parse_file, parse_file_try.
  destruct (subprocess_run w file_path) as [[rc out]|e]; [|discriminate].
  destruct (rc =? 0)%Z; [|discriminate]. cbn [negb].
  intros ->. reflexivity.
Qed.

Lemma parse_file_fallback O w file_path :
  launches w file_path = true -> backend_facts w file_path = None ->
  parse_file O w file_path = _simple_parse O w file_path.
Proof.
  unfold launches, backend_facts, parse_file, parse_file_try, subprocess_run.
  destruct (php w file_path) as [| |e|]; cbn [caught].
  - reflexivity.
  - reflexivity.
  - intros -> _. reflexivity.
  - intros _.
    destruct (file w file_path) as [|e|content];
      [intros _; apply simple_parse_again| |];
      destruct (tokenizer w _) as [rc out];
      (destruct (rc =? 0)%Z; cbn [negb];
       [intros ->; reflexivity|intros _; apply simple_parse_again]).
Qed.

(** When the backend is not installed, runs out of time, fails to
    start, leaves with a non-zero code or prints what [json.loads]
    refuses, it gives no facts. *)
Lemma backend_silent w file_path (about : option string) :
  match file w file_path with
  | Missing => True
  | Unreadable _ => about = None
  | Readable content => about = Some content
  end ->
  php w file_path = NotInstalled
  \/ php w file_path = TimesOut
  \/ (exists e, php w file_path = Fails e)
  \/ fst (tokenizer w about) <> 0%Z
  \/ json_loads w (snd (tokenizer w about)) = None ->
  backend_facts w file_path = None.
Proof.
  intros A H. unfold backend_facts, subprocess_run.
  destruct (php w file_path) as [| |e|] eqn:P; try reflexivity.
  destruct H as [H|[H|[[e H]|H]]]; try discriminate.
  destruct (file w file_path) as [|e|content]; [reflexivity| |]; subst about;
    destruct (tokenizer w _) as [rc out]; cbn [fst snd] in H;
    (destruct (rc =? 0)%Z eqn:E; [|reflexivity]);
    apply Z.eqb_eq in E; destruct H as [H|H]; [contradiction|exact H
                                              |contradiction|exact H].
Qed.

Lemma backend_silent_on_missing w file_path :
  file w file_path = Missing -> backend_facts w file_path = None.
Proof.
  intros F. unfold backend_facts, subprocess_run. rewrite F.
  destruct (php w file_path); reflexivity.
Qed.

(** Claim C8, as amended.  When the launch of the interpreter raises
    nothing that the handler does not list: [parse_file] raises
    [FileNotFoundError] on a path that does not exist, and only when
    [open] raises it.  On a file that can be read it returns a fact set;
    the fact set is that of the fallback parser whenever the interpreter
    is not installed, runs out of its 30 seconds, fails to start, leaves
    with a non-zero code, or prints what [json.loads] refuses.  On a
    path that exists and cannot be opened, the error of [open] leaves
    [parse_file] in each of these cases. *)
Theorem parse_file_outcomes (O : SetOrder) (w : world) (file_path : string) :
  launches w file_path = true ->
  (file w file_path = Missing ->
   parse_file O w file_path = Raise FileNotFoundError)
  /\ (parse_file O w file_path = Raise FileNotFoundError ->
      read_file w file_path = Raise FileNotFoundError)
  /\ (forall content, file w file_path = Readable content ->
        (exists facts, parse_file O w file_path = Return facts)
        /\ (php w file_path = NotInstalled
            \/ php w file_path = TimesOut
            \/ (exists e, php w file_path = Fails e)
            \/ fst (tokenizer w (Some content)) <> 0%Z
            \/ json_loads w (snd (tokenizer w (Some content))) = None ->
            parse_file O w file_path = Return (simple_parse_text O content)))
  /\ (forall e, file w file_path = Unreadable e ->
        php w file_path = NotInstalled
        \/ php w file_path = TimesOut
        \/ (exists e', php w file_path = Fails e')
        \/ fst (tokenizer w None) <> 0%Z
        \/ json_loads w (snd (tokenizer w None)) = None ->
        parse_file O w file_path = Raise e).
Proof.
  intros Hl.
  assert (Hfall : backend_facts w file_path = None ->
                  parse_file O w file_path = _simple_parse O w file_path)
    by (apply parse_file_fallback; exact Hl).
  split; [|split; [|split]].
  - intros F. rewrite Hfall by (now apply backend_silent_on_missing).
    unfold _simple_parse, read_file. now rewrite F.
  - destruct (backend_facts w file_path) as [r|] eqn:B.
    + rewrite (parse_file_answered O w file_path r B). discriminate.
    + rewrite (Hfall eq_refl). unfold _simple_parse.
      destruct (read_file w file_path) as [content|e]; [discriminate|].
      intros H. injection H as ->. reflexivity.
  - intros content F. split.
    + destruct (backend_facts w file_path) as [r|] eqn:B.
      * exists r. now apply parse_file_answered.
      * exists (simple_parse_text O content). rewrite (Hfall eq_refl).
        unfold _simple_parse, read_file. now rewrite F.
    + intros H. rewrite Hfall.
      * unfold _simple_parse, read_file. now rewrite F.
      * apply (backend_silent w file_path (Some content)); [now rewrite F|].
        exact H.
  - intros e F H. rewrite Hfall.
    + unfold _simple_parse, read_file. now rewrite F.
    + apply (backend_silent w file_path None); [now rewrite F|exact H].
Qed.

Lemma parse_file_outcomes_witness :
  launches bare_world "locked.php" = true
  /\ (file bare_world "locked.php" = Missing ->
      parse_file last_seen_order bare_world "locked.php"
      = Raise FileNotFoundError)
  /\ (parse_file last_seen_order bare_world "locked.php"
      = Raise FileNotFoundError ->
      read_file bare_world "locked.php" = Raise FileNotFoundError)
  /\ (forall content, file bare_world "locked.php" = Readable content ->
        (exists facts, parse_file last_seen_order bare_world "locked.php"
                       = Return facts)
        /\ (php bare_world "locked.php" = NotInstalled
            \/ php bare_world "locked.php" = TimesOut
            \/ (exists e, php bare_world "locked.php" = Fails e)
            \/ fst (tokenizer bare_world (Some content)) <> 0%Z
            \/ json_loads bare_world (snd (tokenizer bare_world (Some content)))
               = None ->
            parse_file last_seen_order bare_world "locked.php"
            = Return (simple_parse_text last_seen_order content)))
  /\ (forall e, file bare_world "locked.php" = Unreadable e ->
        php bare_world "locked.php" = NotInstalled
        \/ php bare_world "locked.php" = TimesOut
        \/ (exists e', php bare_world "locked.php" = Fails e')
        \/ fst (tokenizer bare_world None) <> 0%Z
        \/ json_loads bare_world (snd (tokenizer bare_world None)) = None ->
        parse_file last_seen_order bare_world "locked.php" = Raise e).
Proof.
  split; [reflexivity|].
  exact (parse_file_outcomes last_seen_order bare_world "locked.php" eq_refl).
Defined.

(** Claim C8, as stated, fails.  The file [locked.php] of [bare_world]
    exists and [parse_file] raises on it, from the [open] of the
    fallback parser.  On [guarded_world] the file [a.php] can be read,
    [php] is found and cannot be executed, and the [PermissionError] of
    [subprocess.run] leaves [parse_file]: no fallback takes place. *)
Lemma parse_file_raises_on_locked_file :
  (file bare_world "locked.php" = Unreadable PermissionError
   /\ parse_file last_seen_order bare_world "locked.php"
      = Raise PermissionError)
  /\ (file guarded_world "a.php" = Readable a_php_text
      /\ php guarded_world "a.php" = Fails PermissionError
      /\ parse_file last_seen_order guarded_world "a.php"
         = Raise PermissionError).
Proof. repeat split. Qed.

(** On [bare_world] the readable file gets the fallback facts and a
    missing path the not-found error. *)
Example parse_file_on_bare_world :
  parse_file last_seen_order bare_world "a.php"
  = Return (mkParse [mkClass "A" None [] [] 0] [] 1 3 4 [] [])
  /\ parse_file last_seen_order bare_world "nowhere.php"
     = Raise FileNotFoundError.
Proof. split; vm_compute; reflexivity. Qed.

(** ** Inheritance depth *)

Lemma cyclic_loop_never_leaves fuel :
  forall depth e, e = "A" \/ e = "B" ->
                  while_loop fuel cyclic_classes (Looping depth (Some e)) = None.
Proof.
  induction fuel as [|fuel IH]; intros depth e He; [reflexivity|].
  destruct He as [-> | ->]; cbn [while_loop]; apply IH; auto.
Qed.

(** Claim C10.  On two classes that name each other as parent, a class
    list that the fallback parser gives for [cyclic_source], the
    [while] loop of [_calculate_inheritance_depth] is still running after
    any number of steps: the function returns no value. *)
Theorem inheritance_depth_loops_on_cycle :
  (forall O, classes (simple_parse_text O cyclic_source) = cyclic_classes)
  /\ forall fuel, _calculate_inheritance_depth fuel cyclic_classes = None.
Proof.
  split.
  - intros O. vm_compute. reflexivity.
  - intros fuel. unfold _calculate_inheritance_depth.
    unfold cyclic_classes at 2. cbn [depth_loop extends].
    rewrite cyclic_loop_never_leaves by auto. reflexivity.
Qed.

(** More fuel never changes a value once the loop has left. *)
Lemma while_loop_fuel fuel classes st depth :
  while_loop fuel classes st = Some depth ->
  while_loop (S fuel) classes st = Some depth.
Proof.
  revert st. induction fuel as [|fuel IH]; intros st H.
  - destruct st; [discriminate|exact H].
  - destruct st as [d e|d]; [|exact H].
    cbn [while_loop] in H |- *. now apply IH.
Qed.

(** Without cycles the loop leaves: a chain of two parents, the second
    one outside the file, has depth 3. *)
Example inheritance_depth_of_chain :
  _calculate_inheritance_depth 3
    [ mkClass "A" (Some "B") [] [] 0; mkClass "B" (Some "C") [] [] 0;
      mkClass "D" None [] [] 0 ]
  = Some 3.
Proof. reflexivity. Qed.

(** When no class names a parent, as in every answer of the tokenizer
    script, which leaves [extends] empty, one step per class is enough. *)
Lemma inheritance_depth_without_parents classes :
  Forall (fun c => extends c = None) classes ->
  _calculate_inheritance_depth 1 classes
  = Some (match classes with [] => 0 | _ :: _ => 1 end).
Proof.
  intros H. unfold _calculate_inheritance_depth.
  assert (G : forall todo m,
             Forall (fun c => extends c = None) todo ->
             depth_loop 1 classes todo m
             = Some (match todo with [] => m | _ :: _ => Nat.max m 1 end)).
  { induction todo as [|c todo IH]; intros m Ht; [reflexivity|].
    inversion Ht as [|? ? Hc Hrest]; subst.
    cbn [depth_loop]. rewrite Hc. cbn [while_loop while_step truthy].
    rewrite (IH _ Hrest). destruct todo; [reflexivity|].
    f_equal. lia. }
  rewrite (G classes 0 H). destruct classes; reflexivity.
Qed.

Lemma inheritance_depth_without_parents_witness :
  Forall (fun c => extends c = None)
         [mkClass "A" None [] [] 0; mkClass "B" None [] [] 2]
  /\ _calculate_inheritance_depth
       1 [mkClass "A" None [] [] 0; mkClass "B" None [] [] 2]
     = Some 1.
Proof.
  assert (H : Forall (fun c => extends c = None)
                     [mkClass "A" None [] [] 0; mkClass "B" None [] [] 2])
    by (repeat constructor).
  split; [exact H|].
  exact (inheritance_depth_without_parents _ H).
Defined.

(** * Further properties of the code *)

(** ** What a successful run of the matcher has read *)

Lemma reads_refl s : reads s s [].
Proof. split; [reflexivity|simpl; lia]. Qed.

Lemma reads_trans s0 s1 s2 v1 v2 :
  reads s0 s1 v1 -> reads s1 s2 v2 -> reads s0 s2 (v1 ++ v2).
Proof.
  intros [R1 P1] [R2 P2]. split.
  - now rewrite R1, R2, app_assoc.
  - rewrite P2, P1, length_app. lia.
Qed.

Lemma one_inv ok s k m :
  one ok s k = Some m ->
  exists c t, rest s = c :: t /\ ok c = true /\ k (advance s c t) = Some m.
Proof.
  unfold one. destruct (rest s) as [|c t]; [discriminate|].
  destruct (ok c) eqn:E; [|discriminate]. intros H. now exists c, t.
Qed.

Lemma one_calls_ahead ok : calls_ahead (one ok).
Proof.
  intros s k m H. apply one_inv in H. destruct H as (c & t & Hr & _ & Hk).
  exists (advance s c t), [c]. split; [|exact Hk].
  split; [exact Hr|simpl; lia].
Qed.

Lemma star_loop_calls_ahead step fuel :
  calls_ahead step -> calls_ahead (fun s k => star_loop step k fuel s).
Proof.
  intros Hstep. induction fuel as [|fuel IH]; intros s k m H.
  - exists s, []. split; [apply reads_refl|exact H].
  - cbn [star_loop] in H.
    destruct (step s _) as [m'|] eqn:E.
    + injection H as ->. apply Hstep in E.
      destruct E as (s1 & v1 & R1 & E).
      destruct (pos s <? pos s1); [|discriminate].
      apply IH in E. destruct E as (s2 & v2 & R2 & E).
      exists s2, (v1 ++ v2)%list. split; [|exact E].
      exact (reads_trans _ _ _ _ _ R1 R2).
    + exists s, []. split; [apply reads_refl|exact H].
Qed.

Lemma run_calls_ahead ic r : calls_ahead (run ic r).
Proof.
  induction r as [|c| |neg items| | | |r1 IH1 r2 IH2|r1 IH1 r2 IH2|r1 IH1
                  |r1 IH1|n r1 IH1]; intros s k m H; cbn [run] in H.
  - exists s, []. split; [apply reads_refl|exact H].
  - now apply one_calls_ahead in H.
  - now apply one_calls_ahead in H.
  - now apply one_calls_ahead in H.
  - destruct (pos s =? 0); [|discriminate].
    exists s, []. split; [apply reads_refl|exact H].
  - destruct (at_eol s); [|discriminate].
    exists s, []. split; [apply reads_refl|exact H].
  - destruct (at_boundary s); [|discriminate].
    exists s, []. split; [apply reads_refl|exact H].
  - apply IH1 in H. destruct H as (s1 & v1 & R1 & H).
    apply IH2 in H. destruct H as (s2 & v2 & R2 & H).
    exists s2, (v1 ++ v2)%list. split; [|exact H].
    exact (reads_trans _ _ _ _ _ R1 R2).
  - destruct (run ic r1 s k) eqn:E.
    + injection H as ->. now apply IH1 in E.
    + now apply IH2 in H.
  - exact (star_loop_calls_ahead _ _ IH1 s k m H).
  - destruct (run ic r1 s k) eqn:E.
    + injection H as ->. now apply IH1 in E.
    + exists s, []. split; [apply reads_refl|exact H].
  - apply IH1 in H. destruct H as (s1 & v1 & R1 & H).
    exists (capture n s s1), v1. split; [exact R1|exact H].
Qed.

(** A sequence runs its first part, then the rest from a state ahead. *)
Lemma run_seq ic r1 r2 s k m :
  run ic (Seq r1 r2) s k = Some m ->
  exists s1 v, reads s s1 v /\ run ic r2 s1 k = Some m.
Proof. cbn [run]. apply run_calls_ahead. Qed.

Lemma run_chr ic c s k m :
  run ic (Chr c) s k = Some m ->
  exists x t, rest s = x :: t /\ chr_eq ic c x = true
              /\ k (advance s x t) = Some m.
Proof. cbn [run]. apply one_inv. Qed.

(** ** Where the matches of [finditer] lie *)

Lemma drop_prev_skipn n : forall p l, snd (drop_prev p l n) = skipn n l.
Proof.
  induction n as [|n IH]; intros p l; destruct l as [|c t]; try reflexivity.
  simpl. apply IH.
Qed.

Lemma match_at_in ic r chars p j m :
  j <= List.length chars ->
  match_at ic r p (skipn j chars) j = Some m -> match_in ic r chars j m.
Proof.
  intros Hj H. unfold match_at in H.
  destruct (run ic r (MState p (skipn j chars) j []) Some) as [s|] eqn:E;
    [|discriminate].
  injection H as <-. cbn [m_start m_end m_caps].
  pose proof (run_calls_ahead _ _ _ _ _ E) as (s1 & v & [R P] & K).
  injection K as ->. cbn [rest pos] in R, P.
  exists p, v, s. cbn [m_start m_end m_caps].
  split; [lia|]. split; [exact Hj|]. split; [exact E|]. split; [exact R|].
  split; [exact P|reflexivity].
Qed.

Lemma scan_in ic r chars : forall n i p m,
  i + n = List.length chars ->
  scan ic r p (skipn i chars) i = Some m -> match_in ic r chars i m.
Proof.
  induction n as [|n IH]; intros i p m Hi H.
  - assert (E : skipn i chars = []) by (apply skipn_all2; lia).
    rewrite E in H. cbn [scan] in H.
    destruct (match_at ic r p [] i) eqn:M; [|discriminate].
    injection H as ->. rewrite <- E in M.
    apply (match_at_in _ _ _ p); [lia|exact M].
  - destruct (skipn i chars) as [|c t] eqn:E.
    + exfalso. apply (f_equal (@List.length ascii)) in E.
      rewrite length_skipn in E. simpl in E. lia.
    + cbn [scan] in H.
      destruct (match_at ic r p (c :: t) i) eqn:M.
      * injection H as ->. rewrite <- E in M.
        apply (match_at_in _ _ _ p); [lia|exact M].
      * assert (Et : t = skipn (S i) chars).
        { replace (S i) with (1 + i) by lia.
          rewrite <- skipn_skipn, E. reflexivity. }
        rewrite Et in H. apply IH in H; [|lia].
        destruct H as (p' & v & s & H1 & H2 & H3).
        exists p', v, s. split; [lia|]. split; [exact H2|exact H3].
Qed.

Lemma finditer_from_in ic r chars : forall fuel i p m,
  i <= List.length chars ->
  In m (finditer_from fuel ic r p (skipn i chars) i) ->
  match_in ic r chars 0 m.
Proof.
  induction fuel as [|fuel IH]; intros i p m Hi H; [destruct H|].
  cbn [finditer_from] in H.
  destruct (scan ic r p (skipn i chars) i) as [m0|] eqn:Sc; [|destruct H].
  pose proof (scan_in ic r chars (List.length chars - i) i p m0
                      ltac:(lia) Sc) as M0.
  assert (M0' : match_in ic r chars 0 m0).
  { destruct M0 as (p' & v & s & H1 & H2). exists p', v, s.
    split; [lia|exact H2]. }
  destruct M0 as (p' & v & s & H1 & H2 & _ & H4 & H5 & _).
  assert (Hend : m_end m0 <= List.length chars).
  { apply (f_equal (@List.length ascii)) in H4.
    rewrite length_skipn, length_app in H4. lia. }
  destruct (drop_prev p (skipn i chars) (m_end m0 - i)) as [p1 l1] eqn:D.
  assert (El : l1 = skipn (m_end m0) chars).
  { pose proof (drop_prev_skipn (m_end m0 - i) p (skipn i chars)) as Q.
    rewrite D in Q. cbn [snd] in Q. rewrite Q, skipn_skipn.
    f_equal. lia. }
  destruct (m_start m0 <? m_end m0).
  - destruct H as [<-|H]; [exact M0'|].
    rewrite El in H. exact (IH _ _ _ Hend H).
  - destruct l1 as [|c t] eqn:L.
    + destruct H as [<-|[]]. exact M0'.
    + destruct H as [<-|H]; [exact M0'|].
      assert (Et : t = skipn (S (m_end m0)) chars).
      { replace (S (m_end m0)) with (1 + m_end m0) by lia.
        rewrite <- skipn_skipn, <- El. reflexivity. }
      rewrite Et in H. apply (IH _ _ _) in H; [exact H|].
      apply (f_equal (@List.length ascii)) in El.
      rewrite length_skipn in El. simpl in El. lia.
Qed.

Lemma finditer_in ic r content m :
  In m (finditer ic r content) ->
  match_in ic r (list_ascii_of_string content) 0 m.
Proof.
  unfold finditer. cbv zeta.
  apply (finditer_from_in ic r (list_ascii_of_string content) _ 0 None m).
  lia.
Qed.

(** ** Slices of the text *)

Lemma substring_list s : forall i n,
  list_ascii_of_string (String.substring i n s)
  = firstn n (skipn i (list_ascii_of_string s)).
Proof.
  induction s as [|c s IH]; intros i n.
  - destruct i, n; reflexivity.
  - destruct i as [|i].
    + destruct n as [|n]; [reflexivity|]. simpl. f_equal. apply (IH 0 n).
    + simpl. apply IH.
Qed.

(** The text of a match: the characters that its run read. *)
Lemma match_text ic r content m :
  match_in ic r (list_ascii_of_string content) 0 m ->
  exists p v s,
    run ic r (MState p (skipn (m_start m) (list_ascii_of_string content))
                     (m_start m) []) Some = Some s
    /\ skipn (m_start m) (list_ascii_of_string content) = (v ++ rest s)%list
    /\ list_ascii_of_string (slice content (m_start m) (m_end m)) = v
    /\ m_caps m = caps s.
Proof.
  intros (p & v & s & _ & _ & R & E & Hend & Hc).
  exists p, v, s. split; [exact R|]. split; [exact E|].
  split; [|exact Hc].
  unfold slice. rewrite substring_list, E, Hend.
  replace (m_start m + List.length v - m_start m) with (List.length v) by lia.
  rewrite firstn_app, firstn_all, Nat.sub_diag. simpl. apply app_nil_r.
Qed.

Lemma run_seq_chr ic c r2 s k m :
  run ic (Seq (Chr c) r2) s k = Some m ->
  exists x t, rest s = x :: t /\ chr_eq ic c x = true
              /\ run ic r2 (advance s x t) k = Some m.
Proof. cbn [run]. apply one_inv. Qed.

(** A character without case variants is matched by itself only. *)
Lemma chr_eq_caseless ic c x :
  is_upper c = false -> is_lower c = false ->
  chr_eq ic c x = true -> x = c.
Proof.
  intros Hu Hl. unfold chr_eq.
  destruct ic; intros H; apply Ascii.eqb_eq in H; [|now symmetry].
  unfold to_lower in H. rewrite Hu in H.
  destruct (is_upper x) eqn:Ex; [|now symmetry]. exfalso.
  assert (Hx : is_lower (ascii_of_nat (nat_of_ascii x + 32)) = true).
  { unfold is_upper in Ex. unfold is_lower.
    apply andb_true_iff in Ex. destruct Ex as [E1 E2].
    apply Nat.leb_le in E1, E2.
    rewrite nat_ascii_embedding by lia.
    apply andb_true_iff. split; apply Nat.leb_le; lia. }
  rewrite <- H in Hx. congruence.
Qed.

(** The text of a match of [function_pattern] holds both parentheses. *)
Lemma function_match_parens content m :
  In m (finditer true function_pattern content) ->
  contains "(" (slice content (m_start m) (m_end m)) = true
  /\ contains ")" (slice content (m_start m) (m_end m)) = true.
Proof.
  intros H. apply finditer_in, match_text in H.
  destruct H as (p & v & s & R & E & T & _).
  set (s0 := MState p (skipn (m_start m) (list_ascii_of_string content))
                    (m_start m) []) in *.
  change (skipn (m_start m) (list_ascii_of_string content))
    with (rest s0) in E.
  unfold function_pattern in R. cbn [Seqs] in R.
  apply run_seq in R. destruct R as (s1 & v1 & [R1 _] & R).
  apply run_seq in R. destruct R as (s2 & v2 & [R2 _] & R).
  apply run_seq in R. destruct R as (s3 & v3 & [R3 _] & R).
  apply run_seq in R. destruct R as (s4 & v4 & [R4 _] & R).
  apply run_seq_chr in R. destruct R as (x & t & R5 & X & R).
  apply run_seq in R. destruct R as (s6 & v6 & [R6 _] & R).
  apply run_chr in R. destruct R as (y & t' & R7 & Y & R).
  injection R as <-. cbn [rest advance] in E, R6.
  apply chr_eq_caseless in X; [|reflexivity|reflexivity].
  apply chr_eq_caseless in Y; [|reflexivity|reflexivity].
  subst x y.
  assert (Ev : v = (v1 ++ v2 ++ v3 ++ v4 ++ "("%char :: v6 ++ [")"%char])%list).
  { apply (app_inv_tail t'). rewrite <- E, R1, R2, R3, R4, R5, R6, R7.
    repeat rewrite <- app_assoc. simpl. repeat rewrite <- app_assoc.
    reflexivity. }
  split; apply contains_char; rewrite T, Ev;
    repeat (apply in_or_app; right); simpl; auto.
  right. apply in_or_app. right. simpl. auto.
Qed.

Lemma fallback_function_shape O content fn :
  In fn (functions (simple_parse_text O content)) ->
  1 <= parameters fn /\ fn_complexity fn = 1.
Proof.
  intros H. cbn [simple_parse_text functions] in H.
  apply in_map_iff in H. destruct H as (m & <- & H).
  apply function_match_parens in H. destruct H as [H1 H2].
  unfold function_of_match. cbv zeta. cbn [parameters fn_complexity].
  rewrite H1, H2. simpl. split; [lia|reflexivity].
Qed.

(** Every function that the fallback parser records has complexity 1
    and at least one parameter: the text of a match always holds both
    parentheses, so 1 is always added to the number of commas, also for
    an empty parameter list. *)
Theorem fallback_function_facts (O : SetOrder) (content : string) :
  Forall (fun fn => 1 <= parameters fn /\ fn_complexity fn = 1)
         (functions (simple_parse_text O content)).
Proof.
  apply Forall_forall. intros fn H.
  exact (fallback_function_shape O content fn H).
Qed.

Lemma search_in ic r s m :
  search ic r s = Some m -> match_in ic r (list_ascii_of_string s) 0 m.
Proof.
  unfold search. intros H.
  apply (scan_in ic r (list_ascii_of_string s)
                 (List.length (list_ascii_of_string s)) 0 None m);
    [lia|exact H].
Qed.

Lemma In_skipn {A : Type} (x : A) n l : In x (skipn n l) -> In x l.
Proof.
  revert l. induction n as [|n IH]; intros l H; [exact H|].
  destruct l as [|y l]; [exact H|]. right. now apply IH.
Qed.

(** A line that [re_method_sig] matches holds a closing parenthesis. *)
Lemma method_sig_closes s m :
  search true re_method_sig s = Some m -> contains ")" s = true.
Proof.
  intros H. apply search_in in H.
  destruct H as (p & v & st & _ & _ & R & _).
  set (s0 := MState p (skipn (m_start m) (list_ascii_of_string s))
                    (m_start m) []) in *.
  unfold re_method_sig in R. cbn [Seqs] in R.
  apply run_seq in R. destruct R as (s1 & v1 & [R1 _] & R).
  apply run_seq in R. destruct R as (s2 & v2 & [R2 _] & R).
  apply run_seq in R. destruct R as (s3 & v3 & [R3 _] & R).
  apply run_seq in R. destruct R as (s4 & v4 & [R4 _] & R).
  apply run_seq_chr in R. destruct R as (x & t & R5 & _ & R).
  apply run_seq in R. destruct R as (s6 & v6 & [R6 _] & R).
  apply run_chr in R. destruct R as (y & t' & R7 & Y & _).
  apply chr_eq_caseless in Y; [|reflexivity|reflexivity]. subst y.
  cbn [rest advance] in R6.
  apply contains_char. apply (In_skipn _ (m_start m)).
  change (skipn (m_start m) (list_ascii_of_string s)) with (rest s0).
  rewrite R1, R2, R3, R4, R5, R6, R7.
  repeat (apply in_or_app; right). right.
  apply in_or_app. right. now left.
Qed.

(** ** Every issue of a scan is well formed *)

Lemma enumerate_from_In {A : Type} (d : A) (l : list A) : forall k i x,
  In (i, x) (enumerate_from k l) ->
  k <= i < k + List.length l /\ nth (i - k) l d = x.
Proof.
  induction l as [|y l IH]; intros k i x H; [destruct H|].
  simpl in H. destruct H as [E|H].
  - inversion E. subst. rewrite Nat.sub_diag. simpl. split; [lia|reflexivity].
  - apply IH in H. destruct H as [H1 H2]. split; [simpl; lia|].
    replace (i - k) with (S (i - S k)) by lia. exact H2.
Qed.

Lemma first_where_range f lo hi j :
  first_where f (range lo hi) = Some j -> lo <= j < hi.
Proof.
  unfold first_where, range. intros H. apply find_some in H.
  destruct H as [H _]. apply in_seq in H. lia.
Qed.

Ltac open_report H :=
  repeat match type of H with
         | In _ (if ?c then _ else _) => destruct c eqn:?
         | In _ (match ?o with Some _ => _ | None => _ end) => destruct o eqn:?
         | In _ (let '(_, _) := ?p in _) => destruct p
         | In _ (first_in_loop _ _ _ _ _ _ _) => unfold first_in_loop in H
         | In _ [] => destruct H
         | In _ [_] => destruct H as [<-|[]]
         end.

Ltac in_catalog :=
  cbn [type severity]; unfold catalog;
  repeat (first [left; reflexivity | right]).

Ltac settle :=
  repeat match goal with
         | E : first_where _ (range _ _) = Some _ |- _ =>
             apply first_where_range in E
         end;
  split; [cbn [line_number]; lia
         |split; [in_catalog
                 |cbn [line_content line_number]; rewrite Nat.add_sub;
                  reflexivity]].

Lemma well_formed_flat_map lines (f : nat -> string -> list CodeIssue) :
  (forall i x, i < List.length lines -> In x (f i (at_ lines i)) ->
               well_formed lines x) ->
  forall x, In x (flat_map (fun il => f (fst il) (snd il)) (enumerate lines)) ->
            well_formed lines x.
Proof.
  intros Hf x H. apply in_flat_map in H. destruct H as [[i line] [Hil H]].
  apply (enumerate_from_In EmptyString) in Hil. destruct Hil as [Hi Hn].
  rewrite Nat.sub_0_r in Hn. cbn [fst snd] in H. rewrite <- Hn in H.
  apply (Hf i); [lia|exact H].
Qed.

Lemma long_methods_well_formed lines x :
  In x (_find_long_methods lines) -> well_formed lines x.
Proof.
  apply well_formed_flat_map. clear x. intros i x Hi H.
  unfold long_methods_at in H.
  destruct (search true re_method_sig (strip (at_ lines i))) eqn:S;
    [|destruct H].
  cbv zeta in H. rewrite (method_sig_closes _ _ S) in H.
  cbn [negb andb] in H. split_reports H; open_report H; settle.
Qed.

Lemma long_parameter_lists_well_formed lines x :
  In x (_find_long_parameter_lists lines) -> well_formed lines x.
Proof.
  apply well_formed_flat_map. clear x. intros i x Hi H.
  unfold long_parameter_lists_at in H.
  destruct (search true re_function_params (at_ lines i)); [|destruct H].
  cbv zeta in H. open_report H; settle.
Qed.

Lemma naming_well_formed lines x :
  In x (_find_naming_issues lines) -> well_formed lines x.
Proof.
  apply well_formed_flat_map. clear x. intros i x Hi H.
  unfold naming_issues_at in H. cbv zeta in H. split_reports H.
  - unfold naming_class_at in H. open_report H; settle.
  - unfold naming_method_at in H. open_report H; settle.
  - unfold naming_vars_at in H. cbv zeta in H.
    apply in_flat_map in H. destruct H as [v [_ H]]. open_report H; settle.
Qed.

Lemma uncommented_well_formed lines x :
  In x (_find_uncommented_methods lines) -> well_formed lines x.
Proof.
  apply well_formed_flat_map. clear x. intros i x Hi H.
  unfold uncommented_at in H. open_report H; settle.
Qed.

Lemma sql_well_formed lines x :
  In x (_find_sql_injection_risks lines) -> well_formed lines x.
Proof.
  apply well_formed_flat_map. clear x. intros i x Hi H.
  unfold sql_injection_at in H. induction sql_patterns as [|p pats IH];
    [destruct H|].
  simpl in H. destruct (matches true p (strip (at_ lines i)));
    [|exact (IH H)].
  destruct (negb (matches true re_prepared (strip (at_ lines i))));
    [|exact (IH H)].
  destruct H as [<-|[]]. settle.
Qed.

Lemma security_well_formed lines x :
  In x (_find_security_issues lines) -> well_formed lines x.
Proof.
  apply well_formed_flat_map. clear x. intros i x Hi H.
  unfold security_at in H. cbv zeta in H.
  split_reports H; open_report H; settle.
Qed.

Lemma code_quality_well_formed lines x :
  In x (_find_code_quality_issues lines) -> well_formed lines x.
Proof.
  apply well_formed_flat_map. clear x. intros i x Hi H.
  unfold code_quality_at in H. cbv zeta in H.
  split_reports H; open_report H; settle.
Qed.

Lemma logic_errors_well_formed lines x :
  In x (_find_logic_errors lines) -> well_formed lines x.
Proof.
  apply well_formed_flat_map. clear x. intros i x Hi H.
  unfold logic_errors_at in H. cbv zeta in H.
  unfold endless_while_at, for_without_step_at, recursion_at, empty_catch_at,
    memory_leak_at, division_at, array_bounds_at, file_operation_at in H.
  split_reports H; open_report H; settle.
Qed.

Lemma performance_well_formed lines x :
  In x (_find_performance_issues lines) -> well_formed lines x.
Proof.
  apply well_formed_flat_map. clear x. intros i x Hi H.
  unfold performance_at in H. cbv zeta in H.
  split_reports H; open_report H; settle.
Qed.

Lemma cm_step_inv lines st i line :
  i < List.length lines ->
  cm_inv lines st -> cm_inv lines (cm_step lines st (i, line)).
Proof.
  intros Hi [Hs Hx]. unfold cm_step. cbv zeta.
  match goal with
  | |- context [if in_method ?s then _ else _] => set (st1 := s)
  end.
  assert (H1 : cm_inv lines st1).
  { subst st1. destruct (search true re_method_open (strip line));
      [destruct (negb (in_method st))|]; try (split; assumption).
    split; [intros _; exact Hi|exact Hx]. }
  destruct (in_method st1) eqn:E1; [|exact H1].
  destruct H1 as [H1s H1x]. specialize (H1s E1).
  match goal with
  | |- context [startswith "}" _ && (current_nesting ?s =? 0)] => set (st3 := s)
  end.
  assert (H3 : cm_method_start st3 = cm_method_start st1
               /\ cm_issues st3 = cm_issues st1 /\ in_method st3 = true).
  { subst st3.
    destruct (startswith "}" (strip line));
      destruct (matches true re_branch (strip line)); cbn; auto. }
  destruct H3 as [H3s [H3x H3m]].
  destruct (startswith "}" (strip line) && (current_nesting st3 =? 0)).
  - split; [discriminate|]. cbn [cm_issues]. intros x H.
    apply in_app_or in H. destruct H as [H|H].
    + apply H1x. now rewrite <- H3x.
    + destruct (4 <? max_nesting st3); [|destruct H].
      destruct H as [<-|[]]. rewrite H3s. settle.
  - split; [intros _; now rewrite H3s|]. intros x H. apply H1x. now rewrite <- H3x.
Qed.

Lemma complex_well_formed lines x :
  In x (_find_complex_methods lines) -> well_formed lines x.
Proof.
  unfold _find_complex_methods.
  assert (G : forall els st,
             (forall i line, In (i, line) els -> i < List.length lines) ->
             cm_inv lines st ->
             cm_inv lines (fold_left (cm_step lines) els st)).
  { induction els as [|[i line] els IH]; intros st Hels H; [exact H|].
    simpl. apply IH.
    - intros j l Hj. apply (Hels j l). now right.
    - apply cm_step_inv; [|exact H]. apply (Hels i line). now left. }
  intros H. refine (proj2 (G (enumerate lines) cm_init _ _) x H).
  - intros i line Hil. apply (enumerate_from_In EmptyString) in Hil. lia.
  - split; [discriminate|intros y []].
Qed.

Lemma scan_well_formed lines x :
  In x (scan_lines lines) -> well_formed lines x.
Proof.
  unfold scan_lines. intros H. split_reports H.
  - now apply long_methods_well_formed.
  - now apply complex_well_formed.
  - now apply long_parameter_lists_well_formed.
  - now apply naming_well_formed.
  - now apply uncommented_well_formed.
  - now apply sql_well_formed.
  - now apply security_well_formed.
  - now apply code_quality_well_formed.
  - now apply logic_errors_well_formed.
  - now apply performance_well_formed.
Qed.

(** Every issue of a scan points into the file: its line number is
    between 1 and the number of lines, and its line content is the text
    of that line without the blanks around it.  In particular the branch
    of [_find_long_methods] that joins the next line to the signature is
    never taken: a line that the signature pattern matches holds its
    closing parenthesis. *)
Theorem issues_point_into_file (lines : list string) :
  Forall (fun x => 1 <= line_number x <= List.length lines
                   /\ line_content x = strip (at_ lines (line_number x - 1)))
         (_detect_detailed_issues (Some lines)).
Proof.
  apply Forall_forall. intros x H.
  destruct (scan_well_formed lines x H) as (H1 & _ & H3). now split.
Qed.

Lemma catalog_lookup t s :
  In (t, s) catalog ->
  lookup t catalog = Some s /\ In s ["error"; "warning"; "info"].
Proof.
  unfold catalog. intros H.
  repeat (destruct H as [H|H];
          [inversion H; split; [reflexivity|simpl; tauto]|]).
  destruct H.
Qed.

(** Two issues of the same type have the same severity, in whatever
    files they are found, and a severity is [error], [warning] or
    [info]. *)
Theorem severity_by_type (lines1 lines2 : list string) (x y : CodeIssue) :
  In x (scan_lines lines1) -> In y (scan_lines lines2) ->
  type x = type y ->
  severity x = severity y /\ In (severity x) ["error"; "warning"; "info"].
Proof.
  intros Hx Hy E.
  destruct (catalog_lookup _ _ (proj1 (proj2 (scan_well_formed lines1 x Hx))))
    as [Lx Sx].
  destruct (catalog_lookup _ _ (proj1 (proj2 (scan_well_formed lines2 y Hy))))
    as [Ly _].
  split; [congruence|exact Sx].
Qed.

Lemma severity_by_type_witness :
  (In unsafe_report (scan_lines unsafe_file)
   /\ In (sql_report [concatenated_query] 0 (strip concatenated_query))
         (scan_lines [concatenated_query])
   /\ type unsafe_report
      = type (sql_report [concatenated_query] 0 (strip concatenated_query)))
  /\ severity unsafe_report
     = severity (sql_report [concatenated_query] 0 (strip concatenated_query))
  /\ In (severity unsafe_report) ["error"; "warning"; "info"].
Proof.
  assert (H1 : In unsafe_report (scan_lines unsafe_file)).
  { vm_compute. repeat (try (left; reflexivity); right). }
  assert (H2 : In (sql_report [concatenated_query] 0 (strip concatenated_query))
                  (scan_lines [concatenated_query])).
  { vm_compute. repeat (try (left; reflexivity); right). }
  split; [split; [exact H1|split; [exact H2|reflexivity]]|].
  exact (severity_by_type unsafe_file [concatenated_query] unsafe_report
           (sql_report [concatenated_query] 0 (strip concatenated_query))
           H1 H2 eq_refl).
Defined.

(** ** The label drawn from the warnings *)

Lemma any_type_ext p q l :
  (forall i, In i l -> p (type i) = q (type i)) -> any_type p l = any_type q l.
Proof.
  unfold any_type. induction l as [|x l IH]; intros H; [reflexivity|].
  simpl. rewrite (H x (or_introl eq_refl)). f_equal.
  apply IH. intros i Hi. apply H. now right.
Qed.

Lemma any_type_false p l :
  (forall i, In i l -> p (type i) = false) -> any_type p l = false.
Proof.
  unfold any_type. induction l as [|x l IH]; intros H; [reflexivity|].
  simpl. rewrite (H x (or_introl eq_refl)). apply IH.
  intros i Hi. apply H. now right.
Qed.

Lemma any_type_eqb t l :
  any_type (fun u => String.eqb u t) l = has_type t l.
Proof.
  unfold any_type, has_type. induction l as [|x l IH]; [reflexivity|].
  simpl. now rewrite IH.
Qed.

Lemma has_type_warning t l :
  (forall x, In x l -> type x = t -> severity x = "warning") ->
  has_type t (with_severity "warning" l) = has_type t l.
Proof.
  unfold has_type, with_severity. induction l as [|x l IH]; intros H;
    [reflexivity|].
  simpl. destruct (String.eqb (type x) t) eqn:E.
  - apply String.eqb_eq in E. rewrite (H x (or_introl eq_refl) E).
    simpl. apply String.eqb_eq in E. now rewrite E.
  - destruct (String.eqb (severity x) "warning").
    + simpl. rewrite E. apply IH. intros y Hy. apply H. now right.
    + simpl. apply IH. intros y Hy. apply H. now right.
Qed.

(** The tests of [_determine_warning_smell_type] on the tags that the
    catalog gives with severity warning. *)
Lemma warning_tests t :
  In (t, "warning") catalog ->
  contains "long_method" t = String.eqb t "long_method"
  /\ contains "long_parameter" t = String.eqb t "long_parameter_list"
  /\ contains "naming" t = false
  /\ contains "missing_comment" t = false.
Proof.
  unfold catalog. intros H.
  repeat (destruct H as [H|H];
          [first [ discriminate H
                 | inversion H; repeat split; vm_compute; reflexivity ]|]).
  destruct H.
Qed.

(** The label that [_determine_warning_smell_type] draws from the
    warnings of a scan: [long_method] when the scan holds a [long_method]
    issue, else [long_parameter_list] when it holds one of that type,
    else [code_quality_issues].  The branches for [naming_issues] and
    [low_cohesion] are never taken: no tag of severity warning contains
    [naming] or [missing_comment]. *)
Theorem warning_label_of_scan (lines : list string) :
  _determine_warning_smell_type (with_severity "warning" (scan_lines lines))
  = if has_type "long_method" (scan_lines lines) then "long_method"
    else if has_type "long_parameter_list" (scan_lines lines)
         then "long_parameter_list"
         else "code_quality_issues".
Proof.
  set (ws := with_severity "warning" (scan_lines lines)).
  assert (Hw : forall i, In i ws -> In (type i, "warning") catalog).
  { intros i Hi. unfold ws, with_severity in Hi. apply filter_In in Hi.
    destruct Hi as [Hi Hs]. apply String.eqb_eq in Hs. rewrite <- Hs.
    exact (proj1 (proj2 (scan_well_formed lines i Hi))). }
  assert (Hsev : forall t, In (t, "warning") catalog ->
                 forall x, In x (scan_lines lines) -> type x = t ->
                           severity x = "warning").
  { intros t Ht x Hx E.
    destruct (catalog_lookup _ _ (proj1 (proj2 (scan_well_formed lines x Hx))))
      as [Lx _].
    destruct (catalog_lookup _ _ Ht) as [Lt _]. congruence. }
  unfold _determine_warning_smell_type.
  rewrite (any_type_ext _ (fun u => String.eqb u "long_method") ws)
    by (intros i Hi; apply (warning_tests _ (Hw i Hi))).
  rewrite (any_type_ext (fun t => contains "long_parameter" t)
                        (fun u => String.eqb u "long_parameter_list") ws)
    by (intros i Hi; apply (warning_tests _ (Hw i Hi))).
  rewrite (any_type_false (fun t => contains "naming" t) ws)
    by (intros i Hi; apply (warning_tests _ (Hw i Hi))).
  rewrite (any_type_false (fun t => contains "missing_comment" t) ws)
    by (intros i Hi; apply (warning_tests _ (Hw i Hi))).
  rewrite !any_type_eqb. unfold ws.
  rewrite !has_type_warning; [reflexivity| |].
  - apply Hsev. unfold catalog. simpl. tauto.
  - apply Hsev. unfold catalog. simpl. tauto.
Qed.

(** ** The final label and its confidence *)

Lemma critical_label_not_clean l : _determine_critical_smell_type l <> "clean".
Proof.
  unfold _determine_critical_smell_type.
  repeat match goal with
         | |- (if ?c then _ else _) <> _ => destruct c
         end; discriminate.
Qed.

Lemma warning_label_not_clean l : _determine_warning_smell_type l <> "clean".
Proof.
  unfold _determine_warning_smell_type.
  repeat match goal with
         | |- (if ?c then _ else _) <> _ => destruct c
         end; discriminate.
Qed.

(** [detect_smells] answers [clean] only when the scan holds no issue
    of severity error or warning and the classifier itself said
    [clean]. *)
Theorem clean_label_means_quiet_scan
        (O : SetOrder) (predict : CodeFeatures -> string * Q) (path : string)
        (feats : CodeFeatures) (readable : option (list string)) :
  smell_type (detect_smells O predict path feats readable) = "clean" ->
  with_severity "error" (_detect_detailed_issues readable) = []
  /\ with_severity "warning" (_detect_detailed_issues readable) = []
  /\ fst (predict feats) = "clean".
Proof.
  unfold detect_smells. cbv zeta.
  destruct (with_severity "error" (_detect_detailed_issues readable))
    as [|e es].
  - destruct (predict feats) as [label conf]. cbn [fst].
    destruct (with_severity "warning" (_detect_detailed_issues readable))
      as [|w ws].
    + cbn [smell_type]. auto.
    + destruct (String.eqb label "clean") eqn:E; cbn [smell_type]; intros H.
      * exfalso. exact (warning_label_not_clean _ H).
      * rewrite H in E. discriminate.
  - cbn [smell_type]. intros H. exfalso. exact (critical_label_not_clean _ H).
Qed.

Lemma clean_label_means_quiet_scan_witness :
  smell_type (detect_smells last_seen_order says_clean "quiet.php"
                            quiet_profile (Some quiet_file)) = "clean"
  /\ with_severity "error" (_detect_detailed_issues (Some quiet_file)) = []
  /\ with_severity "warning" (_detect_detailed_issues (Some quiet_file)) = []
  /\ fst (says_clean quiet_profile) = "clean".
Proof.
  assert (H : smell_type (detect_smells last_seen_order says_clean "quiet.php"
                                        quiet_profile (Some quiet_file))
              = "clean") by (vm_compute; reflexivity).
  split; [exact H|].
  exact (clean_label_means_quiet_scan last_seen_order says_clean "quiet.php"
           quiet_profile (Some quiet_file) H).
Defined.



(** ** One report of the SQL pass for each line *)

Section AtMostOnce.

Variable f : nat -> string -> list CodeIssue.
Hypothesis f_local : forall i line x, In x (f i line) -> line_number x = i + 1.
Hypothesis f_once : forall i line, List.length (f i line) <= 1.

Lemma once_per_line n l : forall k,
  List.length
    (at_line n (flat_map (fun il => f (fst il) (snd il)) (enumerate_from k l)))
  <= 1.
Proof.
  induction l as [|x l IH]; intros k; [simpl; lia|].
  simpl. rewrite at_line_app, length_app.
  destruct (Nat.eq_dec n (k + 1)) as [E|E].
  - subst n.
    rewrite (other_lines_silent f f_local k (S k) l) by lia.
    rewrite at_line_all by (intros y Hy; now apply f_local in Hy).
    simpl. pose proof (f_once k x). lia.
  - rewrite at_line_none.
    + simpl. apply IH.
    + intros y Hy. apply f_local in Hy. lia.
Qed.

End AtMostOnce.

Lemma sql_loop_once pats lines i s :
  List.length (sql_loop pats lines i s) <= 1.
Proof.
  induction pats as [|p pats IH]; [simpl; lia|].
  simpl. destruct (matches true p s); [|exact IH].
  destruct (negb (matches true re_prepared s)); [simpl; lia|exact IH].
Qed.

(** The scan reports a line at most once for SQL injection, however
    many of the four patterns match it. *)
Theorem sql_injection_once_per_line (lines : list string) (n : nat) :
  List.length (at_line n (of_type "sql_injection_risk" (scan_lines lines))) <= 1.
Proof.
  rewrite scan_sql_injection. unfold _find_sql_injection_risks.
  apply (once_per_line (sql_injection_at lines)).
  - intros i line x. apply sql_loop_line.
  - intros i line. apply sql_loop_once.
Qed.

(** ** The comment ratio *)

Lemma comment_loop_bounds lines : forall b n,
  n <= comment_loop lines b n <= n + List.length lines.
Proof.
  induction lines as [|l lines IH]; intros b n; [simpl; lia|].
  cbn [comment_loop]. cbv zeta.
  repeat match goal with
         | |- context [if ?c then _ else _] => destruct c
         end;
    match goal with
    | |- _ <= comment_loop lines ?b' ?n' <= _ =>
        specialize (IH b' n'); simpl; lia
    end.
Qed.

Lemma split_length c s : List.length (split c s) = count c s + 1.
Proof.
  induction s as [|x t IH]; [reflexivity|].
  cbn [split count]. destruct (Ascii.eqb x c).
  - simpl. now rewrite IH.
  - destruct (split c t) as [|p ps]; simpl in *; lia.
Qed.

Lemma comment_ratio_range (content : string) :
  (0 <= _calculate_comment_ratio content <= 1)%Q.
Proof.
  unfold _calculate_comment_ratio. cbv zeta.
  pose proof (split_length newline content) as Hl.
  pose proof (comment_loop_bounds (split newline content) false 0) as Hc.
  destruct (0 <? List.length (split newline content)) eqn:E.
  - apply Nat.ltb_lt in E. unfold Qle. cbn [Qnum Qden]. split; lia.
  - apply Nat.ltb_ge in E. lia.
Qed.

Lemma split_plain c s : count c s = 0 -> split c s = [s].
Proof.
  induction s as [|x t IH]; [reflexivity|].
  cbn [split count]. destruct (Ascii.eqb x c); [simpl; lia|].
  intros H. rewrite IH by (simpl in H; lia). reflexivity.
Qed.

Lemma split_app c a b :
  count c a = 0 ->
  split c (a ++ String c b) = a :: split c b.
Proof.
  induction a as [|x t IH]; intros H.
  - simpl. now rewrite Ascii.eqb_refl.
  - cbn [split count append] in *.
    destruct (Ascii.eqb x c); [simpl in H; lia|].
    rewrite IH by (simpl in H; lia). reflexivity.
Qed.

Lemma split_join ls :
  ls <> [] -> Forall one_line ls -> split newline (join nl ls) = ls.
Proof.
  intros Hne H. induction ls as [|x ls IH]; [congruence|].
  inversion H as [|? ? Hx Hls]; subst.
  destruct ls as [|y ls].
  - simpl. now apply split_plain.
  - change (join nl (x :: y :: ls))
      with (x ++ String newline (join nl (y :: ls))).
    rewrite split_app by exact Hx. f_equal.
    apply IH; [discriminate|exact Hls].
Qed.

(** On lines joined by newline characters, the comment ratio is the
    number of lines that the loop counts as comments over the number of
    lines. *)
Theorem comment_ratio_of_lines (ls : list string) :
  ls <> [] -> Forall one_line ls ->
  _calculate_comment_ratio (join nl ls)
  = Z.of_nat (comment_loop ls false 0) # Pos.of_nat (List.length ls).
Proof.
  intros Hne H. unfold _calculate_comment_ratio. cbv zeta.
  rewrite (split_join ls Hne H).
  destruct ls; [congruence|reflexivity].
Qed.

Lemma comment_ratio_of_lines_witness :
  (ten_lines <> [] /\ Forall one_line ten_lines)
  /\ _calculate_comment_ratio (join nl ten_lines) = 0.2%Q.
Proof.
  assert (H1 : ten_lines <> []) by discriminate.
  assert (H2 : Forall one_line ten_lines) by (repeat constructor).
  split; [split; assumption|].
  exact (comment_ratio_of_lines ten_lines H1 H2).
Defined.

(** When every one of the ten lines ends with a newline, the empty
    piece after the last one is counted as an eleventh line. *)
Example comment_ratio_with_final_newline :
  _calculate_comment_ratio (join nl (ten_lines ++ [EmptyString])) = 2 # 11.
Proof. vm_compute. reflexivity. Qed.

(** ** The length estimates *)

Lemma count_substring c s : forall i n,
  count c (String.substring i n s) <= count c s.
Proof.
  induction s as [|x t IH]; intros i n.
  - destruct i, n; simpl; lia.
  - destruct i as [|i].
    + destruct n as [|n]; [simpl; lia|].
      cbn [String.substring count]. specialize (IH 0 n). lia.
    + cbn [String.substring count]. specialize (IH i n). lia.
Qed.

Lemma block_length_bounded r content :
  block_length r content <= count newline content + 1.
Proof.
  unfold block_length. destruct (search true r content) as [m|]; [|lia].
  cbv zeta. destruct (brace_walk _ _ _) as [cur bc].
  destruct (bc =? 0)%Z; [|lia].
  unfold slice. pose proof (count_substring newline content (m_end m)
                                            (cur - 1 - m_end m)). lia.
Qed.

(** The estimated length of a method or of a class is never more than
    the number of lines of the text. *)
Theorem estimated_lengths_bounded (content name : string) :
  _estimate_method_length content name <= count newline content + 1
  /\ _estimate_class_length content name <= count newline content + 1.
Proof.
  unfold _estimate_method_length, _estimate_class_length.
  destruct (String.eqb name EmptyString); split;
    try lia; apply block_length_bounded.
Qed.

Lemma brace_walk_close post pos :
  brace_walk ("}"%char :: post) pos 1 = (S pos, 0%Z).
Proof. simpl. destruct post; reflexivity. Qed.

Lemma brace_walk_match body : forall ahead pos opened,
  (0 <= opened)%Z -> braces_match body opened = true ->
  brace_walk (body ++ "}"%char :: ahead) pos (opened + 1)
  = (S (pos + List.length body), 0%Z).
Proof.
  induction body as [|c body IH]; intros ahead pos opened H0 H.
  - cbn [braces_match] in H. apply Z.eqb_eq in H. subst opened.
    cbn [app List.length]. rewrite Nat.add_0_r. apply brace_walk_close.
  - cbn [braces_match] in H. cbv zeta in H.
    apply andb_true_iff in H. destruct H as [Ho H]. apply Z.leb_le in Ho.
    cbn [app brace_walk].
    replace (0 <? opened + 1)%Z with true by (symmetry; apply Z.ltb_lt; lia).
    cbn [List.length]. rewrite Nat.add_succ_r.
    destruct (Ascii.eqb c "{").
    + apply (IH ahead (S pos) (opened + 1)%Z); [lia|exact H].
    + destruct (Ascii.eqb c "}").
      * replace (opened + 1 - 1)%Z with (opened - 1 + 1)%Z by lia.
        apply (IH ahead (S pos) (opened - 1)%Z); [lia|exact H].
      * apply (IH ahead (S pos) opened); [lia|exact H].
Qed.

Lemma list_of_append a b :
  list_ascii_of_string (a ++ b)
  = (list_ascii_of_string a ++ list_ascii_of_string b)%list.
Proof. induction a as [|c a IH]; [reflexivity|]. simpl. now rewrite IH. Qed.

Lemma length_list_of s :
  List.length (list_ascii_of_string s) = String.length s.
Proof. induction s as [|c s IH]; [reflexivity|]. simpl. now rewrite IH. Qed.

Lemma block_length_balanced r content m pre body post :
  search true r content = Some m ->
  content = (pre ++ body ++ "}" ++ post)%string ->
  String.length pre = m_end m ->
  balanced body = true ->
  block_length r content = count newline body + 1.
Proof.
  intros Hs Hc Hp Hb. unfold block_length. rewrite Hs. cbv zeta.
  assert (Hk : skipn (m_end m) (list_ascii_of_string content)
               = (list_ascii_of_string body
                  ++ "}"%char :: list_ascii_of_string post)%list).
  { rewrite Hc, list_of_append, <- Hp, <- length_list_of.
    rewrite skipn_app, skipn_all, Nat.sub_diag. simpl.
    rewrite list_of_append. reflexivity. }
  rewrite Hk.
  rewrite (brace_walk_match _ _ _ 0%Z) by (try lia; exact Hb).
  cbn [Z.eqb]. f_equal. f_equal.
  rewrite <- (string_of_list_ascii_of_string
                (slice content (m_end m)
                       (S (m_end m + List.length (list_ascii_of_string body)) - 1))).
  unfold slice. rewrite substring_list, Hk.
  replace (S (m_end m + List.length (list_ascii_of_string body)) - 1 - m_end m)
    with (List.length (list_ascii_of_string body)) by lia.
  rewrite firstn_app, firstn_all, Nat.sub_diag. simpl. rewrite app_nil_r.
  apply string_of_list_ascii_of_string.
Qed.

(** When the first match of the declaration pattern is followed by a
    body whose braces match and by a closing brace, the estimated length
    of the method is the number of newline characters of the body plus
    one, whatever follows the closing brace. *)
Theorem method_length_of_balanced_body
        (content name pre body post : string) (m : mobj) :
  name <> EmptyString ->
  search true (method_decl name) content = Some m ->
  content = (pre ++ body ++ "}" ++ post)%string ->
  String.length pre = m_end m ->
  balanced body = true ->
  _estimate_method_length content name = count newline body + 1.
Proof.
  intros Hn Hs Hc Hp Hb. unfold _estimate_method_length.
  destruct (String.eqb name EmptyString) eqn:E.
  - apply String.eqb_eq in E. contradiction.
  - exact (block_length_balanced _ _ _ _ _ _ Hs Hc Hp Hb).
Qed.

Lemma method_length_of_balanced_body_witness :
  ("f" <> EmptyString
   /\ search true (method_decl "f") sample_method = Some (MObj 6 22 [])
   /\ sample_method
      = (("<?php" ++ nl ++ "function f($a) {")
         ++ (nl ++ "  if ($a) {" ++ nl ++ "    return 1;" ++ nl ++ "  }" ++ nl
             ++ "  return 0;" ++ nl)
         ++ "}" ++ nl)%string
   /\ String.length ("<?php" ++ nl ++ "function f($a) {") = 22
   /\ balanced (nl ++ "  if ($a) {" ++ nl ++ "    return 1;" ++ nl ++ "  }"
                ++ nl ++ "  return 0;" ++ nl) = true)
  /\ _estimate_method_length sample_method "f" = 6.
Proof.
  assert (H1 : "f" <> EmptyString) by discriminate.
  assert (H2 : search true (method_decl "f") sample_method
               = Some (MObj 6 22 [])) by (vm_compute; reflexivity).
  assert (H3 : sample_method
               = (("<?php" ++ nl ++ "function f($a) {")
                  ++ (nl ++ "  if ($a) {" ++ nl ++ "    return 1;" ++ nl
                      ++ "  }" ++ nl ++ "  return 0;" ++ nl)
                  ++ "}" ++ nl)%string) by (vm_compute; reflexivity).
  assert (H4 : String.length ("<?php" ++ nl ++ "function f($a) {") = 22)
    by (vm_compute; reflexivity).
  assert (H5 : balanced (nl ++ "  if ($a) {" ++ nl ++ "    return 1;" ++ nl
                         ++ "  }" ++ nl ++ "  return 0;" ++ nl) = true)
    by (vm_compute; reflexivity).
  split; [split; [exact H1|split; [exact H2|split; [exact H3|split;
          [exact H4|exact H5]]]]|].
  exact (method_length_of_balanced_body sample_method "f" _ _ _ _
           H1 H2 H3 H4 H5).
Defined.

(** ** The feature profile *)

Lemma count_if_bounds {A : Type} (p : A -> bool) (l : list A) :
  (0 <= count_if p l <= Z.of_nat (List.length l))%Z.
Proof.
  unfold count_if. pose proof (filter_length_le p l). lia.
Qed.

Lemma sum_le_maximum l : list_sum l <= List.length l * maximum l.
Proof.
  induction l as [|x l IH]; [simpl; lia|].
  change (maximum (x :: l)) with (Nat.max x (maximum l)).
  change (list_sum (x :: l)) with (x + list_sum l).
  cbn [List.length].
  pose proof (Nat.le_max_l x (maximum l)) as H1.
  pose proof (Nat.le_max_r x (maximum l)) as H2.
  set (M := Nat.max x (maximum l)) in *.
  assert (H3 : List.length l * maximum l <= List.length l * M)
    by (apply Nat.mul_le_mono_l; exact H2).
  rewrite Nat.mul_succ_l. lia.
Qed.

Lemma mean_le_maximum l : (mean l <= inject_Z (Z.of_nat (maximum l)))%Q.
Proof.
  destruct l as [|x l]; [vm_compute; discriminate|].
  unfold mean, Qle, inject_Z. cbn [Qnum Qden].
  pose proof (sum_le_maximum (x :: l)) as H.
  set (s := list_sum (x :: l)) in *. set (mx := maximum (x :: l)) in *.
  cbn [List.length] in *. nia.
Qed.

Lemma naming_violations_bounded r :
  _check_naming_conventions r
  <= List.length (classes r) + List.length (all_methods r)
     + List.length (variables r).
Proof.
  unfold _check_naming_conventions.
  repeat match goal with
         | |- context [List.length (filter ?p ?l)] =>
             let H := fresh in
             pose proof (filter_length_le p l) as H;
             generalize dependent (List.length (filter p l)); intros
         end.
  lia.
Qed.

(** The profile that [extract_features] builds is consistent: the
    methods are those of the classes and the functions, no counter of a
    finding exceeds the number of methods or classes it counts in, no
    mean exceeds its maximum, and the comment ratio lies between 0 and
    1. *)
Theorem features_consistent (r : ParseResult) (content : string) (depth : nat) :
  let f := features_of r content depth in
  (number_of_methods f
   = Z.of_nat (List.length (flat_map methods (classes r)))
     + number_of_functions f)%Z
  /\ (0 <= long_method_count f <= number_of_methods f)%Z
  /\ (0 <= large_parameter_list_count f <= number_of_methods f)%Z
  /\ (0 <= complex_method_count f <= number_of_methods f)%Z
  /\ (0 <= long_class_count f <= number_of_classes f)%Z
  /\ (naming_convention_violations f
      <= number_of_classes f + number_of_methods f + number_of_variables f)%Z
  /\ (avg_method_complexity f <= inject_Z (max_method_complexity f))%Q
  /\ (avg_method_parameters f <= inject_Z (max_method_parameters f))%Q
  /\ (avg_method_length f <= inject_Z (max_method_length f))%Q
  /\ (avg_class_methods f <= inject_Z (max_class_methods f))%Q
  /\ (avg_class_properties f <= inject_Z (max_class_properties f))%Q
  /\ (0 <= comment_ratio f <= 1)%Q.
Proof.
  cbv zeta. unfold features_of. cbv zeta.
  cbn [number_of_methods number_of_functions long_method_count
       large_parameter_list_count complex_method_count long_class_count
       number_of_classes naming_convention_violations number_of_variables
       avg_method_complexity max_method_complexity avg_method_parameters
       max_method_parameters avg_method_length max_method_length
       avg_class_methods max_class_methods avg_class_properties
       max_class_properties comment_ratio].
  split.
  { unfold all_methods. rewrite length_app. lia. }
  repeat split;
    try apply mean_le_maximum;
    try apply comment_ratio_range;
    try (match goal with
         | |- context [count_if ?p ?l] =>
             pose proof (count_if_bounds p l); rewrite ?length_map in *; lia
         end).
  pose proof (naming_violations_bounded r). lia.
Qed.

(** ** The profile of a file read by the fallback parser *)

Lemma fallback_classes_bare O content :
  Forall (fun cls => methods cls = [] /\ properties cls = 0)
         (classes (simple_parse_text O content)).
Proof.
  apply Forall_forall. intros c H. cbn [simple_parse_text classes] in H.
  apply in_map_iff in H. destruct H as (m & <- & _). split; reflexivity.
Qed.

Lemma flat_map_nil {A B : Type} (f : A -> list B) l :
  Forall (fun a => f a = []) l -> flat_map f l = [].
Proof.
  induction 1 as [|a l Ha _ IH]; [reflexivity|]. simpl. now rewrite Ha, IH.
Qed.

Lemma maximum_bound l n : Forall (fun x => x <= n) l -> maximum l <= n.
Proof.
  induction 1 as [|x l Hx _ IH]; [simpl; lia|].
  change (maximum (x :: l)) with (Nat.max x (maximum l)). lia.
Qed.

Lemma filter_none {A : Type} (p : A -> bool) l :
  Forall (fun x => p x = false) l -> filter p l = [].
Proof.
  induction 1 as [|x l Hx _ IH]; [reflexivity|]. simpl. now rewrite Hx.
Qed.

Lemma fallback_all_methods O content :
  all_methods (simple_parse_text O content)
  = functions (simple_parse_text O content).
Proof.
  unfold all_methods. rewrite flat_map_nil; [reflexivity|].
  eapply Forall_impl; [|apply fallback_classes_bare]. intros c [H _]. exact H.
Qed.

(** The profile of a text read by the fallback parser: the line count
    is the number of newline characters plus one, every method is a
    function, no method is counted as complex (every function has
    complexity 1), the classes have no methods and no properties, no
    estimated method length exceeds the line count, and
    [_detect_specific_issues] never reports [complex_method]. *)
Theorem fallback_profile (O : SetOrder) (content : string) (depth : nat) :
  let f := features_of (simple_parse_text O content) content depth in
  lines_of_code f = Z.of_nat (count newline content + 1)
  /\ number_of_methods f = number_of_functions f
  /\ (max_method_complexity f <= 1)%Z
  /\ complex_method_count f = 0%Z
  /\ max_class_methods f = 0%Z
  /\ max_class_properties f = 0%Z
  /\ (max_method_length f <= lines_of_code f)%Z
  /\ ~ In "complex_method" (map d_type (_detect_specific_issues f)).
Proof.
  cbv zeta.
  assert (Hc : complex_method_count
                 (features_of (simple_parse_text O content) content depth)
               = 0%Z).
  { unfold features_of. cbv zeta. cbn [complex_method_count].
    rewrite fallback_all_methods. unfold count_if.
    rewrite filter_none; [reflexivity|].
    apply Forall_forall. intros c Hin. apply in_map_iff in Hin.
    destruct Hin as (fn & <- & Hfn).
    destruct (fallback_function_shape O content fn Hfn) as [_ ->].
    reflexivity. }
  split; [reflexivity|]. split.
  { unfold features_of. cbv zeta. cbn [number_of_methods number_of_functions].
    now rewrite fallback_all_methods. }
  split.
  { unfold features_of. cbv zeta. cbn [max_method_complexity].
    rewrite fallback_all_methods.
    assert (H : maximum (map fn_complexity
                             (functions (simple_parse_text O content))) <= 1).
    { apply maximum_bound. apply Forall_forall. intros c Hin.
      apply in_map_iff in Hin. destruct Hin as (fn & <- & Hfn).
      destruct (fallback_function_shape O content fn Hfn) as [_ ->]. lia. }
    lia. }
  split; [exact Hc|]. split.
  { unfold features_of. cbv zeta. cbn [max_class_methods].
    assert (H : maximum (map (fun cls => List.length (methods cls))
                             (classes (simple_parse_text O content))) <= 0).
    { apply maximum_bound. apply Forall_forall. intros c Hin.
      apply in_map_iff in Hin. destruct Hin as (cls & <- & Hcls).
      pose proof (fallback_classes_bare O content) as F.
      rewrite Forall_forall in F. destruct (F cls Hcls) as [-> _].
      simpl. lia. }
    lia. }
  split.
  { unfold features_of. cbv zeta. cbn [max_class_properties].
    assert (H : maximum (map properties
                             (classes (simple_parse_text O content))) <= 0).
    { apply maximum_bound. apply Forall_forall. intros c Hin.
      apply in_map_iff in Hin. destruct Hin as (cls & <- & Hcls).
      pose proof (fallback_classes_bare O content) as F.
      rewrite Forall_forall in F. destruct (F cls Hcls) as [_ ->]. lia. }
    lia. }
  split.
  { unfold features_of. cbv zeta. cbn [max_method_length lines_of_code].
    cbn [simple_parse_text lines].
    assert (H : maximum
                  (map (fun m => _estimate_method_length content (fn_name m))
                       (all_methods (simple_parse_text O content)))
                <= count newline content + 1).
    { apply maximum_bound. apply Forall_forall. intros c Hin.
      apply in_map_iff in Hin. destruct Hin as (fn & <- & _).
      unfold _estimate_method_length.
      destruct (String.eqb (fn_name fn) EmptyString); [lia|].
      apply block_length_bounded. }
    cbn [simple_parse_text] in H. lia. }
  unfold _detect_specific_issues. rewrite Hc. cbn [Z.ltb Z.compare].
  rewrite !map_app. intros H.
  repeat (apply in_app_or in H; destruct H as [H|H]);
    repeat match type of H with
           | In _ (map _ (if ?c then _ else _)) => destruct c
           end;
    simpl in H; intuition discriminate.
Qed.

(** ** [parse_file]: the errors that leave it *)

Lemma launch_refused w file_path :
  launches w file_path = false ->
  exists e, php w file_path = Fails e /\ caught e = false.
Proof.
  unfold launches. destruct (php w file_path) as [| |e|]; try discriminate.
  intros H. exists e. split; [reflexivity|exact H].
Qed.

Lemma launch_covered w file_path e :
  launches w file_path = true -> php w file_path = Fails e ->
  caught e = true.
Proof. unfold launches. intros H P. now rewrite P in H. Qed.

(** An exception leaves [parse_file] in two ways only.  Either
    [subprocess.run] raises it and the handler does not list it: a
    [PermissionError] for a [php] that cannot be executed, for one.  Or
    the launch raises nothing of that kind, the backend gives no facts,
    and [open] raises it in the fallback parser: [FileNotFoundError] on
    a missing path, [PermissionError] or [IsADirectoryError] on a path
    that exists.  What the handler lists leaves [parse_file] only as
    the error of [open]. *)
Theorem parse_file_error_kinds
        (O : SetOrder) (w : world) (file_path : string) (e : exn) :
  parse_file O w file_path = Raise e
  <-> (php w file_path = Fails e /\ caught e = false)
      \/ (launches w file_path = true
          /\ backend_facts w file_path = None
          /\ read_file w file_path = Raise e).
Proof.
  split.
  - intros H. destruct (launches w file_path) eqn:L.
    + right. split; [reflexivity|].
      destruct (backend_facts w file_path) as [r|] eqn:B.
      * rewrite (parse_file_answered O w file_path r B) in H. discriminate.
      * split; [reflexivity|].
        rewrite (parse_file_fallback O w file_path L B) in H.
        unfold _simple_parse in H.
        destruct (read_file w file_path); [discriminate|].
        injection H as ->. reflexivity.
    + left. destruct (launch_refused w file_path L) as (e' & P & C).
      rewrite (parse_file_escapes O w file_path e' P C) in H.
      injection H as <-. split; assumption.
  - intros [[P C]|(L & B & R)].
    + now apply parse_file_escapes.
    + rewrite (parse_file_fallback O w file_path L B).
      unfold _simple_parse. now rewrite R.
Qed.

(** On [guarded_world], the [PermissionError] of the launch leaves
    [parse_file] for a readable file and for a missing one; on
    [bare_world], the error of [open] leaves it. *)
Example parse_file_errors_on_samples :
  parse_file last_seen_order guarded_world "a.php" = Raise PermissionError
  /\ parse_file last_seen_order guarded_world "nowhere.php"
     = Raise PermissionError
  /\ parse_file last_seen_order bare_world "locked.php"
     = Raise PermissionError
  /\ parse_file last_seen_order bare_world "nowhere.php"
     = Raise FileNotFoundError.
Proof. repeat split. Qed.

(** ** Inheritance depth on class lists without cycles *)

Lemma while_loop_ranked classes rank :
  ranked classes rank ->
  forall n depth ce,
    (forall e, truthy ce = Some e -> rank e < n) ->
    exists d, while_loop (S n) classes (Looping depth ce) = Some d
              /\ depth <= d <= depth + n.
Proof.
  intros Hr. induction n as [|n IH]; intros depth ce Hn;
    cbn [while_loop while_step].
  - destruct (truthy ce) as [e|] eqn:T.
    + specialize (Hn e eq_refl). lia.
    + exists depth. split; [reflexivity|lia].
  - destruct (truthy ce) as [e|] eqn:T.
    + destruct (lookup_class classes e) as [c|] eqn:Lk.
      * destruct (IH (depth + 1) (extends c)) as (d & Hd & Hb).
        { intros p Hp. pose proof (Hr e c p Lk Hp).
          specialize (Hn e eq_refl). lia. }
        exists d. split; [exact Hd|lia].
      * exists (depth + 1). split; [reflexivity|lia].
    + exists depth. split; [reflexivity|lia].
Qed.

Lemma depth_loop_ranked classes rank n :
  ranked classes rank -> (forall e, rank e < n) ->
  forall todo mx,
    exists d, depth_loop (S n) classes todo mx = Some d
              /\ mx <= d <= Nat.max mx (n + 1)
              /\ (todo <> [] -> 1 <= d).
Proof.
  intros Hr Hn. induction todo as [|cls todo IH]; intros mx.
  - exists mx. split; [reflexivity|]. split; [lia|congruence].
  - cbn [depth_loop].
    destruct (while_loop_ranked classes rank Hr n 1 (extends cls))
      as (d & Hd & Hb); [intros e _; apply Hn|].
    rewrite Hd. destruct (IH (Nat.max mx d)) as (d' & Hd' & Hb' & _).
    exists d'. split; [exact Hd'|]. split; [lia|]. intros _. lia.
Qed.

(** When the names have a rank that decreases from every class to its
    parent, with every rank below [n], [_calculate_inheritance_depth]
    returns: [n + 1] steps are enough for each inner loop, the depth is
    at most [n + 1], and at least 1 when there is a class. *)
Theorem inheritance_depth_returns
        (classes : list ClassInfo) (rank : string -> nat) (n : nat) :
  ranked classes rank -> (forall e, rank e < n) ->
  exists d, _calculate_inheritance_depth (S n) classes = Some d
            /\ d <= n + 1 /\ (classes <> [] -> 1 <= d).
Proof.
  intros Hr Hn. unfold _calculate_inheritance_depth.
  destruct (depth_loop_ranked classes rank n Hr Hn classes 0)
    as (d & Hd & Hb & H1).
  exists d. split; [exact Hd|]. split; [lia|exact H1].
Qed.

Lemma chain_ranked : ranked chain_classes chain_rank.
Proof.
  intros e c p Lk T. unfold lookup_class, chain_classes in Lk.
  cbn [find name] in Lk.
  destruct (String.eqb "A" e) eqn:EA.
  - apply String.eqb_eq in EA. subst e. injection Lk as <-.
    injection T as <-. unfold chain_rank. simpl. lia.
  - destruct (String.eqb "B" e) eqn:EB.
    + apply String.eqb_eq in EB. subst e. injection Lk as <-.
      injection T as <-. unfold chain_rank. simpl. lia.
    + destruct (String.eqb "D" e); [|discriminate].
      injection Lk as <-. discriminate.
Qed.

Lemma chain_rank_bound e : chain_rank e < 3.
Proof.
  unfold chain_rank. destruct (String.eqb e "A"); [lia|].
  destruct (String.eqb e "B"); lia.
Qed.

Lemma inheritance_depth_returns_witness :
  (ranked chain_classes chain_rank /\ forall e, chain_rank e < 3)
  /\ exists d, _calculate_inheritance_depth 4 chain_classes = Some d
               /\ d <= 3 + 1 /\ (chain_classes <> [] -> 1 <= d).
Proof.
  split; [split; [exact chain_ranked|exact chain_rank_bound]|].
  exact (inheritance_depth_returns chain_classes chain_rank 3
           chain_ranked chain_rank_bound).
Defined.

(** ** The arithmetic of [float] *)

Section FloatArithmetic.

Local Open Scope Q_scope.

Lemma pow2_pos k : 0 < pow2 k.
Proof. apply Qpower_0_lt. reflexivity. Qed.

Lemma pow2_add a b : pow2 (a + b) == pow2 a * pow2 b.
Proof. apply Qpower_plus. discriminate. Qed.

Lemma pow2_le a b : (a <= b)%Z -> pow2 a <= pow2 b.
Proof. intros H. apply Qpower_le_compat_l; [exact H|discriminate]. Qed.

Lemma pow2_lt a b : (a < b)%Z -> pow2 a < pow2 b.
Proof. intros H. apply Qpower_lt_compat_l; [exact H|reflexivity]. Qed.

Lemma pow2_lt_inv a b : pow2 a < pow2 b -> (a < b)%Z.
Proof. intros H. apply (Qpower_lt_compat_l_inv 2); [exact H|reflexivity]. Qed.

Lemma pow2_inject k : (0 <= k)%Z -> pow2 k == inject_Z (2 ^ k).
Proof. intros H. unfold pow2. now rewrite Zpower_Qpower. Qed.

(** The binade of a positive number holds it. *)
Lemma binade_spec q :
  0 < q -> pow2 (binade q) <= q /\ q < pow2 (binade q + 1).
Proof.
  intros Hq. destruct q as [n d]. unfold binade. cbn [Qnum Qden].
  assert (Hn : (0 < n)%Z) by (unfold Qlt in Hq; simpl in Hq; lia).
  set (a := Z.log2 n). set (b := Z.log2 (Z.pos d)).
  destruct (Z.log2_spec n Hn) as [Ha1 Ha2]. fold a in Ha1, Ha2.
  destruct (Z.log2_spec (Z.pos d) eq_refl) as [Hb1 Hb2]. fold b in Hb1, Hb2.
  assert (Ha0 : (0 <= a)%Z) by apply Z.log2_nonneg.
  assert (Hb0 : (0 <= b)%Z) by apply Z.log2_nonneg.
  assert (Qn1 : pow2 a <= inject_Z n)
    by (rewrite pow2_inject by lia; now rewrite <- Zle_Qle).
  assert (Qn2 : inject_Z n < pow2 (a + 1))
    by (rewrite pow2_inject by lia; rewrite <- Zlt_Qlt;
        now rewrite <- Z.add_1_r in Ha2).
  assert (Qd1 : pow2 b <= inject_Z (Z.pos d))
    by (rewrite pow2_inject by lia; now rewrite <- Zle_Qle).
  assert (Qd2 : inject_Z (Z.pos d) < pow2 (b + 1))
    by (rewrite pow2_inject by lia; rewrite <- Zlt_Qlt;
        now rewrite <- Z.add_1_r in Hb2).
  assert (Hd : 0 < inject_Z (Z.pos d)) by reflexivity.
  assert (E : n # d == inject_Z n / inject_Z (Z.pos d)) by apply Qmake_Qdiv.
  assert (Up : n # d < pow2 (a - b + 1)).
  { rewrite E. apply Qlt_shift_div_r; [exact Hd|].
    apply Qlt_le_trans with (pow2 (a + 1)); [exact Qn2|].
    replace (a + 1)%Z with ((a - b + 1) + b)%Z by lia.
    rewrite pow2_add. apply Qmult_le_l; [apply pow2_pos|exact Qd1]. }
  assert (Lo : pow2 (a - b - 1) < n # d).
  { rewrite E. apply Qlt_shift_div_l; [exact Hd|].
    apply Qlt_le_trans with (pow2 a); [|exact Qn1].
    replace a with ((a - b - 1) + (b + 1))%Z at 2 by lia.
    rewrite pow2_add. apply Qmult_lt_l; [apply pow2_pos|exact Qd2]. }
  destruct (Qle_bool (pow2 (a - b)) (n # d)) eqn:C.
  - apply Qle_bool_iff in C. split; [exact C|exact Up].
  - split; [apply Qlt_le_weak; exact Lo|].
    replace (a - b - 1 + 1)%Z with (a - b)%Z by lia.
    apply Qnot_le_lt. intros H. apply Qle_bool_iff in H. congruence.
Qed.

Lemma binade_mono x y : 0 < x -> x <= y -> (binade x <= binade y)%Z.
Proof.
  intros Hx Hxy.
  destruct (binade_spec x Hx) as [X1 _].
  destruct (binade_spec y (Qlt_le_trans _ _ _ Hx Hxy)) as [_ Y2].
  assert (H : pow2 (binade x) < pow2 (binade y + 1)).
  { eapply Qle_lt_trans; [exact X1|]. eapply Qle_lt_trans; eassumption. }
  apply pow2_lt_inv in H. lia.
Qed.

(** Rounding to the nearest integer, ties to the even one. *)
Lemma rhe_floor x :
  (Qfloor x <= round_half_even x <= Qfloor x + 1)%Z.
Proof.
  unfold round_half_even.
  destruct (Qcompare (x - inject_Z (Qfloor x)) (1 # 2)); [|lia|lia].
  destruct (Z.even (Qfloor x)); lia.
Qed.

Lemma rhe_mono x y : x <= y -> (round_half_even x <= round_half_even y)%Z.
Proof.
  intros H. pose proof (Qfloor_resp_le x y H) as Hf.
  pose proof (rhe_floor x) as Hx. pose proof (rhe_floor y) as Hy.
  destruct (Z.eq_dec (Qfloor x) (Qfloor y)) as [E|E]; [|lia].
  unfold round_half_even. rewrite <- E.
  destruct (Qcompare (x - inject_Z (Qfloor x)) (1 # 2)) eqn:Cx;
    destruct (Qcompare (y - inject_Z (Qfloor x)) (1 # 2)) eqn:Cy;
    try (destruct (Z.even (Qfloor x))); try lia; exfalso;
    first [rewrite <- Qeq_alt in Cx | rewrite <- Qlt_alt in Cx
          | rewrite <- Qgt_alt in Cx];
    first [rewrite <- Qeq_alt in Cy | rewrite <- Qlt_alt in Cy
          | rewrite <- Qgt_alt in Cy];
    lra.
Qed.

Lemma rhe_inject k : round_half_even (inject_Z k) = k.
Proof.
  unfold round_half_even. rewrite Qfloor_Z.
  replace (Qcompare (inject_Z k - inject_Z k) (1 # 2)) with Lt; [reflexivity|].
  symmetry. apply Qlt_alt.
  assert (H : inject_Z k - inject_Z k == 0) by ring. rewrite H. reflexivity.
Qed.

Lemma rhe_above k x : inject_Z k <= x -> (k <= round_half_even x)%Z.
Proof. intros H. rewrite <- (rhe_inject k). now apply rhe_mono. Qed.

Lemma rhe_below k x : x <= inject_Z k -> (round_half_even x <= k)%Z.
Proof. intros H. rewrite <- (rhe_inject k). now apply rhe_mono. Qed.

(** [nearest] on a positive number. *)
Lemma Qabs_of_pos q : 0 < q -> Qabs q = q.
Proof.
  destruct q as [n d]. unfold Qlt. simpl. intros H.
  destruct n; try lia. reflexivity.
Qed.

Lemma last_place_pos q :
  0 < q -> last_place q = Z.max (-1074) (binade q - 52).
Proof. intros H. unfold last_place. now rewrite Qabs_of_pos. Qed.

Lemma nearest_pos q :
  0 < q ->
  nearest q = inject_Z (round_half_even (q / pow2 (last_place q)))
              * pow2 (last_place q).
Proof.
  intros H. unfold nearest. destruct q as [n d].
  unfold Qlt in H. simpl in H. cbn [Qnum]. destruct n; try lia; reflexivity.
Qed.

Lemma scaled_mono e x y : x <= y -> x / pow2 e <= y / pow2 e.
Proof.
  intros H. unfold Qdiv. apply Qmult_le_compat_r; [exact H|].
  apply Qlt_le_weak, Qinv_lt_0_compat, pow2_pos.
Qed.

(** Rounding keeps the order of positive numbers. *)
Theorem nearest_mono x y : 0 < x -> x <= y -> nearest x <= nearest y.
Proof.
  intros Hx Hxy. assert (Hy : 0 < y) by (eapply Qlt_le_trans; eassumption).
  rewrite (nearest_pos x Hx), (nearest_pos y Hy).
  rewrite (last_place_pos x Hx), (last_place_pos y Hy).
  pose proof (binade_mono x y Hx Hxy) as Hb.
  destruct (binade_spec x Hx) as [_ X2].
  destruct (binade_spec y Hy) as [Y1 _].
  set (ex := Z.max (-1074) (binade x - 52)).
  set (ey := Z.max (-1074) (binade y - 52)).
  destruct (Z.eq_dec ex ey) as [E|E].
  - rewrite <- E. apply Qmult_le_compat_r; [|apply Qlt_le_weak, pow2_pos].
    rewrite <- Zle_Qle. apply rhe_mono. now apply scaled_mono.
  - assert (Hlt : (ex + 1 <= ey)%Z) by (subst ex ey; lia).
    assert (Hey : ey = (binade y - 52)%Z) by (subst ex ey; lia).
    assert (Hex : (binade x - 52 <= ex)%Z) by (subst ex; lia).
    apply Qle_trans with (pow2 (ex + 53)).
    + replace (ex + 53)%Z with (53 + ex)%Z by lia. rewrite pow2_add.
      apply Qmult_le_compat_r; [|apply Qlt_le_weak, pow2_pos].
      rewrite (pow2_inject 53) by lia. rewrite <- Zle_Qle.
      apply rhe_below. rewrite <- (pow2_inject 53) by lia.
      apply Qle_shift_div_r; [apply pow2_pos|].
      rewrite <- pow2_add. apply Qlt_le_weak.
      eapply Qlt_le_trans; [exact X2|]. apply pow2_le. lia.
    + apply Qle_trans with (pow2 (52 + ey)); [apply pow2_le; lia|].
      rewrite pow2_add.
      apply Qmult_le_compat_r; [|apply Qlt_le_weak, pow2_pos].
      rewrite (pow2_inject 52) by lia. rewrite <- Zle_Qle.
      apply rhe_above. rewrite <- (pow2_inject 52) by lia.
      apply Qle_shift_div_l; [apply pow2_pos|].
      rewrite <- pow2_add. eapply Qle_trans; [|exact Y1].
      apply pow2_le. lia.
Qed.

(** Every float is a multiple of the smallest positive one. *)
Lemma nearest_grid q : exists k, nearest q == inject_Z k * pow2 (-1074).
Proof.
  unfold nearest. destruct (Qnum q).
  - exists 0%Z. symmetry. apply Qmult_0_l.
  - exists (round_half_even (q / pow2 (last_place q))
            * 2 ^ (last_place q + 1074))%Z.
    rewrite inject_Z_mult, <- Qmult_assoc.
    rewrite <- (pow2_inject (last_place q + 1074)) by (unfold last_place; lia).
    rewrite <- pow2_add.
    replace (last_place q + 1074 + -1074)%Z with (last_place q) by lia.
    reflexivity.
  - exists (round_half_even (q / pow2 (last_place q))
            * 2 ^ (last_place q + 1074))%Z.
    rewrite inject_Z_mult, <- Qmult_assoc.
    rewrite <- (pow2_inject (last_place q + 1074)) by (unfold last_place; lia).
    rewrite <- pow2_add.
    replace (last_place q + 1074 + -1074)%Z with (last_place q) by lia.
    reflexivity.
Qed.

Lemma nearest_nonneg q : 0 <= q -> 0 <= nearest q.
Proof.
  intros H. apply Qle_lteq in H. destruct H as [H|H].
  - rewrite (nearest_pos q H).
    apply Qmult_le_0_compat; [|apply Qlt_le_weak, pow2_pos].
    replace 0 with (inject_Z 0) by reflexivity. rewrite <- Zle_Qle.
    apply rhe_above. apply Qle_shift_div_l; [apply pow2_pos|].
    change (inject_Z 0) with 0. rewrite Qmult_0_l. now apply Qlt_le_weak.
  - unfold nearest. destruct q as [n d]. unfold Qeq in H. simpl in H.
    cbn [Qnum]. replace n with 0%Z by lia. apply Qle_refl.
Qed.

(** [nearest] gives what the binary64 arithmetic of the Standard
    Library gives: for quotients of integers, for the difference and the
    quotient of the low-comment score, and for the conversion of an
    integer of more than 53 digits. *)
Example nearest_agrees_with_binary64 :
  forallb (fun ab =>
             same_value (nearest (inject_Z (fst ab) / inject_Z (snd ab)))
                        (SFdiv 53 1024 (binary64_of_int (fst ab))
                               (binary64_of_int (snd ab))))
          [ (1, 10); (2, 25); (1, 3); (2, 3); (4, 5); (19, 20); (2, 10);
            (355, 113); (-7, 9); (1, 2 ^ 1000); (2 ^ 60 + 1, 3) ]%Z
  = true
  /\ same_value
       (comment_score (2 # 25))
       (SFdiv 53 1024
          (SFsub 53 1024
             (SFdiv 53 1024 (binary64_of_int 1) (binary64_of_int 10))
             (SFdiv 53 1024 (binary64_of_int 2) (binary64_of_int 25)))
          (SFdiv 53 1024 (binary64_of_int 1) (binary64_of_int 10)))
     = true
  /\ forallb (fun z => same_value (nearest (inject_Z z)) (binary64_of_int z))
             [ 2 ^ 53 + 1; 2 ^ 53 + 3; 2 ^ 54 + 2; 2 ^ 54 + 6;
               2 ^ 1024 - 2 ^ 970 - 1 ]%Z
     = true
  /\ binary64_of_int (2 ^ 1024 - 2 ^ 970) = S754_infinity false
  /\ float_of_int (2 ^ 1024 - 2 ^ 970) = Raise OverflowError.
Proof. repeat split; vm_compute; reflexivity. Qed.

End FloatArithmetic.

(** ** The rule-based classifier *)

Section RuleClassifier.

Local Open Scope Q_scope.

Lemma float_lt_iff a b : float_lt a b = true <-> a < b.
Proof.
  unfold float_lt. rewrite negb_true_iff. split.
  - intros H. apply Qnot_le_lt. intros L. apply Qle_bool_iff in L. congruence.
  - intros H. destruct (Qle_bool b a) eqn:E; [|reflexivity].
    apply Qle_bool_iff in E. exfalso. exact (Qlt_not_le _ _ H E).
Qed.

Lemma float_lt_false a b : float_lt a b = false <-> b <= a.
Proof.
  unfold float_lt. rewrite negb_false_iff. apply Qle_bool_iff.
Qed.

Lemma qmin_range a : 0 < a -> 0 < qmin a 1 /\ qmin a 1 <= 1.
Proof.
  intros H. unfold qmin. destruct (float_lt 1 a) eqn:E.
  - split; [reflexivity|apply Qle_refl].
  - apply float_lt_false in E. split; assumption.
Qed.

(** The constants of the scores. *)
Lemma tenth_positive : 0 < nearest (1 # 10).
Proof. vm_compute. reflexivity. Qed.

Lemma nearest_one : nearest 1 == 1.
Proof. vm_compute. reflexivity. Qed.

Lemma nearest_tenth_fixed : nearest (nearest 0.1) == nearest 0.1.
Proof. vm_compute. reflexivity. Qed.

Lemma nearest_smallest : nearest (pow2 (-1074)) == pow2 (-1074).
Proof. vm_compute. reflexivity. Qed.

Lemma tenth_below_one : nearest 0.1 <= 1.
Proof. vm_compute. discriminate. Qed.

Lemma tenth_above : 1 # 10 <= nearest 0.1.
Proof. vm_compute. discriminate. Qed.

(** The score of a positive count lies in (0, 1]. *)
Lemma count_score_range count k s :
  (0 < count)%Z -> 0 < k -> k <= 10 ->
  count_score count k = Return s -> 0 < s /\ s <= 1.
Proof.
  intros Hc Hk Hk' H. unfold count_score, float_of_int, bind in H.
  destruct (Qle_bool (pow2 1024) (nearest (inject_Z count))); [discriminate|].
  injection H as <-. apply qmin_range.
  assert (H1 : 1 <= nearest (inject_Z count)).
  { rewrite <- nearest_one. apply nearest_mono; [reflexivity|].
    change 1 with (inject_Z 1). rewrite <- Zle_Qle. lia. }
  apply Qlt_le_trans with (nearest (1 # 10)); [exact tenth_positive|].
  apply nearest_mono; [reflexivity|].
  apply Qle_shift_div_l; [exact Hk|]. 
  apply Qle_trans with 1; [|exact H1]. lra.
Qed.

(** A count below [2^1023] converts. *)
Lemma float_of_int_returns z :
  (0 < z < 2 ^ 1023)%Z -> float_of_int z = Return (nearest (inject_Z z)).
Proof.
  intros [H0 H]. unfold float_of_int.
  destruct (Qle_bool (pow2 1024) (nearest (inject_Z z))) eqn:E;
    [|reflexivity].
  apply Qle_bool_iff in E. exfalso.
  assert (M : nearest (inject_Z z) <= nearest (inject_Z (2 ^ 1023))).
  { apply nearest_mono.
    - change 0 with (inject_Z 0). rewrite <- Zlt_Qlt. exact H0.
    - rewrite <- Zle_Qle. lia. }
  assert (C : nearest (inject_Z (2 ^ 1023)) < pow2 1024)
    by (vm_compute; reflexivity).
  exact (Qlt_not_le _ _ (Qle_lt_trans _ _ _ M C) E).
Qed.

(** The test [comment_ratio < 0.1] on the floats holds only when the
    ratio itself is below one tenth. *)
Lemma comment_test_sound r :
  float_lt (nearest r) (nearest 0.1) = true -> r < 1 # 10.
Proof.
  intros H. apply float_lt_iff in H. apply Qnot_le_lt. intros L.
  apply (Qlt_not_le _ _ H). apply nearest_mono; [reflexivity|exact L].
Qed.

(** For the ratio of two line counts of a file of fewer than [2^53]
    lines, the test on the floats and the comparison of the ratio with
    one tenth agree. *)
Lemma comment_test_exact (c t : Z) :
  (0 <= c)%Z -> (0 < t < 2 ^ 53)%Z ->
  inject_Z c / inject_Z t < 1 # 10 ->
  float_lt (nearest (inject_Z c / inject_Z t)) (nearest 0.1) = true.
Proof.
  intros Hc [Ht Ht'] H. apply float_lt_iff.
  assert (Qt : 0 < inject_Z t)
    by (change 0 with (inject_Z 0); now rewrite <- Zlt_Qlt).
  assert (Qc : 0 <= inject_Z c)
    by (change 0 with (inject_Z 0); now rewrite <- Zle_Qle).
  assert (Hz : (10 * c + 1 <= t)%Z).
  { assert (H' : inject_Z c / inject_Z t * inject_Z t
                 < (1 # 10) * inject_Z t)
      by (apply Qmult_lt_compat_r; assumption).
    assert (E : inject_Z c / inject_Z t * inject_Z t == inject_Z c).
    { field. intros E. rewrite E in Qt. discriminate. }
    rewrite E in H'. clear E.
    assert (G : inject_Z (10 * c) < inject_Z t).
    { rewrite inject_Z_mult. change (inject_Z 10) with (10 # 1).
      revert H'. generalize (inject_Z c) (inject_Z t). intros x y. lra. }
    rewrite <- Zlt_Qlt in G. lia. }
  assert (P : pow2 (-57) * inject_Z t <= 1 # 10).
  { apply Qle_trans with (pow2 (-57) * inject_Z (2 ^ 53)).
    - apply Qmult_le_l; [apply pow2_pos|]. rewrite <- Zle_Qle. lia.
    - vm_compute. discriminate. }
  assert (Q1 : (10 # 1) * inject_Z c + 1 <= inject_Z t).
  { change (10 # 1) with (inject_Z 10). rewrite <- inject_Z_mult.
    change 1 with (inject_Z 1). rewrite <- inject_Z_plus, <- Zle_Qle.
    exact Hz. }
  assert (B : inject_Z c / inject_Z t <= (1 # 10) - pow2 (-57)).
  { apply Qle_shift_div_r; [exact Qt|].
    revert P Q1. generalize (pow2 (-57)) (inject_Z c) (inject_Z t).
    intros g x y. lra. }
  destruct (Z.eq_dec c 0) as [->|Hc0].
  - replace (nearest (inject_Z 0 / inject_Z t)) with 0 by reflexivity.
    exact tenth_positive.
  - apply Qle_lt_trans with (nearest ((1 # 10) - pow2 (-57))).
    + apply nearest_mono; [|exact B].
      apply Qlt_shift_div_l; [exact Qt|]. rewrite Qmult_0_l.
      change 0 with (inject_Z 0). rewrite <- Zlt_Qlt. lia.
    + vm_compute. reflexivity.
Qed.

(** The score of a low comment ratio lies in (0, 1]. *)
Lemma comment_score_range r :
  0 <= r -> float_lt (nearest r) (nearest 0.1) = true ->
  0 < comment_score r /\ comment_score r <= 1.
Proof.
  intros Hr G. apply float_lt_iff in G. unfold comment_score.
  pose proof (nearest_nonneg r Hr) as H0.
  destruct (nearest_grid r) as [k Hk].
  destruct (nearest_grid 0.1) as [K HK].
  set (T := nearest 0.1) in *. set (p := nearest r) in *.
  pose proof (pow2_pos (-1074)) as Hg.
  assert (Hd : pow2 (-1074) <= T - p).
  { rewrite Hk, HK in G. apply Qmult_lt_r in G; [|exact Hg].
    rewrite <- Zlt_Qlt in G. rewrite Hk, HK.
    setoid_replace (inject_Z K * pow2 (-1074) - inject_Z k * pow2 (-1074))
      with (inject_Z (K - k) * pow2 (-1074))
      by (unfold Z.sub; rewrite inject_Z_plus, inject_Z_opp; ring).
    rewrite <- (Qmult_1_l (pow2 (-1074))) at 1.
    apply Qmult_le_compat_r; [|now apply Qlt_le_weak].
    change 1 with (inject_Z 1). rewrite <- Zle_Qle. lia. }
  assert (L1 : pow2 (-1074) <= nearest (T - p)).
  { rewrite <- nearest_smallest. apply nearest_mono; assumption. }
  assert (U1 : nearest (T - p) <= T).
  { unfold T at 2. rewrite <- nearest_tenth_fixed. fold T.
    apply nearest_mono; [exact (Qlt_le_trans _ _ _ Hg Hd)|]. lra. }
  assert (HT : 0 < T) by exact tenth_positive.
  assert (HT1 : T <= 1) by exact tenth_below_one.
  assert (L2 : pow2 (-1074) <= nearest (T - p) / T).
  { apply Qle_shift_div_l; [exact HT|].
    apply Qle_trans with (pow2 (-1074) * 1); [|lra].
    apply Qmult_le_l; assumption. }
  assert (U2 : nearest (T - p) / T <= 1).
  { apply Qle_shift_div_r; [exact HT|]. lra. }
  split.
  - apply Qlt_le_trans with (pow2 (-1074)); [exact Hg|].
    rewrite <- nearest_smallest. apply nearest_mono; assumption.
  - rewrite <- nearest_one.
    apply nearest_mono; [exact (Qlt_le_trans _ _ _ Hg L2)|exact U2].
Qed.

(** What [assign] and [bind] leave in the dictionary. *)
Lemma assign_returns name applies score scores scores' :
  assign name applies score scores = Return scores' ->
  (applies = false /\ scores' = scores)
  \/ (applies = true
      /\ exists x, score = Return x /\ scores' = (scores ++ [(name, x)])%list).
Proof.
  unfold assign, bind. destruct applies.
  - destruct score as [x|e]; [|discriminate].
    intros H. injection H as <-. right. split; [reflexivity|].
    exists x. auto.
  - intros H. injection H as <-. left. auto.
Qed.

Lemma best_of_In items : forall best,
  In (best_of best items) (best :: items).
Proof.
  induction items as [|x t IH]; intros best; [now left|].
  cbn [best_of]. destruct (float_lt (snd best) (snd x)).
  - right. apply IH.
  - destruct (IH best) as [E|H]; [now left|right; now right].
Qed.

Lemma Forall_when {A : Type} (P : A -> Prop) (c : bool) (x : A) :
  (c = true -> P x) -> Forall P (if c then [x] else []).
Proof. destruct c; intros H; constructor; auto. Qed.

Lemma smell_scores_entries f scores :
  smell_scores f = Return scores -> Forall (scored_by f) scores.
Proof.
  unfold smell_scores. intros H.
  repeat match type of H with
         | bind ?x _ = Return _ =>
             let s := fresh "s" in
             let E := fresh "E" in
             destruct x as [s|] eqn:E; [cbn [bind] in H|discriminate]
         end.
  assert (Step : forall name count k scores0 scores1,
             assign name (0 <? count)%Z (count_score count k) scores0
             = Return scores1 ->
             Forall (scored_by f) scores0 ->
             In (name, count, k)
                [ ("long_method", long_method_count f, 5);
                  ("complex_method", complex_method_count f, 3);
                  ("long_parameter_list", large_parameter_list_count f, 3);
                  ("naming_issues", naming_convention_violations f, 10);
                  ("large_class", long_class_count f, 2) ] ->
             Forall (scored_by f) scores1).
  { intros name count k scores0 scores1 Ha H0 Hin.
    apply assign_returns in Ha. destruct Ha as [[_ ->]|(Hc & x & Hx & ->)];
      [exact H0|].
    apply Forall_app. split; [exact H0|]. constructor; [|constructor].
    left. exists count, k. cbn [fst snd]. split; [exact Hin|].
    split; [now apply Z.ltb_lt|exact Hx]. }
  assert (F0 : Forall (scored_by f) s)
    by (apply (Step _ _ _ _ _ E); [constructor|simpl; auto 10]).
  assert (F1 : Forall (scored_by f) s0)
    by (apply (Step _ _ _ _ _ E0 F0); simpl; auto 10).
  assert (F2 : Forall (scored_by f) s1)
    by (apply (Step _ _ _ _ _ E1 F1); simpl; auto 10).
  assert (F3 : Forall (scored_by f) s2)
    by (apply (Step _ _ _ _ _ E2 F2); simpl; auto 10).
  assert (F4 : Forall (scored_by f) s3)
    by (apply (Step _ _ _ _ _ E3 F3); simpl; auto 10).
  apply assign_returns in H. destruct H as [[_ ->]|(Hc & x & Hx & ->)];
    [exact F4|].
  apply Forall_app. split; [exact F4|]. constructor; [|constructor].
  right. cbn [fst snd]. injection Hx as <-. auto.
Qed.

Lemma count_score_raises count k e :
  count_score count k = Raise e -> e = OverflowError.
Proof.
  unfold count_score, float_of_int, bind.
  destruct (Qle_bool (pow2 1024) (nearest (inject_Z count)));
    [|discriminate].
  intros H. injection H as <-. reflexivity.
Qed.

Lemma assign_raises name applies count k scores e :
  assign name applies (count_score count k) scores = Raise e ->
  e = OverflowError.
Proof.
  unfold assign, bind. destruct applies; [|discriminate].
  destruct (count_score count k) as [x|e'] eqn:E; [discriminate|].
  intros H. injection H as <-. exact (count_score_raises count k e' E).
Qed.

Lemma smell_scores_raises f e :
  smell_scores f = Raise e -> e = OverflowError.
Proof.
  unfold smell_scores. intros H.
  repeat match type of H with
         | bind ?x _ = Raise _ =>
             let s := fresh "s" in
             let E := fresh "E" in
             destruct x as [s|] eqn:E;
             [cbn [bind] in H
             |cbn [bind] in H; injection H as <-;
              eapply assign_raises; eassumption]
         end.
  unfold assign, bind in H.
  destruct (float_lt (nearest (comment_ratio f)) (nearest 0.1));
    discriminate.
Qed.

Lemma assign_count_returns name count k scores :
  (count < 2 ^ 1023)%Z ->
  exists scores',
    assign name (0 <? count)%Z (count_score count k) scores = Return scores'.
Proof.
  intros H. unfold assign. destruct (0 <? count)%Z eqn:E.
  - apply Z.ltb_lt in E. unfold count_score.
    rewrite float_of_int_returns by lia. cbn [bind]. eexists. reflexivity.
  - eexists. reflexivity.
Qed.

Lemma smell_scores_returns f :
  counts_convert f -> exists scores, smell_scores f = Return scores.
Proof.
  unfold counts_convert. intros H.
  repeat match goal with
         | H : Forall _ (_ :: _) |- _ => inversion_clear H
         end.
  unfold smell_scores.
  repeat match goal with
         | |- exists _, bind (assign ?n (0 <? ?c)%Z (count_score ?c ?k) ?s) _
                        = _ =>
             let s' := fresh "s" in
             let E := fresh "E" in
             destruct (assign_count_returns n c k s) as [s' E];
             [assumption|rewrite E; cbn [bind]]
         end.
  unfold assign.
  destruct (float_lt (nearest (comment_ratio f)) (nearest 0.1));
    eexists; reflexivity.
Qed.

(** With no entry in the dictionary, no count is positive and the test
    of the comment ratio fails. *)
Lemma smell_scores_empty f :
  smell_scores f = Return [] ->
  Forall (fun count => (0 <? count)%Z = false)
         [ long_method_count f; complex_method_count f;
           large_parameter_list_count f; naming_convention_violations f;
           long_class_count f ]
  /\ float_lt (nearest (comment_ratio f)) (nearest 0.1) = false.
Proof.
  unfold smell_scores. intros H.
  repeat match type of H with
         | bind ?x _ = Return _ =>
             let s := fresh "s" in
             let E := fresh "E" in
             destruct x as [s|] eqn:E; [cbn [bind] in H|discriminate]
         end.
  assert (Back : forall name applies score scores0,
             assign name applies score scores0 = Return [] ->
             applies = false /\ scores0 = []).
  { intros name applies score scores0 Ha.
    apply assign_returns in Ha.
    destruct Ha as [[-> ->]|(_ & x & _ & Hx)]; [auto|].
    destruct scores0; discriminate. }
  apply Back in H. destruct H as [G ->].
  apply Back in E3. destruct E3 as [G5 ->].
  apply Back in E2. destruct E2 as [G4 ->].
  apply Back in E1. destruct E1 as [G3 ->].
  apply Back in E0. destruct E0 as [G2 ->].
  apply Back in E. destruct E as [G1 _].
  split; [|exact G]. repeat constructor; assumption.
Qed.

Lemma nearest_same x y : 0 <= x -> x == y -> nearest x == nearest y.
Proof.
  intros Hx E. apply Qle_lteq in Hx. destruct Hx as [Hx|Hx].
  - apply Qle_antisym; apply nearest_mono;
      rewrite ?E; try rewrite <- E; try exact Hx; apply Qle_refl.
  - assert (Hy : 0 == y) by (now rewrite <- E).
    unfold nearest. destruct x as [n d], y as [m d'].
    unfold Qeq in Hx, Hy. simpl in Hx, Hy. cbn [Qnum].
    replace n with 0%Z by lia. replace m with 0%Z by lia. reflexivity.
Qed.

(** The dictionaries of [_detect_specific_issues] once no count is
    positive. *)
Lemma specific_issues_without_counts f :
  Forall (fun count => (0 <? count)%Z = false)
         [ long_method_count f; complex_method_count f;
           large_parameter_list_count f; naming_convention_violations f;
           long_class_count f ] ->
  _detect_specific_issues f
  = ((if Qlt_le_dec (comment_ratio f) 0.1
      then [mkDict "low_comment_ratio" "info"] else [])
     ++ (if (20 <? cyclomatic_complexity f)%Z
         then [mkDict "high_complexity" "error"] else []))%list.
Proof.
  intros H.
  repeat match goal with
         | H : Forall _ (_ :: _) |- _ => inversion_clear H
         end.
  unfold _detect_specific_issues.
  repeat match goal with
         | H : (0 <? _)%Z = false |- _ => rewrite H; clear H
         end.
  reflexivity.
Qed.

Lemma scored_is_reported f entry :
  scored_by f entry ->
  fst entry <> "clean"
  /\ In (fst entry) (map d_type (_detect_specific_issues f)).
Proof.
  intros [(count & k & Hin & Hc & _)|(E & G & _)].
  - apply Z.ltb_lt in Hc. unfold _detect_specific_issues.
    rewrite !map_app.
    cbn [In] in Hin.
    destruct Hin as [Hin|[Hin|[Hin|[Hin|[Hin|[]]]]]];
      injection Hin as <- <- _; (split; [discriminate|]);
      rewrite Hc; rewrite !in_app_iff; cbn [map In d_type]; tauto.
  - apply comment_test_sound in G. rewrite E. split; [discriminate|].
    unfold _detect_specific_issues. rewrite !map_app, !in_app_iff.
    destruct (Qlt_le_dec (comment_ratio f) 0.1) as [L|L].
    + cbn [map In d_type]. tauto.
    + exfalso. exact (Qlt_not_le _ _ G L).
Qed.

Lemma predict_with_rules_cases f label conf :
  _predict_with_rules f = Return (label, conf) ->
  (smell_scores f = Return [] /\ label = "clean" /\ conf = nearest 0.8)
  \/ scored_by f (label, conf).
Proof.
  unfold _predict_with_rules.
  destruct (smell_scores f) as [[|x t]|e] eqn:E; cbn [bind];
    [|
    |discriminate].
  - intros H. injection H as <- <-. left. auto.
  - intros H. injection H as H. right.
    pose proof (smell_scores_entries f _ E) as Hs.
    rewrite Forall_forall in Hs. apply Hs. rewrite <- H. apply best_of_In.
Qed.

(** What [_predict_with_rules] returns is [clean] with the float of
    0.8, and then [_detect_specific_issues] reports nothing but
    [high_complexity] and [low_comment_ratio], or it is a label other
    than [clean] that is the type of one of the findings of
    [_detect_specific_issues].  For a comment ratio made of the line
    counts of a file of fewer than [2^53] lines, the answer [clean]
    leaves nothing but [high_complexity] to report.  The function
    returns when the counts are below [2^1023], and raises nothing but
    the [OverflowError] of a count that no float holds. *)
Theorem rules_label_is_a_finding (f : CodeFeatures) :
  (counts_convert f -> exists answer, _predict_with_rules f = Return answer)
  /\ (forall e, _predict_with_rules f = Raise e -> e = OverflowError)
  /\ (forall label conf,
        _predict_with_rules f = Return (label, conf) ->
        (label = "clean" /\ conf = nearest 0.8
         /\ Forall (fun d => d_type d = "high_complexity"
                             \/ d_type d = "low_comment_ratio")
                   (_detect_specific_issues f))
        \/ (label <> "clean"
            /\ In label (map d_type (_detect_specific_issues f))))
  /\ (forall c t conf,
        (0 <= c)%Z -> (0 < t < 2 ^ 53)%Z ->
        comment_ratio f == inject_Z c / inject_Z t ->
        _predict_with_rules f = Return ("clean", conf) ->
        Forall (fun d => d_type d = "high_complexity")
               (_detect_specific_issues f)).
Proof.
  split; [|split; [|split]].
  - intros H. destruct (smell_scores_returns f H) as [scores E].
    unfold _predict_with_rules. rewrite E. cbn [bind].
    destruct scores; eexists; reflexivity.
  - intros e. unfold _predict_with_rules.
    destruct (smell_scores f) as [[|x t]|e'] eqn:E; cbn [bind];
      try discriminate.
    intros H. injection H as <-. exact (smell_scores_raises f e' E).
  - intros label conf H.
    destruct (predict_with_rules_cases f label conf H)
      as [(E & -> & ->)|S].
    + left. split; [reflexivity|]. split; [reflexivity|].
      destruct (smell_scores_empty f E) as [Hc _].
      rewrite (specific_issues_without_counts f Hc).
      apply Forall_app. split.
      * destruct (Qlt_le_dec (comment_ratio f) 0.1);
          [constructor; [now right|constructor]|constructor].
      * apply Forall_when. intros _. now left.
    + right. exact (scored_is_reported f (label, conf) S).
  - intros c t conf Hc Ht Hr H.
    destruct (predict_with_rules_cases f "clean" conf H)
      as [(E & _ & _)|S].
    + destruct (smell_scores_empty f E) as [Hn G].
      rewrite (specific_issues_without_counts f Hn).
      apply Forall_app. split; [|apply Forall_when; intros _; reflexivity].
      destruct (Qlt_le_dec (comment_ratio f) 0.1) as [L|L]; [|constructor].
      exfalso. rewrite Hr in L.
      pose proof (comment_test_exact c t Hc Ht L) as G'.
      apply float_lt_iff in G'. apply float_lt_false in G.
      assert (N : 0 <= inject_Z c / inject_Z t).
      { apply Qle_shift_div_l.
        - change 0 with (inject_Z 0). rewrite <- Zlt_Qlt. lia.
        - rewrite Qmult_0_l. change 0 with (inject_Z 0).
          rewrite <- Zle_Qle. lia. }
      rewrite <- (nearest_same _ _ N (Qeq_sym _ _ Hr)) in G.
      exact (Qlt_not_le _ _ G' G).
    + destruct (scored_is_reported f _ S) as [N _]. now elim N.
Qed.

(** On a profile with two naming violations and a comment ratio of
    2/25, the scores are the floats 0.2 and 0.20000000000000004, and the
    answer is [low_comment_ratio]. *)
Example rules_on_sparse_profile :
  exists naming low,
    smell_scores sparse_profile
    = Return [("naming_issues", naming); ("low_comment_ratio", low)]
    /\ naming == 3602879701896397 # 18014398509481984
    /\ low == 7205759403792795 # 36028797018963968
    /\ _predict_with_rules sparse_profile
       = Return ("low_comment_ratio", low).
Proof.
  eexists. eexists. split; [vm_compute; reflexivity|].
  split; [reflexivity|]. split; [reflexivity|]. vm_compute. reflexivity.
Qed.

Lemma scored_in_range f entry :
  0 <= comment_ratio f -> scored_by f entry ->
  0 < snd entry /\ snd entry <= 1.
Proof.
  intros Hr [(count & k & Hin & Hc & Hs)|(_ & G & ->)].
  - apply (count_score_range count k (snd entry) Hc); [| |exact Hs];
      cbn [In] in Hin;
      destruct Hin as [Hin|[Hin|[Hin|[Hin|[Hin|[]]]]]];
      injection Hin as _ _ <-; first [reflexivity|discriminate].
  - now apply comment_score_range.
Qed.

(** For a profile whose comment ratio is not negative, the confidence
    that [_predict_with_rules] returns is a float above 0 and at most
    1. *)
Theorem rules_confidence_range
        (f : CodeFeatures) (label : string) (conf : Q) :
  0 <= comment_ratio f ->
  _predict_with_rules f = Return (label, conf) ->
  0 < conf /\ conf <= 1.
Proof.
  intros Hr H.
  destruct (predict_with_rules_cases f label conf H) as [(_ & _ & ->)|S].
  - split; [vm_compute; reflexivity|vm_compute; discriminate].
  - exact (scored_in_range f (label, conf) Hr S).
Qed.

Lemma rules_confidence_range_witness :
  (0 <= comment_ratio sparse_profile
   /\ _predict_with_rules sparse_profile
      = Return ("low_comment_ratio", comment_score (2 # 25)))
  /\ 0 < comment_score (2 # 25) /\ comment_score (2 # 25) <= 1.
Proof.
  assert (H1 : 0 <= comment_ratio sparse_profile) by (vm_compute; discriminate).
  assert (H2 : _predict_with_rules sparse_profile
               = Return ("low_comment_ratio", comment_score (2 # 25)))
    by (vm_compute; reflexivity).
  split; [split; [exact H1|exact H2]|].
  exact (rules_confidence_range sparse_profile "low_comment_ratio"
                                (comment_score (2 # 25)) H1 H2).
Defined.

End RuleClassifier.
(** ** [extract_features] and [detect_smells] on a path *)

Lemma extract_features_escapes fuel O w file_path e :
  php w file_path = Fails e -> caught e = false ->
  extract_features fuel O w file_path = Some (Raise e).
Proof.
  intros P C. unfold extract_features.
  now rewrite (parse_file_escapes O w file_path e P C).
Qed.

(** With a launch that the handler covers, [extract_features] raises
    what [open] raises, and on a readable file it goes on to the
    inheritance depth of the classes that [parse_file] has returned. *)
Lemma extract_features_cases fuel O w file_path :
  launches w file_path = true ->
  match file w file_path with
  | Missing =>
      extract_features fuel O w file_path = Some (Raise FileNotFoundError)
  | Unreadable e =>
      extract_features fuel O w file_path = Some (Raise e)
  | Readable content =>
      exists r,
        parse_file O w file_path = Return r
        /\ extract_features fuel O w file_path
           = option_map (fun depth => Return (features_of r content depth))
                        (_calculate_inheritance_depth fuel (classes r))
  end.
Proof.
  intros L. unfold extract_features.
  destruct (backend_facts w file_path) as [r|] eqn:B.
  - rewrite (parse_file_answered O w file_path r B). unfold read_file.
    destruct (file w file_path) as [|e|content] eqn:F.
    + rewrite (backend_silent_on_missing w file_path F) in B. discriminate.
    + reflexivity.
    + exists r. split; [reflexivity|].
      destruct (_calculate_inheritance_depth fuel (classes r)); reflexivity.
  - rewrite (parse_file_fallback O w file_path L B).
    unfold _simple_parse, read_file.
    destruct (file w file_path) as [|e|content]; [reflexivity|reflexivity|].
    exists (simple_parse_text O content). split; [reflexivity|].
    destruct (_calculate_inheritance_depth
                fuel (classes (simple_parse_text O content))); reflexivity.
Qed.

(** [extract_features] raises in two ways only: [subprocess.run] raises
    an exception that the handler of [parse_file] does not list, or the
    launch raises nothing of that kind and [open] raises:
    [FileNotFoundError] on a missing path, [PermissionError] or
    [IsADirectoryError] on a path that exists, also when the backend has
    answered for it, from the [open] of [extract_features] itself.  On a
    readable file with such a launch it raises nothing. *)
Theorem extract_features_errors
        (fuel : nat) (O : SetOrder) (w : world) (file_path : string) (e : exn) :
  extract_features fuel O w file_path = Some (Raise e)
  <-> (php w file_path = Fails e /\ caught e = false)
      \/ (launches w file_path = true /\ read_file w file_path = Raise e).
Proof.
  destruct (launches w file_path) eqn:L.
  - pose proof (extract_features_cases fuel O w file_path L) as C.
    unfold read_file.
    destruct (file w file_path) as [|e0|content].
    + rewrite C. split.
      * intros H. injection H as <-. right. split; reflexivity.
      * intros [[P Hc]|[_ H]].
        -- rewrite (launch_covered w file_path e L P) in Hc. discriminate.
        -- injection H as <-. reflexivity.
    + rewrite C. split.
      * intros H. injection H as <-. right. split; reflexivity.
      * intros [[P Hc]|[_ H]].
        -- rewrite (launch_covered w file_path e L P) in Hc. discriminate.
        -- injection H as <-. reflexivity.
    + destruct C as (r & _ & ->). split.
      * destruct (_calculate_inheritance_depth fuel (classes r)); discriminate.
      * intros [[P Hc]|[_ H]]; [|discriminate].
        rewrite (launch_covered w file_path e L P) in Hc. discriminate.
  - destruct (launch_refused w file_path L) as (e' & P & Hc).
    rewrite (extract_features_escapes fuel O w file_path e' P Hc). split.
    + intros H. injection H as <-. left. split; assumption.
    + intros [[P' _]|[H _]]; [|discriminate].
      rewrite P in P'. injection P' as ->. reflexivity.
Qed.

(** On [guarded_world] the launch fails for the readable file, and on
    the directory as well; on [bare_world] the error is the one of
    [open]. *)
Example extract_features_errors_on_samples :
  extract_features 1 last_seen_order guarded_world "a.php"
  = Some (Raise PermissionError)
  /\ extract_features 1 last_seen_order guarded_world "src"
     = Some (Raise PermissionError)
  /\ extract_features 1 last_seen_order bare_world "locked.php"
     = Some (Raise PermissionError)
  /\ extract_features 1 last_seen_order bare_world "nowhere.php"
     = Some (Raise FileNotFoundError).
Proof. repeat split. Qed.

Section OnPath.

Variable O : SetOrder.
Variable predict : CodeFeatures -> string * Q.
Variable w : world.

Lemma detect_smells_on_cases fuel file_path :
  match file w file_path with
  | Missing =>
      detect_smells_on O predict w fuel file_path
      = Some (Raise FileNotFoundError)
  | Unreadable _ =>
      exists e, detect_smells_on O predict w fuel file_path = Some (Raise e)
  | Readable content =>
      if launches w file_path
      then exists r,
             parse_file O w file_path = Return r
             /\ detect_smells_on O predict w fuel file_path
                = option_map
                    (fun depth =>
                       Return (detect_smells O predict file_path
                                 (features_of r content depth)
                                 (Some (readlines content))))
                    (_calculate_inheritance_depth fuel (classes r))
      else exists e,
             parse_file O w file_path = Raise e
             /\ detect_smells_on O predict w fuel file_path = Some (Raise e)
  end.
Proof.
  unfold detect_smells_on, read_file.
  destruct (launches w file_path) eqn:L.
  - pose proof (extract_features_cases fuel O w file_path L) as C.
    destruct (file w file_path) as [|e|content].
    + reflexivity.
    + exists e. now rewrite C.
    + destruct C as (r & P & ->). exists r. split; [exact P|].
      destruct (_calculate_inheritance_depth fuel (classes r)); reflexivity.
  - destruct (launch_refused w file_path L) as (e & P & Hc).
    rewrite (extract_features_escapes fuel O w file_path e P Hc).
    destruct (file w file_path) as [|e0|content].
    + reflexivity.
    + exists e. reflexivity.
    + exists e. split; [now apply parse_file_escapes|reflexivity].
Qed.

(** The shape of a result of [detect_smells]. *)
Lemma detect_smells_on_returned fuel file_path res :
  detect_smells_on O predict w fuel file_path = Some (Return res) ->
  exists content r depth,
    file w file_path = Readable content
    /\ launches w file_path = true
    /\ parse_file O w file_path = Return r
    /\ _calculate_inheritance_depth fuel (classes r) = Some depth
    /\ res = detect_smells O predict file_path (features_of r content depth)
                           (Some (readlines content)).
Proof.
  intros H. pose proof (detect_smells_on_cases fuel file_path) as C.
  destruct (file w file_path) as [|e|content].
  - congruence.
  - destruct C as [e' C]. congruence.
  - destruct (launches w file_path).
    + destruct C as (r & P & C). rewrite C in H.
      destruct (_calculate_inheritance_depth fuel (classes r)) as [depth|] eqn:D;
        [|discriminate].
      injection H as <-. exists content, r, depth. auto.
    + destruct C as (e & _ & C). congruence.
Qed.

(** On an analysable file whose classes have no cycle, [detect_smells]
    returns. *)
Lemma detect_smells_on_returns n file_path content :
  file w file_path = Readable content ->
  launches w file_path = true ->
  (forall r, parse_file O w file_path = Return r ->
             acyclic_within n (classes r)) ->
  exists r depth,
    parse_file O w file_path = Return r
    /\ detect_smells_on O predict w (S n) file_path
       = Some (Return (detect_smells O predict file_path
                         (features_of r content depth)
                         (Some (readlines content)))).
Proof.
  intros F L Hp. pose proof (detect_smells_on_cases (S n) file_path) as C.
  rewrite F, L in C. destruct C as (r & P & C).
  destruct (Hp r P) as (rank & Hr & Hn).
  destruct (depth_loop_ranked (classes r) rank n Hr Hn (classes r) 0)
    as (d & Hd & _).
  exists r, d. split; [exact P|]. rewrite C.
  unfold _calculate_inheritance_depth. now rewrite Hd.
Qed.

End OnPath.

(** A result of [detect_smells] is made from a readable file: its
    path is the one asked for, its profile the one of the parse result
    and of the text, and its detailed issues the scan of the lines of the
    text.  The [except] branch of [_detect_detailed_issues] shapes no
    result: a file that cannot be read makes [extract_features] raise
    before. *)
Theorem detect_smells_result
        (O : SetOrder) (predict : CodeFeatures -> string * Q) (w : world)
        (fuel : nat) (file_path : string) (res : SmellDetectionResult) :
  detect_smells_on O predict w fuel file_path = Some (Return res) ->
  exists content r depth,
    file w file_path = Readable content
    /\ parse_file O w file_path = Return r
    /\ _calculate_inheritance_depth fuel (classes r) = Some depth
    /\ Adapter.file_path res = file_path
    /\ features res = features_of r content depth
    /\ detailed_issues res = scan_lines (readlines content)
    /\ issues res = _detect_specific_issues (features res).
Proof.
  intros H.
  destruct (detect_smells_on_returned O predict w fuel file_path res H)
    as (content & r & depth & F & _ & P & D & ->).
  exists content, r, depth.
  split; [exact F|]. split; [exact P|]. split; [exact D|].
  unfold detect_smells. cbv zeta.
  match goal with
  | |- context [let '(_, _) := ?p in _] => destruct p as [label conf]
  end.
  repeat split.
Qed.

Lemma a_php_detected :
  detect_smells_on last_seen_order says_clean bare_world 1 "a.php"
  = Some (Return a_php_result).
Proof. reflexivity. Qed.

Lemma detect_smells_result_witness :
  detect_smells_on last_seen_order says_clean bare_world 1 "a.php"
  = Some (Return a_php_result)
  /\ exists content r depth,
       file bare_world "a.php" = Readable content
       /\ parse_file last_seen_order bare_world "a.php" = Return r
       /\ _calculate_inheritance_depth 1 (classes r) = Some depth
       /\ Adapter.file_path a_php_result = "a.php"
       /\ features a_php_result = features_of r content depth
       /\ detailed_issues a_php_result = scan_lines (readlines content)
       /\ issues a_php_result
          = _detect_specific_issues (features a_php_result).
Proof.
  split; [exact a_php_detected|].
  exact (detect_smells_result last_seen_order says_clean bare_world 1 "a.php"
           a_php_result a_php_detected).
Defined.

(** ** The priority of an unsafe query *)



Lemma unsafe_world_acyclic r :
  parse_file last_seen_order unsafe_world "unsafe.php" = Return r ->
  acyclic_within 1 (classes r).
Proof.
  intros H.
  assert (E : parse_file last_seen_order unsafe_world "unsafe.php"
              = Return (simple_parse_text last_seen_order
                          (String.concat EmptyString unsafe_file)))
    by reflexivity.
  rewrite E in H. injection H as <-.
  exists (fun _ => 0). split; [|intros; lia].
  intros e c p Lk. exfalso. vm_compute in Lk. discriminate.
Qed.


(** The result on the sample: the launch is covered, the file has no
    class, and the label is the one of the unsafe query. *)
Example unsafe_file_labelled :
  exists res,
    detect_smells_on last_seen_order says_clean unsafe_world 2 "unsafe.php"
    = Some (Return res)
    /\ smell_type res = "security_issues"
    /\ confidence res = 0.95%Q
    /\ map severity (detailed_issues res)
       = ["error"; "warning"; "warning"; "warning"; "warning"; "warning"].
Proof.
  eexists. split; [vm_compute; reflexivity|].
  split; [reflexivity|]. split; [reflexivity|]. vm_compute. reflexivity.
Qed.



(** ** Reported lines and the line count of the profile *)

Lemma readlines_length content :
  List.length (readlines content) <= count newline content + 1.
Proof.
  induction content as [|c t IH]; [simpl; lia|].
  cbn [readlines count]. unfold newline in *.
  destruct (Ascii.eqb c "010"); [simpl; lia|].
  destruct (readlines t); simpl in *; lia.
Qed.

(** For a file read by the fallback parser, no issue is reported at a
    line beyond the line count of the profile. *)
Theorem reported_lines_within_profile
        (O : SetOrder) (predict : CodeFeatures -> string * Q) (w : world)
        (fuel : nat) (file_path content : string)
        (res : SmellDetectionResult) :
  file w file_path = Readable content ->
  parse_file O w file_path = Return (simple_parse_text O content) ->
  detect_smells_on O predict w fuel file_path = Some (Return res) ->
  Forall (fun x => (Z.of_nat (line_number x) <= lines_of_code (features res))%Z)
         (detailed_issues res).
Proof.
  intros F P H.
  destruct (detect_smells_on_returned O predict w fuel file_path res H)
    as (content' & r & depth & F' & _ & P' & _ & ->).
  rewrite F in F'. injection F' as <-.
  rewrite P in P'. injection P' as <-.
  unfold detect_smells. cbv zeta.
  match goal with
  | |- context [let '(_, _) := ?p in _] => destruct p as [label conf]
  end.
  cbn [detailed_issues features _detect_detailed_issues].
  apply Forall_forall. intros x Hx.
  apply scan_well_formed in Hx. destruct Hx as [[_ Hx] _].
  pose proof (readlines_length content) as Hl.
  unfold features_of. cbv zeta. cbn [lines_of_code simple_parse_text lines].
  lia.
Qed.

Lemma reported_lines_within_profile_witness :
  (file bare_world "a.php" = Readable a_php_text
   /\ parse_file last_seen_order bare_world "a.php"
      = Return (simple_parse_text last_seen_order a_php_text)
   /\ detect_smells_on last_seen_order says_clean bare_world 1 "a.php"
      = Some (Return a_php_result))
  /\ Forall (fun x => (Z.of_nat (line_number x)
                       <= lines_of_code (features a_php_result))%Z)
            (detailed_issues a_php_result).
Proof.
  assert (H1 : file bare_world "a.php" = Readable a_php_text) by reflexivity.
  assert (H2 : parse_file last_seen_order bare_world "a.php"
               = Return (simple_parse_text last_seen_order a_php_text))
    by reflexivity.
  split; [split; [exact H1|split; [exact H2|exact a_php_detected]]|].
  exact (reported_lines_within_profile last_seen_order says_clean bare_world
           1 "a.php" a_php_text a_php_result H1 H2 a_php_detected).
Defined.

(** ** [detect_batch] *)

Lemma file_path_of_result O predict path feats readable :
  Adapter.file_path (detect_smells O predict path feats readable) = path.
Proof.
  unfold detect_smells. cbv zeta.
  match goal with
  | |- context [let '(_, _) := ?x in _] => destruct x as [label conf]
  end. reflexivity.
Qed.

(** When the class lists of the parsed files have no cycle,
    [detect_batch] returns, and its results are those of the analysable
    paths, in the order of the paths: a path that is missing or cannot
    be opened is left out, a path for which the launch of the
    interpreter raises what [parse_file] does not handle is left out,
    and the batch goes on. *)
Theorem batch_skips_failures
        (O : SetOrder) (predict : CodeFeatures -> string * Q) (w : world)
        (n : nat) (file_paths : list string) :
  (forall p r, In p file_paths -> parse_file O w p = Return r ->
               acyclic_within n (classes r)) ->
  exists results,
    detect_batch O predict w (S n) file_paths = Some results
    /\ map Adapter.file_path results = filter (analysable w) file_paths
    /\ Forall (fun res =>
                 detect_smells_on O predict w (S n) (Adapter.file_path res)
                 = Some (Return res)) results.
Proof.
  induction file_paths as [|p paths IH]; intros Hp.
  - exists []. split; [reflexivity|]. split; [reflexivity|constructor].
  - destruct IH as (rs & Hrs & Hmap & Hall).
    { intros q r Hq. apply Hp. now right. }
    cbn [detect_batch]. rewrite Hrs.
    pose proof (detect_smells_on_cases O predict w (S n) p) as C.
    cbn [filter]. unfold analysable at 1, can_read.
    destruct (file w p) as [|e|content] eqn:F; cbn [andb].
    + rewrite C. exists rs. auto.
    + destruct C as [e' ->]. exists rs. auto.
    + destruct (launches w p) eqn:L.
      * destruct (detect_smells_on_returns O predict w n p content F L)
          as (r & d & _ & H).
        { intros r. apply Hp. now left. }
        rewrite H. eexists. split; [reflexivity|].
        cbn [map]. rewrite file_path_of_result, Hmap.
        split; [reflexivity|].
        constructor; [now rewrite file_path_of_result|exact Hall].
      * destruct C as (e & _ & ->). exists rs. auto.
Qed.

Lemma bare_world_acyclic p r :
  parse_file last_seen_order bare_world p = Return r ->
  acyclic_within 1 (classes r).
Proof.
  intros H.
  assert (Hc : classes r = [] \/ classes r = [mkClass "A" None [] [] 0]).
  { revert H. unfold parse_file, parse_file_try, subprocess_run. cbn [php bare_world caught].
    unfold _simple_parse, read_file. cbn [file bare_world].
    destruct (String.eqb p "a.php").
    - intros H. injection H as <-. right. vm_compute. reflexivity.
    - destruct (String.eqb p "locked.php"); discriminate. }
  exists (fun _ => 0). split; [|intros; lia].
  intros e c q Lk T. exfalso. destruct Hc as [Hc|Hc]; rewrite Hc in Lk.
  - discriminate.
  - unfold lookup_class in Lk. cbn [find name] in Lk.
    destruct (String.eqb "A" e); [|discriminate].
    injection Lk as <-. discriminate.
Qed.

Lemma guarded_world_acyclic p r :
  parse_file last_seen_order guarded_world p = Return r ->
  acyclic_within 1 (classes r).
Proof.
  rewrite (parse_file_escapes last_seen_order guarded_world p PermissionError)
    by reflexivity.
  discriminate.
Qed.

Lemma batch_skips_failures_witness :
  (forall p r, In p ["a.php"; "nowhere.php"; "locked.php"] ->
               parse_file last_seen_order bare_world p = Return r ->
               acyclic_within 1 (classes r))
  /\ exists results,
       detect_batch last_seen_order says_clean bare_world 2
                    ["a.php"; "nowhere.php"; "locked.php"] = Some results
       /\ map Adapter.file_path results
          = filter (analysable bare_world)
                   ["a.php"; "nowhere.php"; "locked.php"]
       /\ Forall (fun res =>
                    detect_smells_on last_seen_order says_clean bare_world 2
                                     (Adapter.file_path res)
                    = Some (Return res)) results.
Proof.
  split; [intros p r _; apply bare_world_acyclic|].
  exact (batch_skips_failures last_seen_order says_clean bare_world 1
           ["a.php"; "nowhere.php"; "locked.php"]
           (fun p r _ => bare_world_acyclic p r)).
Defined.

(** On [bare_world] the batch keeps the readable file; on
    [guarded_world], where [php] cannot be executed, it keeps no file at
    all, readable or not. *)
Example batch_on_samples :
  detect_batch last_seen_order says_clean bare_world 2
               ["a.php"; "nowhere.php"; "locked.php"]
  = Some [a_php_result]
  /\ detect_batch last_seen_order says_clean guarded_world 2
                  ["a.php"; "unsafe.php"; "src"; "nowhere.php"]
     = Some [].
Proof. split; reflexivity. Qed.

Lemma cyclic_depth_never_returns fuel :
  _calculate_inheritance_depth
    fuel (classes (simple_parse_text last_seen_order cyclic_source)) = None.
Proof.
  replace (classes (simple_parse_text last_seen_order cyclic_source))
    with cyclic_classes by (vm_compute; reflexivity).
  unfold _calculate_inheritance_depth. unfold cyclic_classes at 2.
  cbn [depth_loop extends]. rewrite cyclic_loop_never_leaves by auto.
  reflexivity.
Qed.

(** One readable file whose class list keeps the loop of
    [_calculate_inheritance_depth] running stops the whole batch: the
    handler of [detect_batch] catches what is raised, and nothing is
    raised here, so no result is returned for any of the files. *)
Theorem batch_hangs_on_cycle
        (O : SetOrder) (predict : CodeFeatures -> string * Q) (w : world)
        (file_paths : list string) (p content : string) (r : ParseResult) :
  In p file_paths ->
  file w p = Readable content ->
  parse_file O w p = Return r ->
  (forall fuel, _calculate_inheritance_depth fuel (classes r) = None) ->
  forall fuel, detect_batch O predict w fuel file_paths = None.
Proof.
  intros Hin F P Hloop fuel.
  induction file_paths as [|q paths IH]; [destruct Hin|].
  cbn [detect_batch]. destruct Hin as [->|Hin].
  - pose proof (detect_smells_on_cases O predict w fuel p) as C.
    rewrite F in C. destruct (launches w p).
    + destruct C as (r' & P' & C).
      rewrite P in P'. injection P' as <-.
      rewrite C, Hloop. reflexivity.
    + destruct C as (e & P' & _). congruence.
  - rewrite (IH Hin).
    destruct (detect_smells_on O predict w fuel q); reflexivity.
Qed.

Lemma batch_hangs_on_cycle_witness :
  (In "loop.php" ["a.php"; "loop.php"]
   /\ file cyclic_world "loop.php" = Readable cyclic_source
   /\ parse_file last_seen_order cyclic_world "loop.php"
      = Return (simple_parse_text last_seen_order cyclic_source)
   /\ forall fuel,
        _calculate_inheritance_depth
          fuel (classes (simple_parse_text last_seen_order cyclic_source))
        = None)
  /\ forall fuel,
       detect_batch last_seen_order says_clean cyclic_world fuel
                    ["a.php"; "loop.php"] = None.
Proof.
  assert (H1 : In "loop.php" ["a.php"; "loop.php"]) by (simpl; auto).
  assert (H2 : file cyclic_world "loop.php" = Readable cyclic_source)
    by reflexivity.
  assert (H3 : parse_file last_seen_order cyclic_world "loop.php"
               = Return (simple_parse_text last_seen_order cyclic_source))
    by reflexivity.
  split; [split; [exact H1|split; [exact H2|split;
          [exact H3|exact cyclic_depth_never_returns]]]|].
  exact (batch_hangs_on_cycle last_seen_order says_clean cyclic_world
           ["a.php"; "loop.php"] "loop.php" cyclic_source _
           H1 H2 H3 cyclic_depth_never_returns).
Defined.

(** ** The training data *)

Lemma extract_features_refused fuel O w file_path :
  analysable w file_path = false ->
  exists e, extract_features fuel O w file_path = Some (Raise e).
Proof.
  unfold analysable, can_read. intros A.
  destruct (launches w file_path) eqn:L.
  - pose proof (extract_features_cases fuel O w file_path L) as C.
    destruct (file w file_path) as [|e|content]; [| |discriminate];
      eexists; exact C.
  - destruct (launch_refused w file_path L) as (e & P & Hc).
    exists e. now apply extract_features_escapes.
Qed.

Lemma extract_features_returns n O w file_path :
  analysable w file_path = true ->
  (forall r, parse_file O w file_path = Return r ->
             acyclic_within n (classes r)) ->
  exists features,
    extract_features (S n) O w file_path = Some (Return features).
Proof.
  unfold analysable, can_read. intros A Hp.
  destruct (file w file_path) as [|e|content] eqn:F; try discriminate.
  cbn [andb] in A.
  pose proof (extract_features_cases (S n) O w file_path A) as C.
  rewrite F in C. destruct C as (r & P & C).
  destruct (Hp r P) as (rank & Hr & Hn).
  destruct (depth_loop_ranked (classes r) rank n Hr Hn (classes r) 0)
    as (d & Hd & _).
  exists (features_of r content d). rewrite C.
  unfold _calculate_inheritance_depth. now rewrite Hd.
Qed.

Lemma analysable_exists w file_path :
  analysable w file_path = true -> file w file_path <> Missing.
Proof.
  unfold analysable, can_read. destruct (file w file_path); discriminate.
Qed.

Lemma collect_rows_total O w n pairs :
  (forall p r, In p (map fst pairs) -> parse_file O w p = Return r ->
               acyclic_within n (classes r)) ->
  exists X,
    collect_rows (S n) O w pairs = Some (X, map snd (usable w pairs))
    /\ Forall2 (fun row pl =>
                  exists features,
                    extract_features (S n) O w (fst pl)
                    = Some (Return features)
                    /\ row = to_vector features)
               X (usable w pairs).
Proof.
  induction pairs as [|[p label] pairs IH]; intros Hp.
  - exists []. split; [reflexivity|constructor].
  - destruct IH as (X & HX & Hrows).
    { intros q r Hq. apply Hp. now right. }
    cbn [collect_rows]. unfold usable in *. cbn [filter fst].
    destruct (analysable w p) eqn:A.
    + destruct (extract_features_returns n O w p A) as (features & E).
      { intros r. apply Hp. now left. }
      pose proof (analysable_exists w p A) as Hm.
      rewrite E, HX.
      exists (to_vector features :: X).
      split; [destruct (file w p); [congruence|reflexivity|reflexivity]|].
      constructor; [|exact Hrows].
      exists features. split; [exact E|reflexivity].
    + destruct (extract_features_refused (S n) O w p A) as (e & E).
      rewrite E. exists X.
      split; [destruct (file w p); exact HX|exact Hrows].
Qed.

Lemma Forall2_same_length {A B : Type} (R : A -> B -> Prop) l1 l2 :
  Forall2 R l1 l2 -> List.length l1 = List.length l2.
Proof. induction 1; simpl; congruence. Qed.

(** When the class lists of the parsed files have no cycle,
    [prepare_training_data] returns; it raises [ValueError] when none of
    the paired files is analysable, and otherwise the labels it keeps
    are those of the analysable files, in their order, and the rows of
    the matrix are, in the same order, the vectors of the profiles that
    [extract_features] returns for these files: one row for each label,
    with one entry for each feature name. *)
Theorem training_rows_stay_aligned
        (O : SetOrder) (w : world) (n : nat) (php_files labels : list string) :
  (forall p r, In p php_files -> parse_file O w p = Return r ->
               acyclic_within n (classes r)) ->
  match usable w (combine php_files labels) with
  | [] => prepare_training_data (S n) O w php_files labels
          = Some NoFileProcessed
  | kept =>
      exists X,
        prepare_training_data (S n) O w php_files labels
        = Some (Prepared X (map snd kept))
        /\ Forall2 (fun row pl =>
                      exists features,
                        extract_features (S n) O w (fst pl)
                        = Some (Return features)
                        /\ row = to_vector features)
                   X kept
        /\ List.length X = List.length kept
        /\ Forall (fun row => List.length row = List.length get_feature_names)
                  X
  end.
Proof.
  intros Hp.
  destruct (collect_rows_total O w n (combine php_files labels))
    as (X & HX & Hrows).
  { intros p r Hin. apply Hp. apply in_map_iff in Hin.
    destruct Hin as ([q l] & <- & Hin). now apply in_combine_l in Hin. }
  unfold prepare_training_data. rewrite HX.
  pose proof (Forall2_same_length _ _ _ Hrows) as Hlen.
  destruct (usable w (combine php_files labels)) as [|k kept].
  - destruct X; [reflexivity|discriminate].
  - destruct X as [|row X]; [discriminate|].
    exists (row :: X). split; [reflexivity|]. split; [exact Hrows|].
    split; [exact Hlen|].
    clear - Hrows. induction Hrows as [|x y l l' (f & _ & ->) _ IH];
      constructor; [reflexivity|exact IH].
Qed.

Lemma training_rows_stay_aligned_witness :
  (forall p r, In p ["nowhere.php"; "a.php"; "locked.php"] ->
               parse_file last_seen_order bare_world p = Return r ->
               acyclic_within 1 (classes r))
  /\ exists X,
       prepare_training_data 2 last_seen_order bare_world
                             ["nowhere.php"; "a.php"; "locked.php"]
                             ["long_method"; "clean"; "large_class"]
       = Some (Prepared X ["clean"])
       /\ Forall2 (fun row pl =>
                     exists features,
                       extract_features 2 last_seen_order bare_world (fst pl)
                       = Some (Return features)
                       /\ row = to_vector features)
                  X [("a.php", "clean")]
       /\ List.length X = 1
       /\ Forall (fun row => List.length row = List.length get_feature_names)
                 X.
Proof.
  split; [intros p r _; apply bare_world_acyclic|].
  exact (training_rows_stay_aligned last_seen_order bare_world 1
           ["nowhere.php"; "a.php"; "locked.php"]
           ["long_method"; "clean"; "large_class"]
           (fun p r _ => bare_world_acyclic p r)).
Defined.

(** On [guarded_world] no file is processed: the [PermissionError] of
    the launch is caught by the loop for every file, and the function
    raises its [ValueError]. *)
Example training_on_guarded_world :
  prepare_training_data 2 last_seen_order guarded_world
                        ["a.php"; "unsafe.php"] ["clean"; "security_issues"]
  = Some NoFileProcessed.
Proof. reflexivity. Qed.

(** ** The statistics of [detect_command] *)

Lemma count_issues_sound issues : forall c,
  Forall (fun d => In (d_severity d) ["error"; "warning"; "info"]) issues ->
  count_issues c issues
  = Some (mkCounts (n_error c + with_d_severity "error" issues)
                   (n_warning c + with_d_severity "warning" issues)
                   (n_info c + with_d_severity "info" issues)).
Proof.
  unfold with_d_severity.
  induction issues as [|d issues IH]; intros c H.
  - simpl. destruct c. cbn. now rewrite !Nat.add_0_r.
  - inversion H as [|? ? Hd Hrest]; subst.
    cbn [count_issues filter]. unfold count_severity.
    destruct Hd as [E|[E|[E|[]]]]; rewrite <- E; cbn [String.eqb Ascii.eqb Bool.eqb];
      rewrite (IH _ Hrest); cbn [n_error n_warning n_info List.length];
      f_equal; f_equal; lia.
Qed.

Lemma with_d_severity_app sev l1 l2 :
  with_d_severity sev (l1 ++ l2)
  = with_d_severity sev l1 + with_d_severity sev l2.
Proof. unfold with_d_severity. now rewrite filter_app, length_app. Qed.

Lemma with_d_severity_other sev (c : bool) d :
  String.eqb (d_severity d) sev = false ->
  with_d_severity sev (if c then [d] else []) = 0.
Proof.
  intros H. unfold with_d_severity. destruct c; [|reflexivity].
  simpl. now rewrite H.
Qed.

Lemma specific_issues_severities f :
  Forall (fun d => In (d_severity d) ["error"; "warning"; "info"])
         (_detect_specific_issues f)
  /\ with_d_severity "error" (_detect_specific_issues f)
     = (if (20 <? cyclomatic_complexity f)%Z then 1 else 0).
Proof.
  unfold _detect_specific_issues. split.
  - repeat (apply Forall_app; split;
            [first [ apply Forall_when; intros _; simpl; tauto
                   | destruct (Qlt_le_dec (comment_ratio f) 0.1);
                     repeat constructor; simpl; tauto ]|]).
    apply Forall_when. intros _. simpl. tauto.
  - rewrite !with_d_severity_app.
    rewrite !with_d_severity_other by reflexivity.
    destruct (Qlt_le_dec (comment_ratio f) 0.1);
      destruct (20 <? cyclomatic_complexity f)%Z; reflexivity.
Qed.

(** The results of [detect_batch] carry the dictionaries of
    [_detect_specific_issues] for their profile. *)
Lemma detect_batch_issues O predict w fuel paths : forall results,
  detect_batch O predict w fuel paths = Some results ->
  Forall (fun res => issues res = _detect_specific_issues (features res))
         results.
Proof.
  induction paths as [|p paths IH]; intros results H.
  - injection H as <-. constructor.
  - cbn [detect_batch] in H.
    destruct (detect_smells_on O predict w fuel p) as [outcome|] eqn:D;
      [|discriminate].
    destruct (detect_batch O predict w fuel paths) as [rs|]; [|discriminate].
    injection H as <-. specialize (IH rs eq_refl).
    destruct outcome as [res|e]; [|exact IH].
    constructor; [|exact IH].
    destruct (detect_smells_on_returned O predict w fuel p res D)
      as (content & r & depth & _ & _ & _ & _ & ->).
    unfold detect_smells. cbv zeta.
    match goal with
    | |- context [let '(_, _) := ?x in _] => destruct x as [label conf]
    end. reflexivity.
Qed.

Lemma count_smell_total t d : total (count_smell t d) = total d + 1.
Proof.
  unfold total. induction d as [|[k v] d IH]; [reflexivity|].
  cbn [count_smell]. destruct (String.eqb k t); cbn [map snd list_sum fold_right] in *.
  - lia.
  - change (fold_right Nat.add 0 (map snd (count_smell t d)))
      with (list_sum (map snd (count_smell t d))).
    rewrite IH. change (fold_right Nat.add 0 (map snd d))
      with (list_sum (map snd d)). lia.
Qed.

Lemma count_results_sound results : forall d c,
  Forall (fun res => issues res = _detect_specific_issues (features res))
         results ->
  exists d' c',
    count_results d c results = Some (d', c')
    /\ total d' = total d + List.length results
    /\ n_error c' = n_error c + too_complex results
    /\ n_error c' + n_warning c' + n_info c'
       = n_error c + n_warning c + n_info c
         + list_sum (map (fun res => List.length (issues res)) results).
Proof.
  induction results as [|res results IH]; intros d c H.
  - exists d, c. simpl. unfold too_complex. simpl. repeat split; lia.
  - inversion H as [|? ? Hres Hrest]; subst.
    cbn [count_results].
    destruct (specific_issues_severities (features res)) as [Hs He].
    rewrite <- Hres in Hs, He.
    rewrite (count_issues_sound _ c Hs).
    destruct (IH (count_smell (smell_type res) d)
                 (mkCounts (n_error c + with_d_severity "error" (issues res))
                           (n_warning c + with_d_severity "warning" (issues res))
                           (n_info c + with_d_severity "info" (issues res)))
                 Hrest) as (d' & c' & Hc & Ht & Hn & Hsum).
    exists d', c'. split; [exact Hc|]. rewrite count_smell_total in Ht.
    cbn [n_error n_warning n_info] in Hn, Hsum.
    assert (Hparts : with_d_severity "error" (issues res)
                     + with_d_severity "warning" (issues res)
                     + with_d_severity "info" (issues res)
                     = List.length (issues res)).
    { clear - Hs. unfold with_d_severity.
      induction (issues res) as [|x l IHl]; [reflexivity|].
      inversion Hs as [|? ? Hx Hl]; subst. specialize (IHl Hl).
      cbn [filter List.length].
      destruct Hx as [E|[E|[E|[]]]]; rewrite <- E;
        cbn [String.eqb Ascii.eqb Bool.eqb List.length]; lia. }
    split; [cbn [List.length]; lia|]. split.
    + rewrite Hn, He. unfold too_complex. cbn [filter].
      destruct (20 <? cyclomatic_complexity (features res))%Z;
        cbn [List.length]; lia.
    + cbn [map list_sum fold_right].
      change (fold_right Nat.add 0
                (map (fun res => List.length (issues res)) results))
        with (list_sum (map (fun res => List.length (issues res)) results)).
      lia.
Qed.

(** On the results of [detect_batch], the counting loop of
    [detect_command] raises no [KeyError]; the counts of the labels add
    up to the number of results, the three counts of the severities to
    the number of dictionaries in [issues], and the count of errors is
    the number of results whose profile has a cyclomatic complexity above
    20: the issues of the scan are not counted. *)
Theorem statistics_of_batch
        (O : SetOrder) (predict : CodeFeatures -> string * Q) (w : world)
        (fuel : nat) (file_paths : list string)
        (results : list SmellDetectionResult) :
  detect_batch O predict w fuel file_paths = Some results ->
  exists smell_counts issue_counts,
    statistics results = Some (smell_counts, issue_counts)
    /\ total smell_counts = List.length results
    /\ n_error issue_counts = too_complex results
    /\ n_error issue_counts + n_warning issue_counts + n_info issue_counts
       = list_sum (map (fun res => List.length (issues res)) results).
Proof.
  intros H. apply detect_batch_issues in H.
  destruct (count_results_sound results [] (mkCounts 0 0 0) H)
    as (d & c & Hc & Ht & Hn & Hs).
  exists d, c. split; [exact Hc|]. cbn in Ht, Hn, Hs. auto.
Qed.

Lemma unsafe_detected :
  detect_batch last_seen_order says_clean unsafe_world 1
               ["unsafe.php"]
  = Some [unsafe_result].
Proof. vm_compute. reflexivity. Qed.

Lemma statistics_of_batch_witness :
  detect_batch last_seen_order says_clean unsafe_world 1
               ["unsafe.php"]
  = Some [unsafe_result]
  /\ exists smell_counts issue_counts,
       statistics [unsafe_result] = Some (smell_counts, issue_counts)
       /\ total smell_counts = List.length [unsafe_result]
       /\ n_error issue_counts = too_complex [unsafe_result]
       /\ n_error issue_counts + n_warning issue_counts + n_info issue_counts
          = list_sum (map (fun res => List.length (issues res))
                          [unsafe_result]).
Proof.
  split; [exact unsafe_detected|].
  exact (statistics_of_batch last_seen_order says_clean unsafe_world
           1 ["unsafe.php"] [unsafe_result] unsafe_detected).
Defined.

(** The file is labelled [security_issues], and no error is counted
    for it: the statistics read the dictionaries of the profile, not the
    issues of the scan. *)
Example unsafe_statistics :
  statistics [unsafe_result]
  = Some ([("security_issues", 1)], mkCounts 0 0 1).
Proof. vm_compute. reflexivity. Qed.
